(** * The yield-prediction pipeline of agridom-project, embedded in Rocq

    Three parts of the repository are covered:
    - the [predict-yield] edge function (credential check, prompt
      construction, gateway call, status handling, JSON extraction);
    - the [YieldPrediction] component: [handlePredict] (form validation,
      dispatch, reply handling), [handleInputChange], the button and the
      results panel;
    - the [AppSettingsContext] provider (initial state, [updateSetting],
      [updateNestedSetting]) and the handlers of the settings page that
      uses it ([handleSettingChange], [handleSave], [handleReset], the
      switches).

    [JSON.parse], [JSON.stringify], [parseFloat], template literals and the
    one regular expression of the edge function are modelled after
    ECMAScript, since the code's behaviour rests on them.

    Texts are byte strings: the UTF-8 encoding of the source's strings, a
    surrogate on its own taking the three-byte layout.
    Numbers are IEEE doubles, each named by the shortest decimal that
    rounds to it, which is the text an engine prints for it. *)

From Stdlib Require Import ZArith NArith Ascii String List Lia Bool.
From stdpp Require Import base option list strings gmap pretty.

(** * JSON: values, [JSON.stringify] and [JSON.parse] *)

Module Json.

(** ** Numbers *)

(** A finite number [±d1 d2 ... dk × 10^e].  In canonical form the digit list
    has neither a leading nor a trailing zero, and zero is the empty list
    with exponent 0 and no sign. *)
Record decimal := Decimal {
  d_neg : bool;
  d_digits : list nat;
  d_exp : Z
}.

Definition dzero : decimal := Decimal false [] 0%Z.

Global Instance decimal_eq_dec : EqDecision decimal.
Proof. solve_decision. Defined.

Definition nonzero_digit (d : nat) : bool := negb (Nat.eqb d 0) && Nat.ltb d 10.

(** Negative zero is not told apart from zero. *)
Definition canonical (d : decimal) : bool :=
  match d_digits d with
  | [] => negb (d_neg d) && Z.eqb (d_exp d) 0%Z
  | d0 :: _ =>
      nonzero_digit d0 && nonzero_digit (List.last (d_digits d) 0%nat)
      && forallb (fun x => Nat.ltb x 10) (d_digits d)
  end.

(** Digits and their characters. *)
Definition ascii_of_digit (d : nat) : ascii := ascii_of_N (48 + N.of_nat d).

Definition digit_of_ascii (c : ascii) : option nat :=
  let n := N_of_ascii c in
  if (48 <=? n)%N && (n <=? 57)%N then Some (N.to_nat (n - 48)) else None.

Fixpoint digits_str (ds : list nat) : string :=
  match ds with
  | [] => ""
  | d :: ds' => String (ascii_of_digit d) (digits_str ds')
  end.

(** Natural numbers as digit lists, most significant digit first. *)
Definition of_digits (ds : list nat) : N :=
  fold_left (fun acc d => (acc * 10 + N.of_nat d)%N) ds 0%N.

Fixpoint to_digits_go (fuel : nat) (n : N) (acc : list nat) : list nat :=
  match fuel with
  | O => acc
  | S fuel' =>
      let acc' := N.to_nat (n mod 10) :: acc in
      if (n <? 10)%N then acc' else to_digits_go fuel' (n / 10) acc'
  end.

Definition to_digits (n : N) : list nat := to_digits_go (S (N.size_nat n)) n [].

(** Number::toString of ECMAScript, on the decimal [s × 10^(n-k)] with [k]
    digits: plain notation while [-6 < n <= 21], exponent notation outside. *)
Definition print_exponent (e : Z) : string :=
  String (if (e <? 0)%Z then "-"%char else "+"%char) (digits_str (to_digits (Z.abs_N e))).

Definition print_decimal (d : decimal) : string :=
  match d_digits d with
  | [] => "0"
  | d0 :: rest =>
      let ds := d_digits d in
      let k := Z.of_nat (length ds) in
      let n := (k + d_exp d)%Z in
      (if d_neg d then "-" else "") +:+
      (if (k <=? n)%Z && (n <=? 21)%Z then
         digits_str (ds ++ repeat 0%nat (Z.to_nat (n - k)))
       else if (0 <? n)%Z && (n <=? 21)%Z then
         digits_str (take (Z.to_nat n) ds) +:+ "." +:+ digits_str (drop (Z.to_nat n) ds)
       else if (-6 <? n)%Z && (n <=? 0)%Z then
         "0." +:+ digits_str (repeat 0%nat (Z.to_nat (- n)) ++ ds)
       else
         match rest with
         | [] => digits_str [d0] +:+ "e" +:+ print_exponent (n - 1)
         | _ => digits_str [d0] +:+ "." +:+ digits_str rest +:+ "e" +:+ print_exponent (n - 1)
         end)
  end.

(** ** Values *)

(** What [JSON.parse] can give.  A number is a double: [JNum d] is the
    finite double that Number::toString prints as [d] (see [to_double]
    below), [JInf] an infinity, which a literal beyond the largest double
    parses to.  Negative zero is not told apart from zero: nothing here
    prints or tests them differently. *)
#[warnings="-register-all"] Inductive json :=
| JNull
| JBool (b : bool)
| JNum (d : decimal)
| JStr (s : string)
| JArr (vs : list json)
| JObj (fields : list (string * json))
| JInf (neg : bool).

(** An object is the list of its own properties in the order an engine
    lists them: the array indices (the canonical numerals below 2^32 - 1)
    in ascending order, then the other keys in creation order.  Writing an
    existing key keeps its place. *)
Fixpoint digits_value (s : string) (acc : N) : option N :=
  match s with
  | "" => Some acc
  | String c s' =>
      let n := N_of_ascii c in
      if (48 <=? n)%N && (n <=? 57)%N
      then digits_value s' (10 * acc + (n - 48))%N
      else None
  end.

Definition array_index (k : string) : option N :=
  match k with
  | "" => None
  | String c rest =>
      if (11 <=? String.length k)%nat then None
      else
        match digits_value k 0 with
        | Some n =>
            if (negb (Ascii.eqb c "0") || String.eqb rest "")
               && (n <? 4294967295)%N
            then Some n else None
        | None => None
        end
  end.

(** [goes_before k k']: a new key [k] is listed before the key [k']. *)
Definition goes_before (k k' : string) : bool :=
  match array_index k, array_index k' with
  | Some n, Some n' => (n <? n')%N
  | Some _, None => true
  | None, _ => false
  end.

Fixpoint ordered (ks : list string) : bool :=
  match ks with
  | [] => true
  | k :: rest => forallb (fun k' => negb (goes_before k' k)) rest && ordered rest
  end.

Fixpoint obj_get (k : string) (fields : list (string * json)) : option json :=
  match fields with
  | [] => None
  | (k', v) :: rest => if String.eqb k k' then Some v else obj_get k rest
  end.

Fixpoint obj_set (k : string) (v : json) (fields : list (string * json))
  : list (string * json) :=
  match fields with
  | [] => [(k, v)]
  | (k', v') :: rest =>
      if String.eqb k k' then (k, v) :: rest
      else if goes_before k k' then (k, v) :: (k', v') :: rest
      else (k', v') :: obj_set k v rest
  end.

(** ** Tokens *)

Inductive token :=
| TLBrace | TRBrace | TLBracket | TRBracket | TColon | TComma
| TString (s : string)
| TNumber (d : decimal)
| TTrue | TFalse | TNull.

Fixpoint sep_by (sep : token) (ls : list (list token)) : list token :=
  match ls with
  | [] => []
  | [l] => l
  | l :: ls' => l ++ sep :: sep_by sep ls'
  end.

Fixpoint tokens (v : json) : list token :=
  match v with
  | JNull => [TNull]
  | JBool true => [TTrue]
  | JBool false => [TFalse]
  | JNum d => [TNumber d]
  | JStr s => [TString s]
  | JArr vs => TLBracket :: sep_by TComma (map tokens vs) ++ [TRBracket]
  | JObj fields =>
      TLBrace ::
      sep_by TComma (map (fun kv => TString (fst kv) :: TColon :: tokens (snd kv)) fields)
      ++ [TRBrace]
  | JInf _ => [TNull]
  end.

(** ** Printing: QuoteJSONString and [JSON.stringify] *)

Definition dquote : ascii := "034"%char.

Definition hex_char (n : N) : ascii :=
  if (n <? 10)%N then ascii_of_N (48 + n) else ascii_of_N (87 + n).

Definition escape_char (c : ascii) : string :=
  let n := N_of_ascii c in
  if (n =? 34)%N then String "\" (String dquote "")
  else if (n =? 92)%N then "\\"
  else if (n =? 8)%N then "\b"
  else if (n =? 9)%N then "\t"
  else if (n =? 10)%N then "\n"
  else if (n =? 12)%N then "\f"
  else if (n =? 13)%N then "\r"
  else if (n <? 32)%N then
    "\u00" +:+ String (hex_char (n / 16)) (String (hex_char (n mod 16)) "")
  else String c "".

Definition is_high (u : N) : bool := (55296 <=? u)%N && (u <=? 56319)%N.
Definition is_low (u : N) : bool := (56320 <=? u)%N && (u <=? 57343)%N.

(** The surrogate that three bytes stand for (see [utf8] below). *)
Definition surrogate (c1 c2 c3 : ascii) : option N :=
  let n1 := N_of_ascii c1 in
  let n2 := N_of_ascii c2 in
  let n3 := N_of_ascii c3 in
  if ((n1 =? 237) && (160 <=? n2) && (n2 <=? 191)
      && (128 <=? n3) && (n3 <=? 191))%N
  then Some (55296 + (n2 - 160) * 64 + (n3 - 128))%N
  else None.

Definition hex4 (u : N) : string :=
  String (hex_char (u / 4096))
    (String (hex_char ((u / 256) mod 16))
       (String (hex_char ((u / 16) mod 16)) (String (hex_char (u mod 16)) ""))).

(** QuoteJSONString: a surrogate on its own is written as an escape.  In a
    text a high surrogate is never followed by a low one, the two being one
    character of four bytes; bytes that say otherwise are copied.
    [after_high]: the unit just written was a high surrogate. *)
Fixpoint escape_from (after_high : bool) (s : string) : string :=
  match s with
  | "" => ""
  | String c s' =>
      let plain := escape_char c +:+ escape_from false s' in
      match s' with
      | String c2 (String c3 rest) =>
          match surrogate c c2 c3 with
          | Some u =>
              if after_high && is_low u
              then String c (String c2 (String c3 (escape_from false rest)))
              else "\u" +:+ hex4 u +:+ escape_from (is_high u) rest
          | None => plain
          end
      | _ => plain
      end
  end.

Definition escape (s : string) : string := escape_from false s.

Definition quote (s : string) : string :=
  String dquote (escape s +:+ String dquote "").

Definition print_token (t : token) : string :=
  match t with
  | TLBrace => "{" | TRBrace => "}"
  | TLBracket => "[" | TRBracket => "]"
  | TColon => ":" | TComma => ","
  | TString s => quote s
  | TNumber d => print_decimal d
  | TTrue => "true" | TFalse => "false" | TNull => "null"
  end.

Fixpoint print_tokens (ts : list token) : string :=
  match ts with
  | [] => ""
  | t :: ts' => print_token t +:+ print_tokens ts'
  end.

(** [JSON.stringify v] for a value that [JSON.parse] gave (so without
    [undefined] or functions): the token stream, printed without white
    space; an infinity is written [null]. *)
Definition JSON_stringify (v : json) : string := print_tokens (tokens v).

(** ** Lexer

    One character per step, so that [lex_from] recurses on the text. *)

Definition is_ws (c : ascii) : bool :=
  let n := N_of_ascii c in
  (n =? 32)%N || (n =? 9)%N || (n =? 10)%N || (n =? 13)%N.

Definition hex_val (c : ascii) : option N :=
  let n := N_of_ascii c in
  if (48 <=? n)%N && (n <=? 57)%N then Some (n - 48)%N
  else if (97 <=? n)%N && (n <=? 102)%N then Some (n - 87)%N
  else if (65 <=? n)%N && (n <=? 70)%N then Some (n - 55)%N
  else None.

(** UTF-8 bytes of a code point; a surrogate on its own gets the same
    three-byte layout. *)
Definition utf8 (cp : N) : string :=
  let b (n : N) := ascii_of_N n in
  (if cp <? 128 then String (b cp) ""
   else if cp <? 2048 then
     String (b (192 + cp / 64)) (String (b (128 + cp mod 64)) "")
   else if cp <? 65536 then
     String (b (224 + cp / 4096))
       (String (b (128 + (cp / 64) mod 64)) (String (b (128 + cp mod 64)) ""))
   else
     String (b (240 + cp / 262144))
       (String (b (128 + (cp / 4096) mod 64))
          (String (b (128 + (cp / 64) mod 64)) (String (b (128 + cp mod 64)) ""))))%N.

(** A number literal under construction. *)
Inductive num_phase := PSign | PZero | PInt | PDot | PFrac | PE | PESign | PExp.

Record num_acc := NumAcc {
  n_neg : bool;
  n_int : list nat;
  n_frac : list nat;
  n_eneg : bool;
  n_edigits : list nat
}.

Definition num_terminal (ph : num_phase) : bool :=
  match ph with
  | PZero | PInt | PFrac | PExp => true
  | _ => false
  end.

Fixpoint strip_zeros (ds : list nat) : list nat :=
  match ds with
  | O :: ds' => strip_zeros ds'
  | _ => ds
  end.

(** The value of a literal: significant digits and the exponent of the last
    of them. *)
Definition make_decimal (a : num_acc) : decimal :=
  let e := ((if n_eneg a then -1 else 1) * Z.of_N (of_digits (n_edigits a)))%Z in
  let ds := strip_zeros (n_int a ++ n_frac a) in
  let sd := rev (strip_zeros (rev ds)) in
  match sd with
  | [] => dzero
  | _ => Decimal (n_neg a) sd
           (e - Z.of_nat (length (n_frac a))
              + (Z.of_nat (length ds) - Z.of_nat (length sd)))%Z
  end.

Definition is_exp_char (c : ascii) : bool := (c =? "e")%char || (c =? "E")%char.

(** [None]: syntax error; [Some None]: the literal ended before [c]. *)
Definition num_step (ph : num_phase) (a : num_acc) (c : ascii)
  : option (option (num_phase * num_acc)) :=
  let 'NumAcc neg i f en ed := a in
  let after_int :=
    if (c =? ".")%char then Some (Some (PDot, a))
    else if is_exp_char c then Some (Some (PE, a))
    else Some None in
  match ph, digit_of_ascii c with
  | PSign, Some O => Some (Some (PZero, NumAcc neg [O] f en ed))
  | PSign, Some d => Some (Some (PInt, NumAcc neg [d] f en ed))
  | PSign, None => None
  | PZero, _ => after_int
  | PInt, Some d => Some (Some (PInt, NumAcc neg (i ++ [d]) f en ed))
  | PInt, None => after_int
  | PDot, Some d => Some (Some (PFrac, NumAcc neg i [d] en ed))
  | PDot, None => None
  | PFrac, Some d => Some (Some (PFrac, NumAcc neg i (f ++ [d]) en ed))
  | PFrac, None => if is_exp_char c then Some (Some (PE, a)) else Some None
  | PE, Some d => Some (Some (PExp, NumAcc neg i f en [d]))
  | PE, None =>
      if (c =? "+")%char then Some (Some (PESign, a))
      else if (c =? "-")%char then Some (Some (PESign, NumAcc neg i f true ed))
      else None
  | PESign, Some d => Some (Some (PExp, NumAcc neg i f en [d]))
  | PESign, None => None
  | PExp, Some d => Some (Some (PExp, NumAcc neg i f en (ed ++ [d])))
  | PExp, None => Some None
  end.

Inductive lstate :=
| LDefault
| LLit (rest : string) (t : token)
| LNum (ph : num_phase) (a : num_acc)
| LStr (acc : string) (hi : option N)
| LEsc (acc : string) (hi : option N)
| LUni (acc : string) (hi : option N) (hex : list N).

Definition snoc (s : string) (c : ascii) : string := s +:+ String c "".

(** A pending high surrogate that found no partner is written out. *)
Definition flush (hi : option N) (acc : string) : string :=
  match hi with
  | Some h => acc +:+ utf8 h
  | None => acc
  end.

Definition unit_done (acc : string) (hi : option N) (u : N) : lstate :=
  match hi with
  | Some h =>
      if is_low u then
        LStr (acc +:+ utf8 (65536 + (h - 55296) * 1024 + (u - 56320))%N) None
      else if is_high u then LStr (acc +:+ utf8 h) (Some u)
      else LStr (acc +:+ utf8 h +:+ utf8 u) None
  | None => if is_high u then LStr acc (Some u) else LStr (acc +:+ utf8 u) None
  end.

Definition lex_start (c : ascii) : option (lstate * list token) :=
  if is_ws c then Some (LDefault, [])
  else if (c =? "{")%char then Some (LDefault, [TLBrace])
  else if (c =? "}")%char then Some (LDefault, [TRBrace])
  else if (c =? "[")%char then Some (LDefault, [TLBracket])
  else if (c =? "]")%char then Some (LDefault, [TRBracket])
  else if (c =? ":")%char then Some (LDefault, [TColon])
  else if (c =? ",")%char then Some (LDefault, [TComma])
  else if (c =? dquote)%char then Some (LStr "" None, [])
  else if (c =? "t")%char then Some (LLit "rue" TTrue, [])
  else if (c =? "f")%char then Some (LLit "alse" TFalse, [])
  else if (c =? "n")%char then Some (LLit "ull" TNull, [])
  else if (c =? "-")%char then Some (LNum PSign (NumAcc true [] [] false []), [])
  else match digit_of_ascii c with
       | Some O => Some (LNum PZero (NumAcc false [O] [] false []), [])
       | Some d => Some (LNum PInt (NumAcc false [d] [] false []), [])
       | None => None
       end.

Definition escape_target (c : ascii) : option ascii :=
  if (c =? dquote)%char then Some dquote
  else if (c =? "\")%char then Some "\"%char
  else if (c =? "/")%char then Some "/"%char
  else if (c =? "b")%char then Some (ascii_of_N 8)
  else if (c =? "f")%char then Some (ascii_of_N 12)
  else if (c =? "n")%char then Some (ascii_of_N 10)
  else if (c =? "r")%char then Some (ascii_of_N 13)
  else if (c =? "t")%char then Some (ascii_of_N 9)
  else None.

Definition lex_step (st : lstate) (c : ascii) : option (lstate * list token) :=
  match st with
  | LDefault => lex_start c
  | LLit rest t =>
      match rest with
      | String c' rest' =>
          if (c =? c')%char then
            match rest' with
            | "" => Some (LDefault, [t])
            | _ => Some (LLit rest' t, [])
            end
          else None
      | "" => None
      end
  | LNum ph a =>
      match num_step ph a c with
      | None => None
      | Some (Some (ph', a')) => Some (LNum ph' a', [])
      | Some None =>
          match lex_start c with
          | Some (st', ts) => Some (st', TNumber (make_decimal a) :: ts)
          | None => None
          end
      end
  | LStr acc hi =>
      if (c =? dquote)%char then Some (LDefault, [TString (flush hi acc)])
      else if (c =? "\")%char then Some (LEsc acc hi, [])
      else if (N_of_ascii c <? 32)%N then None
      else Some (LStr (snoc (flush hi acc) c) None, [])
  | LEsc acc hi =>
      if (c =? "u")%char then Some (LUni acc hi [], [])
      else match escape_target c with
           | Some c' => Some (LStr (snoc (flush hi acc) c') None, [])
           | None => None
           end
  | LUni acc hi hex =>
      match hex_val c with
      | None => None
      | Some h =>
          let hex' := hex ++ [h] in
          if Nat.eqb (length hex') 4 then
            Some (unit_done acc hi (fold_left (fun x y => (x * 16 + y)%N) hex' 0%N), [])
          else Some (LUni acc hi hex', [])
      end
  end.

Definition lex_end (st : lstate) : option (list token) :=
  match st with
  | LDefault => Some []
  | LNum ph a => if num_terminal ph then Some [TNumber (make_decimal a)] else None
  | _ => None
  end.

Fixpoint lex_from (st : lstate) (s : string) : option (list token) :=
  match s with
  | "" => lex_end st
  | String c s' =>
      match lex_step st c with
      | None => None
      | Some (st', ts) =>
          match lex_from st' s' with
          | None => None
          | Some ts' => Some (ts ++ ts')
          end
      end
  end.

Definition lex (s : string) : option (list token) := lex_from LDefault s.

(** ** Numbers as an engine stores them: IEEE 754 binary64

    The exact value of a literal is rounded to the nearest double, ties to
    the even significand, and to an infinity beyond the largest double.
    A finite double [m × 2^k] is named by the shortest decimal that rounds
    to it, the closest to it when there are several: the digits
    Number::toString prints. *)

(** [floor (log2 (num / den))], for positive [num] and [den]. *)
Definition log2_ratio (num den : Z) : Z :=
  (let a := Z.log2 num - Z.log2 den in
   if 0 <=? a then (if den * 2 ^ a <=? num then a else a - 1)
   else (if den <=? num * 2 ^ (- a) then a else a - 1))%Z.

(** The double nearest to [num / den]: [Some (m, k)] is [m × 2^k] with
    [m < 2^53] and [-1074 <= k <= 971]; [None] is the overflow. *)
Definition round_ratio (num den : Z) : option (Z * Z) :=
  (let k := Z.max (-1074) (log2_ratio num den - 52) in
   let n := if 0 <=? k then num else num * 2 ^ (- k) in
   let d := if 0 <=? k then den * 2 ^ k else den in
   let m0 := n / d in
   let r := n mod d in
   let m := if (d <? 2 * r) || ((d =? 2 * r) && Z.odd m0) then m0 + 1 else m0 in
   let '(m, k) := if m =? 2 ^ 53 then (2 ^ 52, k + 1) else (m, k) in
   if 971 <? k then None else Some (m, k))%Z.

(** The double nearest to [s × 10^e], for positive [s]. *)
Definition round_decimal (s e : Z) : option (Z * Z) :=
  (if 0 <=? e then round_ratio (s * 10 ^ e) 1 else round_ratio s (10 ^ (- e)))%Z.

(** [10^e <= num / den]. *)
Definition ge_pow10 (num den e : Z) : bool :=
  (if 0 <=? e then den * 10 ^ e <=? num else den <=? num * 10 ^ (- e))%Z.

(** [floor (log10 (num / den))]. *)
Definition log10_ratio (num den : Z) : Z :=
  (let est := (log2_ratio num den * 30103) / 100000 in
   if ge_pow10 num den (est + 1) then est + 1
   else if ge_pow10 num den est then est else est - 1)%Z.

(** [floor (num / (den × 10^e))]. *)
Definition scaled (num den e : Z) : Z :=
  (if 0 <=? e then num / (den * 10 ^ e) else (num * 10 ^ (- e)) / den)%Z.

(** [2 × num / den] against [c × 10^e]. *)
Definition compare_twice (num den c e : Z) : comparison :=
  (if 0 <=? e then (2 * num ?= c * 10 ^ e * den)
   else (2 * num * 10 ^ (- e) ?= c * den))%Z.

(** With [nd] digits, the two candidates are the multiples of [10^e] next
    to the value; the first [nd] for which one of them rounds to the double
    is the answer (17 digits always do). *)
Fixpoint shortest_from (fuel : nat) (nd m k num den lg : Z) : Z * Z :=
  (let e := lg - nd + 1 in
   let lo := scaled num den e in
   let hi := lo + 1 in
   let ok s :=
     match round_decimal s e with
     | Some (m', k') => (m' =? m) && (k' =? k)
     | None => false
     end in
   match fuel with
   | O => (lo, e)
   | S fuel' =>
       if ok lo && ok hi then
         match compare_twice num den (lo + hi) e with
         | Lt => (lo, e)
         | Gt => (hi, e)
         | Eq => if Z.even lo then (lo, e) else (hi, e)
         end
       else if ok lo then (lo, e)
       else if ok hi then (hi, e)
       else shortest_from fuel' (nd + 1) m k num den lg
   end)%Z.

(** [(s, e)]: the double [m × 2^k], [m > 0], prints as [s × 10^e]. *)
Definition shortest (m k : Z) : Z * Z :=
  (let '(num, den) := if 0 <=? k then (m * 2 ^ k, 1) else (m, 2 ^ (- k)) in
   shortest_from 17 1 m k num den (log10_ratio num den))%Z.

(** Digits without their trailing zeros, which go to the exponent. *)
Definition normal (neg : bool) (ds : list nat) (e : Z) : decimal :=
  let sd := rev (strip_zeros (rev ds)) in
  match sd with
  | [] => dzero
  | _ => Decimal neg sd (e + (Z.of_nat (length ds) - Z.of_nat (length sd)))%Z
  end.

(** The binary value of the double nearest to [d]: [None] is the overflow.
    A literal of more than 400 places either side of the point is settled
    without computing the power of ten. *)
Definition binary (d : decimal) : option (Z * Z) :=
  let ds := strip_zeros (d_digits d) in
  let s := Z.of_N (of_digits ds) in
  let n := (d_exp d + Z.of_nat (length ds))%Z in
  if (s =? 0)%Z then Some (0, 0)%Z
  else if (400 <? n)%Z then None
  else if (n <? -400)%Z then Some (0, 0)%Z
  else round_decimal s (d_exp d).

(** The double nearest to [d], by the name [JNum] uses; [None] is the
    infinity of the sign of [d]. *)
Definition to_double (d : decimal) : option decimal :=
  match binary d with
  | None => None
  | Some (m, k) =>
      if (m =? 0)%Z then Some dzero
      else let '(s, e) := shortest m k in
           Some (normal (d_neg d) (to_digits (Z.to_N s)) e)
  end.

Definition is_double (d : decimal) : bool := bool_decide (to_double d = Some d).

(** A finite double, by its canonical name. *)
Definition number_wf (d : decimal) : bool := canonical d && is_double d.

(** The value of a number literal. *)
Definition number_value (d : decimal) : json :=
  match to_double d with
  | Some d' => JNum d'
  | None => JInf (d_neg d)
  end.

(** ** Parser: a pushdown automaton over the tokens *)

Inductive frame :=
| FArr (acc : list json)
| FObj (acc : list (string * json)) (key : string).

Inductive pstate :=
| SValue (k : list frame)
| SArrOpen (k : list frame)
| SArrNext (acc : list json) (k : list frame)
| SObjOpen (k : list frame)
| SObjNext (acc : list (string * json)) (k : list frame)
| SKey (acc : list (string * json)) (k : list frame)
| SColon (acc : list (string * json)) (key : string) (k : list frame)
| SDone (v : json).

(** A value is complete: it goes into the innermost open container. *)
Definition finish (v : json) (k : list frame) : pstate :=
  match k with
  | [] => SDone v
  | FArr acc :: k' => SArrNext (acc ++ [v]) k'
  | FObj acc key :: k' => SObjNext (obj_set key v acc) k'
  end.

Definition value_step (k : list frame) (t : token) : option pstate :=
  match t with
  | TNull => Some (finish JNull k)
  | TTrue => Some (finish (JBool true) k)
  | TFalse => Some (finish (JBool false) k)
  | TNumber d => Some (finish (number_value d) k)
  | TString s => Some (finish (JStr s) k)
  | TLBracket => Some (SArrOpen k)
  | TLBrace => Some (SObjOpen k)
  | _ => None
  end.

Definition parse_step (st : pstate) (t : token) : option pstate :=
  match st with
  | SValue k => value_step k t
  | SArrOpen k =>
      match t with
      | TRBracket => Some (finish (JArr []) k)
      | _ => value_step (FArr [] :: k) t
      end
  | SArrNext acc k =>
      match t with
      | TComma => Some (SValue (FArr acc :: k))
      | TRBracket => Some (finish (JArr acc) k)
      | _ => None
      end
  | SObjOpen k =>
      match t with
      | TRBrace => Some (finish (JObj []) k)
      | TString key => Some (SColon [] key k)
      | _ => None
      end
  | SObjNext acc k =>
      match t with
      | TComma => Some (SKey acc k)
      | TRBrace => Some (finish (JObj acc) k)
      | _ => None
      end
  | SKey acc k =>
      match t with
      | TString key => Some (SColon acc key k)
      | _ => None
      end
  | SColon acc key k =>
      match t with
      | TColon => Some (SValue (FObj acc key :: k))
      | _ => None
      end
  | SDone _ => None
  end.

Fixpoint parse_from (st : pstate) (ts : list token) : option json :=
  match ts with
  | [] => match st with SDone v => Some v | _ => None end
  | t :: ts' =>
      match parse_step st t with
      | None => None
      | Some st' => parse_from st' ts'
      end
  end.

(** [JSON.parse text] without a reviver: [None] stands for the SyntaxError. *)
Definition JSON_parse (text : string) : option json :=
  match lex text with
  | None => None
  | Some ts => parse_from (SValue []) ts
  end.

(** ** Reading parsed values *)

(** [v.name] for a name that no prototype has and that is neither an
    index nor [length]: an own property of an object, [undefined] ([None])
    on anything else. *)
Definition get_prop (v : json) (name : string) : option json :=
  match v with
  | JObj fields => obj_get name fields
  | _ => None
  end.

(** ToBoolean. *)
Definition truthy (v : json) : bool :=
  match v with
  | JNull => false
  | JBool b => b
  | JNum d => existsb (fun x => negb (Nat.eqb x 0)) (d_digits d)
  | JStr s => match s with "" => false | _ => true end
  | JArr _ | JObj _ | JInf _ => true
  end.

(** The values on which [JSON.stringify] and [JSON.parse] are inverse:
    finite numbers (doubles, by their canonical name), objects whose keys
    are listed once each and in the engine's order. *)
Fixpoint json_wf (v : json) : bool :=
  match v with
  | JNum d => number_wf d
  | JArr vs => forallb json_wf vs
  | JObj fields =>
      bool_decide (NoDup (map fst fields))
      && ordered (map fst fields)
      && forallb (fun kv => json_wf (snd kv)) fields
  | JInf _ => false
  | _ => true
  end.

(** ** Notions used to state the round trip through text *)

(** The lexer run over a prefix of the text: the state reached and the
    tokens emitted on the way. *)
Fixpoint lex_run (st : lstate) (s : string) : option (lstate * list token) :=
  match s with
  | "" => Some (st, [])
  | String c s' =>
      match lex_step st c with
      | None => None
      | Some (st', ts) =>
          match lex_run st' s' with
          | None => None
          | Some (st'', ts') => Some (st'', ts ++ ts')
          end
      end
  end.

(** [runs st s st']: reading [s] from [st] leads to [st'] and emits nothing. *)
Definition runs (st : lstate) (s : string) (st' : lstate) : Prop :=
  lex_run st s = Some (st', []).

Definition sign (neg : bool) : string := if neg then "-" else "".

(** A list of decimal digits. *)
Definition small (ds : list nat) : Prop := Forall (fun d => (d < 10)%nat) ds.

(** The phases in which the integer part is complete. *)
Definition integral (ph : num_phase) : Prop := ph = PZero ∨ ph = PInt.

(** Without the trailing zeros. *)
Definition trim (ds : list nat) : list nat := rev (strip_zeros (rev ds)).

(** Canonical digits: at least one, the first and the last non-zero. *)
Record significant (ds : list nat) : Prop := Significant {
  sig_small : small ds;
  sig_first : ∃ d rest, ds = d :: rest ∧ d ≠ O;
  sig_last : List.last ds O ≠ O
}.

(** The one kind of token whose end only the next character shows. *)
Definition is_number (t : token) : bool :=
  match t with
  | TNumber _ => true
  | _ => false
  end.

(** The tokens that may follow a value inside a container. *)
Definition closes (t : token) : bool :=
  match t with
  | TComma | TRBracket | TRBrace => true
  | _ => false
  end.

(** What comes after a value: nothing, or one of those. *)
Definition follows (rest : list token) : bool :=
  match rest with
  | [] => true
  | t :: _ => closes t
  end.

(** Every number is canonical and is followed by a comma, a closing bracket
    or the end. *)
Fixpoint delimited (ts : list token) : bool :=
  match ts with
  | [] => true
  | TNumber d :: rest => canonical d && follows rest && delimited rest
  | _ :: rest => delimited rest
  end.

(** The tokens of one member of an object. *)
Definition member_tokens (kv : string * json) : list token :=
  TString kv.1 :: TColon :: tokens kv.2.

(** The two halves of the round trip, as they are proved by induction on
    the value: its token stream lexes back, and parses back in any context. *)
Definition delimits (v : json) : Prop :=
  json_wf v = true →
  ∀ rest, follows rest = true → delimited rest = true →
          delimited (tokens v ++ rest) = true.

Definition parses (v : json) : Prop :=
  json_wf v = true →
  ∀ k rest, parse_from (SValue k) (tokens v ++ rest) = parse_from (finish v k) rest.

End Json.

(** * The [predict-yield] edge function *)

Module Edge.
Import Json.

(** A JavaScript value that came out of [JSON.parse], or [undefined]. *)
Abbreviation jsval := (option json).

Definition q : string := String dquote "".

(** ToString, as a template literal applies it; [None]: it throws a
    TypeError.  An object is converted by its [toString] and then its
    [valueOf]: the ones it inherits give "[object Object]"; an own property
    named [toString], which in a parsed value is never a function, leaves
    only [valueOf], which gives no primitive, and the conversion throws.
    An array joins the texts of its elements, [null] counting as empty. *)
Fixpoint json_to_string (v : json) : option string :=
  match v with
  | JNull => Some "null"
  | JBool true => Some "true"
  | JBool false => Some "false"
  | JNum d => Some (print_decimal d)
  | JInf neg => Some (if neg then "-Infinity" else "Infinity")
  | JStr s => Some s
  | JArr vs =>
      (fix join (l : list json) : option string :=
         match l with
         | [] => Some ""
         | x :: l' =>
             h ← match x with JNull => Some "" | _ => json_to_string x end;
             t ← match l' with [] => Some "" | _ => String "," <$> join l' end;
             Some (h +:+ t)
         end) vs
  | JObj fields =>
      match obj_get "toString" fields with
      | Some _ => None
      | None => Some "[object Object]"
      end
  end.

Definition to_string (v : jsval) : option string :=
  match v with
  | None => Some "undefined"
  | Some v => json_to_string v
  end.

Definition systemPrompt : string :=
  "You are an expert agricultural AI specialized in crop yield prediction for tropical crops in Guadeloupe. 
Based on environmental factors, provide accurate yield predictions with confidence levels, detailed recommendations, and disease risk analysis.

Consider typical yields for Guadeloupe crops:
- Canne à Sucre (Sugar Cane): 60-100 t/ha
- Banane (Banana): 25-40 t/ha  
- Ananas (Pineapple): 40-60 t/ha
- Igname (Yam): 12-25 t/ha
- Madère (Taro): 15-30 t/ha
- Christophine (Chayote): 20-35 t/ha

Also analyze disease risks based on environmental conditions:
- High humidity + high rainfall → fungal diseases (Black Sigatoka for bananas, leaf blight, root rot)
- Excess moisture → bacterial diseases, crown rot
- High temperature + low moisture → stress-related diseases, pest infestations
- Poor drainage → Phytophthora, pythium
- Optimal conditions for pests → viral diseases spread by insects

Factor in how identified diseases would impact the predicted yield.

Analyze how the provided environmental factors (soil type, humidity, moisture, temperature, rainfall) affect both yield potential and disease susceptibility.".

(** The text of the user prompt around the seven texts it quotes. *)
Definition prompt_text (cropType soilType humidity moisture temperature rainfall area : string)
  : string :=
  "Predict the yield for " +:+
  cropType +:+
  " with these conditions:
- Soil Type: " +:+
  soilType +:+
  "
- Humidity: " +:+
  humidity +:+
  "%
- Soil Moisture: " +:+
  moisture +:+
  "%
- Temperature: " +:+
  temperature +:+
  "°C
- Rainfall: " +:+
  rainfall +:+
  "mm
- Cultivation Area: " +:+
  area +:+
  " hectares

Provide:
1. Predicted yield (in tonnes per hectare) - adjusted for disease impact if applicable
2. Total production (yield × area)
3. Confidence level (0-100%)
4. Quality grade (Excellente/Bonne/Moyenne/Faible)
5. Disease risks - identify potential diseases based on conditions with risk level (Low/Moderate/High/Critical)
6. Disease impact on yield - how identified diseases reduce potential yield
7. Key factors affecting the prediction
8. Specific recommendations to optimize yield and prevent/manage diseases

Format your response as JSON with this structure:
{
  " +:+
  q +:+
  "yieldPerHectare" +:+
  q +:+
  ": number,
  " +:+
  q +:+
  "totalProduction" +:+
  q +:+
  ": number,
  " +:+
  q +:+
  "confidenceLevel" +:+
  q +:+
  ": number,
  " +:+
  q +:+
  "qualityGrade" +:+
  q +:+
  ": string,
  " +:+
  q +:+
  "diseaseRisks" +:+
  q +:+
  ": [{" +:+
  q +:+
  "name" +:+
  q +:+
  ": string, " +:+
  q +:+
  "riskLevel" +:+
  q +:+
  ": string, " +:+
  q +:+
  "conditions" +:+
  q +:+
  ": string, " +:+
  q +:+
  "yieldImpact" +:+
  q +:+
  ": string}],
  " +:+
  q +:+
  "keyFactors" +:+
  q +:+
  ": [string],
  " +:+
  q +:+
  "recommendations" +:+
  q +:+
  ": [string],
  " +:+
  q +:+
  "analysis" +:+
  q +:+
  ": string
}".

(** The template literal: the seven conversions in the order of the text;
    [None] when one of them throws. *)
Definition userPrompt (cropType soilType humidity moisture temperature rainfall area : jsval)
  : option string :=
  cropType ← to_string cropType;
  soilType ← to_string soilType;
  humidity ← to_string humidity;
  moisture ← to_string moisture;
  temperature ← to_string temperature;
  rainfall ← to_string rainfall;
  area ← to_string area;
  Some (prompt_text cropType soilType humidity moisture temperature rainfall area).

(** ** The world the function runs in *)

(** What the engine throws by itself; the texts of its messages are the
    engine's. *)
Inductive runtime_error :=
| BodySyntaxError      (* [req.json()] on a body that is not JSON *)
| DestructureTypeError (* destructuring [null] *)
| PromptTypeError      (* a field in the template literal has no text *)
| FetchTypeError       (* [fetch] rejects: no response received *)
| ReplySyntaxError     (* [response.json()] on a reply that is not JSON *)
| ReplyTypeError.      (* a property read on [undefined] or [null] *)

(** What [fetch] gives: a rejection, or a reply, which comes whole (reading
    its body does not fail). *)
Inductive fetch_result :=
| FetchFailed
| FetchReply (status : N) (text : string).

Record outbound := Outbound {
  o_url : string;
  o_method : string;
  o_authorization : string;
  o_content_type : string;
  o_model : string;
  o_messages : list (string * string);    (* role, content *)
  o_temperature : decimal
}.

Record env := Env {
  LOVABLE_API_KEY : option string;        (* [Deno.env.get] *)
  gateway : outbound -> fetch_result;
  runtime_message : runtime_error -> string
}.

Record request := Request {
  req_method : string;
  req_body : string                       (* the text [req.json()] parses *)
}.

Record response := Response {
  r_status : N;
  r_body : option string;                 (* the text; [None]: the null body *)
  r_headers : list (string * string)
}.

Inductive exn := Error (message : string).

Definition exn_message (e : exn) : string := let 'Error m := e in m.

Inductive console_arg :=
| AVal (v : jsval)
| ANum (n : N)
| AExn (e : exn).

Inductive event :=
| Fetch (o : outbound)
| ConsoleLog (label : string) (args : list console_arg)
| ConsoleError (label : string) (args : list console_arg).

(** ** Computations that log, call out and throw *)

Definition M (A : Type) : Type := list event -> list event * (exn + A).

Definition ret {A} (x : A) : M A := fun tr => (tr, inr x).

Definition bind {A B} (m : M A) (f : A -> M B) : M B :=
  fun tr =>
    match m tr with
    | (tr', inl e) => (tr', inl e)
    | (tr', inr x) => f x tr'
    end.

Definition throw {A} (e : exn) : M A := fun tr => (tr, inl e).

Definition emit (ev : event) : M unit := fun tr => (tr ++ [ev], inr tt).

Definition try_catch {A} (m : M A) (handler : exn -> M A) : M A :=
  fun tr =>
    match m tr with
    | (tr', inl e) => handler e tr'
    | r => r
    end.

Global Instance M_ret : MRet M := @ret.
Global Instance M_bind : MBind M := fun A B f m => bind m f.

(** ** Pieces of [serve] *)

Definition corsHeaders : list (string * string) :=
  [("Access-Control-Allow-Origin", "*");
   ("Access-Control-Allow-Headers", "authorization, x-client-info, apikey, content-type")].

Definition json_headers : list (string * string) :=
  corsHeaders ++ [("Content-Type", "application/json")].

Definition error_body (message : string) : option string :=
  Some (JSON_stringify (JObj [("error", JStr message)])).

(** [v.name] where [v] may be [undefined] or [null]: those throw. *)
Definition member (w : env) (v : jsval) (name : string) : M jsval :=
  match v with
  | None | Some JNull => throw (Error (runtime_message w ReplyTypeError))
  | Some v' => ret (get_prop v' name)
  end.

(** [v[0]]. *)
Definition first (w : env) (v : jsval) : M jsval :=
  match v with
  | None | Some JNull => throw (Error (runtime_message w ReplyTypeError))
  | Some (JArr vs) => ret (head vs)
  | Some (JStr (String c _)) => ret (Some (JStr (String c "")))
  | Some (JObj fields) => ret (obj_get "0" fields)
  | Some _ => ret None
  end.

(** [\}] after a greedy [[\s\S]*]: the longest prefix that ends in a
    closing brace. *)
Fixpoint greedy_to_rbrace (s : string) : option string :=
  match s with
  | "" => None
  | String c s' =>
      match greedy_to_rbrace s' with
      | Some m => Some (String c m)
      | None => if (c =? "}")%char then Some (String c "") else None
      end
  end.

(** [content.match(/\{[\s\S]*\}/)]: the leftmost position where the pattern
    matches, and there the longest match; [None] is [null]. *)
Fixpoint jsonMatch (content : string) : option string :=
  match content with
  | "" => None
  | String c s' =>
      if (c =? "{")%char then
        match greedy_to_rbrace s' with
        | Some m => Some (String c m)
        | None => jsonMatch s'
        end
      else jsonMatch s'
  end.

(** The body of the inner [try]: [None] when anything in it throws (a
    SyntaxError of [JSON.parse], or the TypeError of [content.match] when
    [content] is not a string). *)
Definition extract (content : jsval) : option json :=
  match content with
  | Some (JStr text) =>
      match jsonMatch text with
      | Some m => JSON_parse m
      | None => JSON_parse text
      end
  | _ => None
  end.

Definition normalize (content : jsval) : M json :=
  match extract content with
  | Some prediction => ret prediction
  | None =>
      emit (ConsoleError "Failed to parse AI response:" [AVal content]) ;;
      throw (Error "Failed to parse prediction data")
  end.

Definition response_ok (status : N) : bool := (200 <=? status)%N && (status <=? 299)%N.

Definition is_absent (key : option string) : bool :=
  match key with
  | None | Some "" => true
  | Some _ => false
  end.

Definition gateway_url : string := "https://ai.gateway.lovable.dev/v1/chat/completions".

Definition fetch (w : env) (o : outbound) : M (N * string) :=
  emit (Fetch o) ;;
  match gateway w o with
  | FetchFailed => throw (Error (runtime_message w FetchTypeError))
  | FetchReply status text => ret (status, text)
  end.

(** The user prompt for a request body. *)
Definition body_prompt (body : json) : option string :=
  userPrompt (get_prop body "cropType") (get_prop body "soilType")
    (get_prop body "humidity") (get_prop body "moisture")
    (get_prop body "temperature") (get_prop body "rainfall")
    (get_prop body "area").

(** The one request sent to the gateway. *)
Definition gateway_request (key : string) (user : string) : outbound :=
  Outbound gateway_url "POST" ("Bearer " +:+ key) "application/json"
    "google/gemini-2.5-flash"
    [("system", systemPrompt); ("user", user)]
    (Decimal false [7%nat] (-1)).

(** ** [serve] *)

(** From the reply of the gateway to the response. *)
Definition on_gateway_reply (w : env) (status : N) (text : string) : M response :=
  if negb (response_ok status) then
    if (status =? 429)%N then
      ret (Response 429
             (error_body "Rate limits exceeded. Please try again later.")
             json_headers)
    else if (status =? 402)%N then
      ret (Response 402
             (error_body "Payment required. Please add credits to your workspace.")
             json_headers)
    else
      emit (ConsoleError "AI gateway error:" [ANum status; AVal (Some (JStr text))]) ;;
      throw (Error ("AI gateway error: " +:+ pretty status))
  else
    match JSON_parse text with
    | None => throw (Error (runtime_message w ReplySyntaxError))
    | Some data =>
        choices ← member w (Some data) "choices" ;
        choice ← first w choices ;
        message ← member w choice "message" ;
        content ← member w message "content" ;
        emit (ConsoleLog "AI response:" [AVal content]) ;;
        prediction ← normalize content ;
        ret (Response 200 (Some (JSON_stringify prediction)) json_headers)
    end.

Definition request_log (body : json) : event :=
  ConsoleLog "Prediction request:"
    [AVal (get_prop body "cropType"); AVal (get_prop body "soilType");
     AVal (get_prop body "humidity"); AVal (get_prop body "moisture");
     AVal (get_prop body "temperature"); AVal (get_prop body "rainfall");
     AVal (get_prop body "area")].

Definition is_null (v : json) : bool :=
  match v with
  | JNull => true
  | _ => false
  end.

(** The body of the outer [try]. *)
Definition handler (w : env) (req : request) : M response :=
  match JSON_parse (req_body req) with
  | None => throw (Error (runtime_message w BodySyntaxError))
  | Some body =>
      if is_null body then throw (Error (runtime_message w DestructureTypeError))
      else
        emit (request_log body) ;;
        match LOVABLE_API_KEY w with
        | None | Some "" => throw (Error "LOVABLE_API_KEY is not configured")
        | Some key =>
            match body_prompt body with
            | None => throw (Error (runtime_message w PromptTypeError))
            | Some user =>
                reply ← fetch w (gateway_request key user) ;
                on_gateway_reply w reply.1 reply.2
            end
        end
  end.

Definition serve (w : env) (req : request) : M response :=
  if String.eqb (req_method req) "OPTIONS" then
    ret (Response 200 None corsHeaders)
  else
    try_catch (handler w req)
      (fun error =>
         emit (ConsoleError "Error in predict-yield function:" [AExn error]) ;;
         ret (Response 500 (error_body (exn_message error)) json_headers)).

(** One invocation, from an empty log. *)
Definition run (w : env) (req : request) : list event * (exn + response) :=
  serve w req [].

Definition fetches (tr : list event) : list outbound :=
  omap (fun ev => match ev with Fetch o => Some o | _ => None end) tr.

(** ** The result the prompt asks for *)

Record DiseaseRisk := {
  name : string;
  riskLevel : string;
  conditions : string;
  yieldImpact : string
}.

Record PredictionResult := {
  yieldPerHectare : decimal;
  totalProduction : decimal;
  confidenceLevel : decimal;
  qualityGrade : string;
  diseaseRisks : list DiseaseRisk;
  keyFactors : list string;
  recommendations : list string;
  analysis : string
}.

Definition risk_to_json (d : DiseaseRisk) : json :=
  JObj [("name", JStr (name d)); ("riskLevel", JStr (riskLevel d));
        ("conditions", JStr (conditions d)); ("yieldImpact", JStr (yieldImpact d))].

Definition to_json (r : PredictionResult) : json :=
  JObj [("yieldPerHectare", JNum (yieldPerHectare r));
        ("totalProduction", JNum (totalProduction r));
        ("confidenceLevel", JNum (confidenceLevel r));
        ("qualityGrade", JStr (qualityGrade r));
        ("diseaseRisks", JArr (map risk_to_json (diseaseRisks r)));
        ("keyFactors", JArr (map JStr (keyFactors r)));
        ("recommendations", JArr (map JStr (recommendations r)));
        ("analysis", JStr (analysis r))].

(** Well-formed: the three numbers are finite numbers in canonical form. *)
Definition result_wf (r : PredictionResult) : bool :=
  number_wf (yieldPerHectare r) && number_wf (totalProduction r)
  && number_wf (confidenceLevel r).

Definition required_fields : list string :=
  ["yieldPerHectare"; "totalProduction"; "confidenceLevel"; "qualityGrade";
   "keyFactors"; "recommendations"; "analysis"].

Definition nl : string := String "010" "".

(** A reply that wraps [payload] in a fenced block between two texts. *)
Definition fenced (preamble payload trailing : string) : string :=
  preamble +:+ "```json" +:+ nl +:+ payload +:+ nl +:+ "```" +:+ trailing.

Fixpoint absent (c : ascii) (s : string) : bool :=
  match s with
  | "" => true
  | String c' s' => negb (c' =? c)%char && absent c s'
  end.

(** ** Sample data for the statements *)

Definition scenario_body : json :=
  JObj [("cropType", JStr "Banane"); ("soilType", JStr "Argileux");
        ("humidity", JNum (Decimal false [9]%nat 1));
        ("moisture", JNum (Decimal false [8; 5]%nat 0));
        ("temperature", JNum (Decimal false [3]%nat 1));
        ("rainfall", JNum (Decimal false [2; 5]%nat 1));
        ("area", JNum (Decimal false [4]%nat 0))].

Definition scenario_request : request :=
  Request "POST" (JSON_stringify scenario_body).

(** The text of an object with the one property [error], for a message
    in which nothing needs an escape. *)
Definition error_text (message : string) : string :=
  "{" +:+ q +:+ "error" +:+ q +:+ ":" +:+ q +:+ message +:+ q +:+ "}".

Definition scenario_prompt : string :=
  prompt_text "Banane" "Argileux" "90" "85" "30" "250" "4".

Definition scenario_result : PredictionResult :=
  {| yieldPerHectare := Decimal false [2; 8; 5]%nat (-1);
     totalProduction := Decimal false [1; 1; 4]%nat 0;
     confidenceLevel := Decimal false [7; 2]%nat 0;
     qualityGrade := "Bonne";
     diseaseRisks :=
       [{| name := "Black Sigatoka"; riskLevel := "High";
           conditions := "high humidity and rainfall"; yieldImpact := "-15%" |}];
     keyFactors := ["high humidity"];
     recommendations := ["improve drainage"];
     analysis := "..." |}.

(** The reply of the gateway around a model text. *)
Definition envelope (content : string) : json :=
  JObj [("choices", JArr [JObj [("message", JObj [("content", JStr content)])]])].

Definition engine_messages (e : runtime_error) : string :=
  match e with
  | BodySyntaxError | ReplySyntaxError => "Unexpected token"
  | DestructureTypeError | ReplyTypeError => "Cannot read properties of undefined"
  | PromptTypeError => "Cannot convert object to primitive value"
  | FetchTypeError => "error sending request"
  end.

Definition failed (tr : list event) (message : string)
  : list event * (exn + response) :=
  (tr ++ [ConsoleError "Error in predict-yield function:" [AExn (Error message)]],
   inr (Response 500 (error_body message) json_headers)).

Definition no_credential : env := Env None (fun _ => FetchReply 200 "") engine_messages.

Definition answering (status : N) : env :=
  Env (Some "secret") (fun _ => FetchReply status "upstream says no") engine_messages.

Definition replying (text : string) : env :=
  Env (Some "secret") (fun _ => FetchReply 200 text) engine_messages.

(** A model text that has one of the required fields only. *)
Definition partial_answer : json :=
  JObj [("yieldPerHectare", JNum (Decimal false [2; 8; 5]%nat (-1)))].

Definition partial_text : string :=
  "My estimate: " +:+ JSON_stringify partial_answer.

Definition other_credential : env :=
  Env (Some "other") (fun _ => FetchFailed) engine_messages.

(** The fields the prompt quotes, and the values whose text is never in
    doubt: [undefined], [null], booleans, numbers and texts. *)
Definition prompt_fields : list string :=
  ["cropType"; "soilType"; "humidity"; "moisture"; "temperature"; "rainfall"; "area"].

Definition scalar (v : jsval) : bool :=
  match v with
  | Some (JArr _) | Some (JObj _) => false
  | _ => true
  end.

(** The ways an invocation can go: the preflight, a failure before any
    call to the gateway, a call that could not be made, and a call that
    was answered. *)
Inductive path (w : env) (req : request) : Prop :=
| Preflight :
    req_method req = "OPTIONS" →
    run w req = ([], inr (Response 200 None corsHeaders)) →
    path w req
| StoppedEarly tr message :
    req_method req ≠ "OPTIONS" →
    fetches tr = [] →
    run w req = failed tr message →
    path w req
| Unreachable key body user :
    req_method req ≠ "OPTIONS" →
    LOVABLE_API_KEY w = Some key → key ≠ "" →
    JSON_parse (req_body req) = Some body → body ≠ JNull →
    body_prompt body = Some user →
    gateway w (gateway_request key user) = FetchFailed →
    run w req = failed [request_log body; Fetch (gateway_request key user)]
                  (runtime_message w FetchTypeError) →
    path w req
| Replied key body user status text :
    req_method req ≠ "OPTIONS" →
    LOVABLE_API_KEY w = Some key → key ≠ "" →
    JSON_parse (req_body req) = Some body → body ≠ JNull →
    body_prompt body = Some user →
    gateway w (gateway_request key user) = FetchReply status text →
    run w req =
      match on_gateway_reply w status text
              [request_log body; Fetch (gateway_request key user)] with
      | (tr, inl e) => failed tr (exn_message e)
      | r => r
      end →
    path w req.

End Edge.

(** * The [YieldPrediction] component: [handlePredict] *)

Module Client.
Import Json.

(** ** [parseFloat] *)

Inductive number :=
| NaN
| Infinity (neg : bool)
| Finite (d : decimal).

(** StrWhiteSpaceChar: white space and line terminators, as UTF-8. *)
Definition white_space : list string :=
  map utf8
    [9; 10; 11; 12; 13; 32; 160; 5760; 8192; 8193; 8194; 8195; 8196; 8197;
     8198; 8199; 8200; 8201; 8202; 8232; 8233; 8239; 8287; 12288; 65279]%N.

Fixpoint strip_prefix (p s : string) : option string :=
  match p, s with
  | "", _ => Some s
  | String a p', String b s' => if (a =? b)%char then strip_prefix p' s' else None
  | _, _ => None
  end.

Fixpoint first_strip (ps : list string) (s : string) : option string :=
  match ps with
  | [] => None
  | p :: ps' =>
      match strip_prefix p s with
      | Some r => Some r
      | None => first_strip ps' s
      end
  end.

Fixpoint skip_ws (fuel : nat) (s : string) : string :=
  match fuel with
  | O => s
  | S fuel' =>
      match first_strip white_space s with
      | Some r => skip_ws fuel' r
      | None => s
      end
  end.

Fixpoint span_digits (s : string) : list nat * string :=
  match s with
  | "" => ([], "")
  | String c s' =>
      match digit_of_ascii c with
      | Some d => let '(ds, r) := span_digits s' in (d :: ds, r)
      | None => ([], s)
      end
  end.

(** The exponent part counts only when it has a digit. *)
Definition exponent_part (s : string) : bool * list nat :=
  match s with
  | String c r =>
      if is_exp_char c then
        let '(eneg, r') :=
          match r with
          | String "-" r' => (true, r')
          | String "+" r' => (false, r')
          | _ => (false, r)
          end in
        (eneg, fst (span_digits r'))
      else (false, [])
  | "" => (false, [])
  end.

(** The longest prefix of the trimmed text that is a StrDecimalLiteral,
    read into a double. *)
Definition parseFloat (s : string) : number :=
  let s1 := skip_ws (String.length s) s in
  let '(neg, s2) :=
    match s1 with
    | String "-" r => (true, r)
    | String "+" r => (false, r)
    | _ => (false, s1)
    end in
  match strip_prefix "Infinity" s2 with
  | Some _ => Infinity neg
  | None =>
      let '(i, s3) := span_digits s2 in
      let '(f, s4) :=
        match s3 with
        | String "." r => span_digits r
        | _ => ([], s3)
        end in
      match i, f with
      | [], [] => NaN
      | _, _ =>
          let '(eneg, ed) := exponent_part s4 in
          match to_double (make_decimal (NumAcc neg i f eneg ed)) with
          | Some d => Finite d
          | None => Infinity neg
          end
      end
  end.

(** ** Component state *)

Record formData := FormData {
  cropType : string;
  soilType : string;
  humidity : string;
  moisture : string;
  temperature : string;
  rainfall : string;
  area : string
}.

(** [formData[field]]. *)
Definition field (f : formData) (name : string) : string :=
  if String.eqb name "cropType" then cropType f
  else if String.eqb name "soilType" then soilType f
  else if String.eqb name "humidity" then humidity f
  else if String.eqb name "moisture" then moisture f
  else if String.eqb name "temperature" then temperature f
  else if String.eqb name "rainfall" then rainfall f
  else if String.eqb name "area" then area f
  else "".

(** The body handed to [supabase.functions.invoke]. *)
Record invoke_body := Body {
  b_cropType : string;
  b_soilType : string;
  b_humidity : number;
  b_moisture : number;
  b_temperature : number;
  b_rainfall : number;
  b_area : number
}.

Inductive toast :=
| ToastError (message : json)
| ToastSuccess (message : string).

Record state := State {
  loading : bool;
  prediction : option json;               (* [None]: null *)
  toasts : list toast;
  invocations : list invoke_body
}.

Definition initial : state := State false None [] [].

Definition add_toast (t : toast) (st : state) : state :=
  State (loading st) (prediction st) (toasts st ++ [t]) (invocations st).

Definition setLoading (b : bool) (st : state) : state :=
  State b (prediction st) (toasts st) (invocations st).

Definition setPrediction (p : option json) (st : state) : state :=
  State (loading st) p (toasts st) (invocations st).

Definition invoke (b : invoke_body) (st : state) : state :=
  State (loading st) (prediction st) (toasts st) (invocations st ++ [b]).

(** ** Validation *)

Definition is_empty (s : string) : bool :=
  match s with
  | "" => true
  | _ => false
  end.

Definition requiredFields : list string :=
  ["humidity"; "moisture"; "temperature"; "rainfall"; "area"].

Definition missingFields (f : formData) : list string :=
  filter (fun name => is_empty (field f name) = true) requiredFields.

(** The message of the toast that blocks the request, if any. *)
Definition validate (f : formData) : option string :=
  if is_empty (cropType f) || is_empty (soilType f) then
    Some "Please select crop type and soil type"
  else if Nat.ltb 0 (length (missingFields f)) then
    Some "Please fill in all environmental factors"
  else None.

Definition request_body (f : formData) : invoke_body :=
  Body (cropType f) (soilType f)
    (parseFloat (humidity f)) (parseFloat (moisture f))
    (parseFloat (temperature f)) (parseFloat (rainfall f))
    (parseFloat (area f)).

(** ** [handlePredict], in its two halves *)

(** Up to the [await]. *)
Definition dispatch (f : formData) (st : state) : state :=
  match validate f with
  | Some message => add_toast (ToastError (JStr message)) st
  | None => invoke (request_body f) (setPrediction None (setLoading true st))
  end.

(** How the awaited call ends: the promise rejects, or it resolves to
    [{ data, error }], [error] being [null] or an object with a [message]. *)
Inductive outcome :=
| Rejected
| Settled (data : option json) (error : option string).

(** [haystack.includes(needle)]. *)
Fixpoint includes (needle haystack : string) : bool :=
  match strip_prefix needle haystack with
  | Some _ => true
  | None =>
      match haystack with
      | "" => false
      | String _ rest => includes needle rest
      end
  end.

Definition unexpected : toast := ToastError (JStr "An unexpected error occurred").

(** From the [await] on, with the [finally]. *)
Definition settle (o : outcome) (st : state) : state :=
  setLoading false
    match o with
    | Rejected => add_toast unexpected st
    | Settled _ (Some message) =>
        if includes "429" message then
          add_toast (ToastError (JStr "Rate limit exceeded. Please try again in a moment.")) st
        else if includes "402" message then
          add_toast (ToastError (JStr "Service credits depleted. Please contact support.")) st
        else
          add_toast (ToastError (JStr "Failed to generate prediction. Please try again.")) st
    | Settled None None | Settled (Some JNull) None => add_toast unexpected st
    | Settled (Some data) None =>
        match get_prop data "error" with
        | Some e =>
            if truthy e then add_toast (ToastError e) st
            else add_toast (ToastSuccess "Yield prediction generated successfully!")
                   (setPrediction (Some data) st)
        | None =>
            add_toast (ToastSuccess "Yield prediction generated successfully!")
              (setPrediction (Some data) st)
        end
    end.

(** ** Interleavings

    The component runs on one thread: between two [await]s nothing else
    happens, so a history is a sequence of clicks and of replies.  A call is
    named by its position among the invocations; the name exists in this
    model only, to say which call a reply answers: [settle] never sees it. *)
Inductive action :=
| Predict (f : formData)
| Reply (call : nat) (o : outcome).

Record machine := Machine {
  view : state;
  in_flight : list nat
}.

Definition boot : machine := Machine initial [].

Definition step (m : machine) (a : action) : option machine :=
  match a with
  | Predict f =>
      Some (Machine (dispatch f (view m))
              match validate f with
              | None => in_flight m ++ [length (invocations (view m))]
              | Some _ => in_flight m
              end)
  | Reply call o =>
      if bool_decide (call ∈ in_flight m) then
        Some (Machine (settle o (view m))
                (filter (fun c => c ≠ call) (in_flight m)))
      else None
  end.

(** [None]: the history answers a call that is not in flight. *)
Fixpoint run (history : list action) (m : machine) : option machine :=
  match history with
  | [] => Some m
  | a :: history' =>
      match step m a with
      | Some m' => run history' m'
      | None => None
      end
  end.

(** ** Notions and sample data for the statements *)

(** What the specification asks of a numeric field. *)
Definition finite_number (s : string) : Prop :=
  s ≠ "" ∧ ∃ d, parseFloat s = Finite d.

Definition banana : formData :=
  FormData "Banane" "Argileux" "90" "85" "30" "250" "4".

Definition letters : formData :=
  FormData "Banane" "Argileux" "abc" "85" "30" "250" "4".

Definition null_error_body : json :=
  JObj [("error", JNull);
        ("yieldPerHectare", JNum (Decimal false [2; 8; 5]%nat (-1)))].

Definition reply_A : json := JObj [("yieldPerHectare", JNum (Decimal false [3]%nat 1))].
Definition reply_B : json := JObj [("yieldPerHectare", JNum (Decimal false [2; 8; 5]%nat (-1)))].

End Client.

(** * The [YieldPrediction] component: the form, the button and the panel *)

Module View.
Import Json Client.

(** ** [handleInputChange]

    [{ ...prev, [field]: value }].  The handler is called with the seven
    names of the form only; another name would add a property that nothing
    reads, for which the record has no place. *)
Definition form_fields : list string := "cropType" :: "soilType" :: requiredFields.

Definition handleInputChange (name value : string) (prev : formData) : formData :=
  if String.eqb name "cropType" then
    FormData value (soilType prev) (humidity prev) (moisture prev)
      (temperature prev) (rainfall prev) (area prev)
  else if String.eqb name "soilType" then
    FormData (cropType prev) value (humidity prev) (moisture prev)
      (temperature prev) (rainfall prev) (area prev)
  else if String.eqb name "humidity" then
    FormData (cropType prev) (soilType prev) value (moisture prev)
      (temperature prev) (rainfall prev) (area prev)
  else if String.eqb name "moisture" then
    FormData (cropType prev) (soilType prev) (humidity prev) value
      (temperature prev) (rainfall prev) (area prev)
  else if String.eqb name "temperature" then
    FormData (cropType prev) (soilType prev) (humidity prev) (moisture prev)
      value (rainfall prev) (area prev)
  else if String.eqb name "rainfall" then
    FormData (cropType prev) (soilType prev) (humidity prev) (moisture prev)
      (temperature prev) value (area prev)
  else if String.eqb name "area" then
    FormData (cropType prev) (soilType prev) (humidity prev) (moisture prev)
      (temperature prev) (rainfall prev) value
  else prev.

(** ** The screen: the form and the button

    The inputs call [handleInputChange]; the button calls [handlePredict]
    with the form as it is, and is disabled while [loading]. *)
Record screen := Screen {
  form : formData;
  core : machine
}.

Definition start : screen := Screen (FormData "" "" "" "" "" "" "") boot.

Inductive event :=
| Input (name value : string)
| Click
| Answer (call : nat) (o : outcome).

Definition on_event (s : screen) (e : event) : option screen :=
  match e with
  | Input name value => Some (Screen (handleInputChange name value (form s)) (core s))
  | Click =>
      if loading (view (core s)) then Some s
      else Screen (form s) <$> step (core s) (Predict (form s))
  | Answer call o => Screen (form s) <$> step (core s) (Reply call o)
  end.

(** [None]: the history answers a call that is not in flight. *)
Fixpoint play (history : list event) (s : screen) : option screen :=
  match history with
  | [] => Some s
  | e :: history' =>
      match on_event s e with
      | Some s' => play history' s'
      | None => None
      end
  end.

(** ** The results panel *)

(** [toLowerCase], on the letters A to Z.  Texts are UTF-8 here and the
    other bytes are left as they are; the result is only compared with
    labels made of the letters a to z without k, which no text with another
    character lowers to, so the comparisons come out as in an engine. *)
Definition lower (c : ascii) : ascii :=
  let n := nat_of_ascii c in
  if Nat.leb 65 n && Nat.leb n 90 then ascii_of_nat (n + 32) else c.

Fixpoint toLowerCase (s : string) : string :=
  match s with
  | "" => ""
  | String c s' => String (lower c) (toLowerCase s')
  end.

Definition getQualityColor (grade : string) : string :=
  let g := toLowerCase grade in
  if String.eqb g "excellente" then "text-green-600"
  else if String.eqb g "bonne" then "text-blue-600"
  else if String.eqb g "moyenne" then "text-yellow-600"
  else if String.eqb g "faible" then "text-red-600"
  else "text-gray-600".

(** [x.toFixed(1)] for a finite double: from 10^21 on, the text of the
    number itself; below, the tenths nearest to its exact value, the larger
    when two are as near, with a minus sign for every negative number.
    [binary] gives the magnitude [m × 2^k]. *)
Definition toFixed1 (d : decimal) : string :=
  match binary d with
  | None => print_decimal d
  | Some (m, k) =>
      if (if (0 <=? k)%Z then (10 ^ 21 <=? m * 2 ^ k)%Z else false) then print_decimal d
      else
        let n := (if (0 <=? k)%Z then 10 * m * 2 ^ k
                  else (20 * m + 2 ^ (- k)) / 2 ^ (1 - k))%Z in
        (if d_neg d && negb (m =? 0)%Z then "-" else "")
        +:+ digits_str (to_digits (Z.to_N (n / 10)))
        +:+ "." +:+ digits_str (to_digits (Z.to_N (n mod 10)))
  end.

(** [v.toFixed(1)]: [toFixed] is a function on a number and undefined on
    every other value ([None]: the call throws). *)
Definition toFixed (v : option json) : option string :=
  match v with
  | Some (JNum d) => Some (toFixed1 d)
  | Some (JInf neg) => Some (if neg then "-Infinity" else "Infinity")
  | _ => None
  end.

(** What the component hands over for the panel: the texts of the two
    quantities, the grade and its class, the confidence level and the
    analysis as they are ([None]: undefined), the two lists.  The model
    ends where the component function returns; what the framework then does
    with these values is not part of it. *)
Record panel := Panel {
  shown_yield : string;
  shown_total : string;
  grade_class : string;
  shown_grade : string;
  shown_confidence : option json;
  shown_analysis : option json;
  shown_factors : list json;
  shown_recommendations : list json
}.

Inductive rendering :=
| Blank                       (* [prediction && ...] stops at [prediction] *)
| Thrown                      (* a TypeError while the component builds the panel *)
| Drawn (p : panel).

(** [v.toLowerCase] and [v.map] are functions on a text and an array
    respectively, and undefined on every other value. *)
Definition as_text (v : option json) : option string :=
  match v with Some (JStr s) => Some s | _ => None end.

Definition as_array (v : option json) : option (list json) :=
  match v with Some (JArr vs) => Some vs | _ => None end.

Definition render (prediction : option json) : rendering :=
  match prediction with
  | None => Blank
  | Some p =>
      if truthy p then
        default Thrown
          (y ← toFixed (get_prop p "yieldPerHectare");
           t ← toFixed (get_prop p "totalProduction");
           g ← as_text (get_prop p "qualityGrade");
           ks ← as_array (get_prop p "keyFactors");
           rs ← as_array (get_prop p "recommendations");
           Some (Drawn (Panel y t (getQualityColor g) g
                          (get_prop p "confidenceLevel") (get_prop p "analysis")
                          ks rs)))
      else Blank
  end.

(** ** Notions for the statements *)

Definition is_click (a : action) : bool :=
  match a with
  | Predict _ => true
  | Reply _ _ => false
  end.

(** The clicks that pass validation. *)
Definition accepted (a : action) : bool :=
  match a with
  | Predict f => match validate f with None => true | Some _ => false end
  | Reply _ _ => false
  end.

(** The fields the panel dereferences. *)
Definition panel_fields : list string :=
  ["yieldPerHectare"; "totalProduction"; "qualityGrade"; "keyFactors"; "recommendations"].

Definition success : toast := ToastSuccess "Yield prediction generated successfully!".

(** A reply with the five fields the panel needs and nothing else. *)
Definition five_fields : json :=
  JObj [("yieldPerHectare", JNum (Decimal false [2; 8; 5; 7]%nat (-2)));
        ("totalProduction", JNum (Decimal false [1; 1; 4; 2; 8]%nat (-2)));
        ("qualityGrade", JStr "Bonne");
        ("keyFactors", JArr [JStr "high humidity"]);
        ("recommendations", JArr [])].

End View.

(** * The settings provider

    A settings object is the finite map of its own properties.  Like every
    object literal it inherits from [Object.prototype], whose names
    [updateNestedSetting] can see. *)

Module Settings.
Import Json.

Definition defaultSettings : gmap string json :=
  list_to_map
    [("darkMode", JBool false);
     ("locale", JStr "en-US");
     ("compactMode", JBool false);
     ("currency", JStr "USD");
     ("dateFormat", JStr "MM/DD/YYYY");
     ("emailNotifications", JBool true);
     ("pushNotifications", JBool false);
     ("weatherAlerts", JBool true);
     ("autoSave", JBool true);
     ("offlineMode", JBool false)].

(** The UTF-16 code units of a text, each as a text: a character of one
    to three bytes is one unit; a character of four bytes is two, its
    surrogates, which [utf8] writes in three bytes each. *)
Fixpoint units (s : string) : list string :=
  match s with
  | "" => []
  | String a rest =>
      let n := N_of_ascii a in
      if (n <? 192)%N then String a "" :: units rest
      else if (n <? 224)%N then
        match rest with
        | String b rest' => String a (String b "") :: units rest'
        | "" => [String a ""]
        end
      else if (n <? 240)%N then
        match rest with
        | String b (String c rest') => String a (String b (String c "")) :: units rest'
        | _ => [String a rest]
        end
      else
        match rest with
        | String b (String c (String d rest')) =>
            let cp := ((n - 240) * 262144 + (N_of_ascii b - 128) * 4096
                       + (N_of_ascii c - 128) * 64 + (N_of_ascii d - 128))%N in
            utf8 (55296 + (cp - 65536) / 1024)%N
            :: utf8 (56320 + (cp - 65536) mod 1024)%N :: units rest'
        | _ => [String a rest]
        end
  end.

(** The own enumerable properties a spread copies: those of an object, the
    elements of an array, the code units of a text, and none of anything
    else. *)
Definition own_props (v : json) : list (string * json) :=
  match v with
  | JObj fields => fields
  | JArr vs => imap (fun i x => (pretty i, x)) vs
  | JStr s => imap (fun i u => (pretty i, JStr u)) (units s)
  | _ => []
  end.

(** The names every object inherits from [Object.prototype].  All are
    functions, but [__proto__], an accessor whose value is the prototype. *)
Definition inherited : list string :=
  ["constructor"; "hasOwnProperty"; "isPrototypeOf"; "propertyIsEnumerable";
   "toLocaleString"; "toString"; "valueOf"; "__defineGetter__"; "__defineSetter__";
   "__lookupGetter__"; "__lookupSetter__"].

(** [{ ...base, ...v }] on a settings object. *)
Definition spread_over (base : gmap string json) (v : json) : gmap string json :=
  foldl (fun m kv => <[kv.1 := kv.2]> m) base (own_props v).

(** The initializer of [useState]: what [localStorage.getItem] returned. *)
Definition initialSettings (savedSettings : option string) : gmap string json :=
  match savedSettings with
  | None | Some "" => defaultSettings
  | Some text =>
      match JSON_parse text with
      | Some saved => spread_over defaultSettings saved
      | None => defaultSettings
      end
  end.

(** The two updaters, as functions of the previous state.  Each returns a
    fresh object; a state is identified with its properties. *)
Definition updateSetting (key : string) (value : json) (prevSettings : gmap string json)
  : gmap string json :=
  <[key := value]> prevSettings.

(** [updatedSettings[section]] finds an own property or else an inherited
    one.  An inherited function is truthy and has nothing a spread copies,
    so the section is created with the one key.  For [__proto__] the value
    read is the prototype, truthy as well, but the assignment then goes to
    the accessor: it replaces the prototype of the new object and changes
    none of its own properties, which are all this map holds. *)
Definition updateNestedSetting (section key : string) (value : json)
  (prevSettings : gmap string json) : gmap string json :=
  let updatedSettings := prevSettings in
  match updatedSettings !! section with
  | Some sectionData =>
      if truthy sectionData then
        <[section := JObj (obj_set key value (own_props sectionData))]> updatedSettings
      else updatedSettings
  | None =>
      if bool_decide (section ∈ inherited) then
        <[section := JObj [(key, value)]]> updatedSettings
      else updatedSettings
  end.

(** ** Notions and sample data for the statements *)


(** A stored text that overrides one default and adds a setting. *)
Definition stored_french : string :=
  "{" +:+ quote "locale" +:+ ":" +:+ quote "fr-FR" +:+ ","
  +:+ quote "fontSize" +:+ ":12}".

End Settings.

(** * The settings page and the provider behind it *)

Module SettingsPage.
Import Json Settings.

(** ** Updates through the provider *)

Inductive update :=
| Set_ (key : string) (value : json)
| SetNested (section key : string) (value : json).

Definition apply_update (s : gmap string json) (u : update) : gmap string json :=
  match u with
  | Set_ key value => updateSetting key value s
  | SetNested section key value => updateNestedSetting section key value s
  end.

(** ** The page

    What the page works on: the provider's settings, its own flag, the
    browser's storage, the class [dark] of the root element and the
    notices raised (title and description). *)
Record page := MkPage {
  settings : gmap string json;
  hasChanges : bool;
  storage : gmap string string;
  root_dark : bool;
  notices : list (string * string)
}.

Definition handleSettingChange (key : string) (value : json) (p : page) : page :=
  MkPage (updateSetting key value (settings p)) true (storage p) (root_dark p) (notices p).

(** The handler of the dark mode switch. *)
Definition onDarkModeChange (checked : bool) (p : page) : page :=
  let p' := handleSettingChange "darkMode" (JBool checked) p in
  MkPage (settings p') (hasChanges p')
    (<["theme" := if checked then "dark" else "light"]> (storage p'))
    checked (notices p').

(** [properties]: the own properties of the settings object in the order
    the engine lists them (their creation order, which a map does not keep);
    see [enumerates]. *)
Definition handleSave (properties : list (string * json)) (p : page) : page :=
  MkPage (settings p) false
    (<["appSettings" := JSON_stringify (JObj properties)]> (storage p))
    (root_dark p)
    (notices p ++ [("Settings saved", "Your preferences have been saved successfully.")]).

(** The page after the application has started over on [stored]: the
    provider's initializer has run, nothing else of the page's state
    survives.  [dark]: what the rest of the application has made of the
    root element by then. *)
Definition load (dark : bool) (stored : gmap string string) : page :=
  MkPage (initialSettings (stored !! "appSettings")) false stored dark [].

Definition handleReset (dark : bool) (p : page) : page :=
  load dark (delete "appSettings" (storage p)).

(** ** What the controls show *)

(** [a || b]. *)
Definition js_or (a : option json) (b : json) : json :=
  match a with
  | Some v => if truthy v then v else b
  | None => b
  end.

Definition compactMode_checked (s : gmap string json) : json :=
  js_or (s !! "compactMode") (JBool false).

Definition currency_value (s : gmap string json) : json :=
  js_or (s !! "currency") (JStr "USD").

Definition dateFormat_value (s : gmap string json) : json :=
  js_or (s !! "dateFormat") (JStr "MM/DD/YYYY").

Definition emailNotifications_checked (s : gmap string json) : json :=
  js_or (s !! "emailNotifications") (JBool false).

Definition pushNotifications_checked (s : gmap string json) : json :=
  js_or (s !! "pushNotifications") (JBool false).

Definition weatherAlerts_checked (s : gmap string json) : json :=
  js_or (s !! "weatherAlerts") (JBool true).

(** [settings.autoSave !== false]. *)
Definition autoSave_checked (s : gmap string json) : bool :=
  match s !! "autoSave" with
  | Some (JBool false) => false
  | _ => true
  end.

Definition offlineMode_checked (s : gmap string json) : json :=
  js_or (s !! "offlineMode") (JBool false).

(** ** Histories of the page *)

Inductive control :=
| Switch (key : string) (checked : bool)
| Select (key : string) (value : string)
| DarkMode (checked : bool)
| SaveChanges (properties : list (string * json))
| ResetAll (dark : bool)
| Reload (dark : bool).

Definition act (c : control) (p : page) : page :=
  match c with
  | Switch key checked => handleSettingChange key (JBool checked) p
  | Select key value => handleSettingChange key (JStr value) p
  | DarkMode checked => onDarkModeChange checked p
  | SaveChanges properties => handleSave properties p
  | ResetAll dark => handleReset dark p
  | Reload dark => load dark (storage p)
  end.

(** [properties] lists the properties of [s], each once. *)
Definition enumerates (properties : list (string * json)) (s : gmap string json) : Prop :=
  NoDup (map fst properties) ∧ list_to_map properties = s.

(** The save button is there only while [hasChanges]. *)
Definition possible (c : control) (p : page) : Prop :=
  match c with
  | SaveChanges properties => hasChanges p = true ∧ enumerates properties (settings p)
  | _ => True
  end.

Inductive reaches (p0 : page) : page → Prop :=
| reaches_here : reaches p0 p0
| reaches_step p c : reaches p0 p → possible c p → reaches p0 (act c p).

(** ** Notions and sample data for the statements *)

Definition settings_wf (s : gmap string json) : Prop :=
  map_Forall (λ _ v, json_wf v = true) s.

(** What the page keeps true: the settings are well formed and have the
    default names, what is stored loads to well-formed settings, and while
    the save button is hidden what is stored loads to the settings shown. *)
Definition in_order (p : page) : Prop :=
  settings_wf (settings p)
  ∧ dom defaultSettings ⊆ dom (settings p)
  ∧ settings_wf (initialSettings (storage p !! "appSettings"))
  ∧ (hasChanges p = false → initialSettings (storage p !! "appSettings") = settings p).

Definition compact_properties : list (string * json) :=
  [("darkMode", JBool false);
   ("locale", JStr "en-US");
   ("compactMode", JBool true);
   ("currency", JStr "USD");
   ("dateFormat", JStr "MM/DD/YYYY");
   ("emailNotifications", JBool true);
   ("pushNotifications", JBool false);
   ("weatherAlerts", JBool true);
   ("autoSave", JBool true);
   ("offlineMode", JBool false)].

End SettingsPage.

(** * Properties of the JSON layer *)

Module JsonFacts.
Import Json.

(** ** The parser and the printer on small inputs *)

Example parse_number_forms :
  JSON_parse " [1, 2.50, -0.001e3, 1E2, 0] "
  = Some (JArr [JNum (Decimal false [1]%nat 0); JNum (Decimal false [2; 5]%nat (-1));
                JNum (Decimal true [1]%nat 0); JNum (Decimal false [1]%nat 2);
                JNum dzero]).
Proof. reflexivity. Qed.

Example parse_rejects_what_is_not_json :
  map JSON_parse ["01"; "1."; ".5"; "+1"; "[1,]"; "{,}"; "1 2"; "{} }"; "nul"; ""]
  = [None; None; None; None; None; None; None; None; None; None].
Proof. reflexivity. Qed.

Example parse_later_key_wins :
  JSON_parse ("{" +:+ quote "a" +:+ ":1," +:+ quote "b" +:+ ":true,"
              +:+ quote "a" +:+ ":null}")
  = Some (JObj [("a", JNull); ("b", JBool true)]).
Proof. reflexivity. Qed.

Example parse_escapes :
  JSON_parse (String dquote ("a\n\u0041\u00e9" +:+ String dquote ""))
  = Some (JStr (String "a" (String "010" (String "A" (String "195" (String "169" "")))))).
Proof. reflexivity. Qed.

(** Array indices are listed first, in ascending order, whatever the order
    of the text. *)
Example index_keys_come_first :
  (v ← JSON_parse ("{" +:+ quote "b" +:+ ":1," +:+ quote "10" +:+ ":2,"
                   +:+ quote "2" +:+ ":3," +:+ quote "01" +:+ ":4}");
   Some (JSON_stringify v))
  = Some ("{" +:+ quote "2" +:+ ":3," +:+ quote "10" +:+ ":2,"
          +:+ quote "b" +:+ ":1," +:+ quote "01" +:+ ":4}").
Proof. vm_compute. reflexivity. Qed.

(** A surrogate on its own is printed as an escape, a pair as the
    character it encodes. *)
Example surrogates_printed :
  map (fun text => v ← JSON_parse (String dquote (text +:+ String dquote ""));
                   Some (JSON_stringify v))
      ["\ud83d"; "\ud83d\ude00"; "\ude00\ud83d"; "a\ud83db"]
  = [Some (String dquote ("\ud83d" +:+ String dquote ""));
     Some (String dquote (utf8 128512 +:+ String dquote ""));
     Some (String dquote ("\ude00\ud83d" +:+ String dquote ""));
     Some (String dquote ("a\ud83db" +:+ String dquote ""))].
Proof. vm_compute. reflexivity. Qed.

Example print_number_forms :
  map print_decimal
    [Decimal false [2; 8; 5]%nat (-1); Decimal false [1; 1; 4]%nat 0;
     Decimal true [7]%nat (-1); Decimal false [1; 2]%nat (-7);
     Decimal false [1; 2]%nat (-8); Decimal false [1; 2]%nat 19;
     Decimal false [1; 2]%nat 20; dzero]
  = ["28.5"; "114"; "-0.7"; "0.0000012"; "1.2e-7"; "120000000000000000000";
     "1.2e+21"; "0"].
Proof. reflexivity. Qed.

(** ** Texts *)

Lemma app_nil_l (s : string) : "" +:+ s = s.
Proof. done. Qed.

Lemma app_cons c (s t : string) : String c s +:+ t = String c (s +:+ t).
Proof. done. Qed.

Lemma app_nil_r (s : string) : s +:+ "" = s.
Proof. induction s as [|c s IH]; [done|]. by rewrite app_cons, IH. Qed.

Lemma app_assoc (s t u : string) : (s +:+ t) +:+ u = s +:+ t +:+ u.
Proof. induction s as [|c s IH]; [done|]. by rewrite !app_cons, IH. Qed.

Lemma digits_str_app ds1 ds2 :
  digits_str (ds1 ++ ds2) = digits_str ds1 +:+ digits_str ds2.
Proof. induction ds1 as [|d ds1 IH]; [done|]. simpl. by rewrite app_cons, IH. Qed.

(** ** Digits *)

Lemma digit_roundtrip d : (d < 10)%nat → digit_of_ascii (ascii_of_digit d) = Some d.
Proof. intros H. do 10 (destruct d as [|d]; [reflexivity|]). lia. Qed.

Lemma digit_not_dot d : (d < 10)%nat → (ascii_of_digit d =? ".")%char = false.
Proof. intros H. do 10 (destruct d as [|d]; [reflexivity|]). lia. Qed.

Lemma digit_not_exp d : (d < 10)%nat → is_exp_char (ascii_of_digit d) = false.
Proof. intros H. do 10 (destruct d as [|d]; [reflexivity|]). lia. Qed.

Lemma of_digits_snoc ds d : of_digits (ds ++ [d]) = (of_digits ds * 10 + N.of_nat d)%N.
Proof. unfold of_digits. by rewrite fold_left_app. Qed.

Lemma pos_size_bound p : (Npos p < 2 ^ N.of_nat (Pos.size_nat p))%N.
Proof.
  induction p as [p IH|p IH|]; simpl Pos.size_nat;
    rewrite ?Nat2N.inj_succ, ?N.pow_succ_r'; simpl; lia.
Qed.

Lemma size_bound n : (n < 10 ^ N.of_nat (S (N.size_nat n)))%N.
Proof.
  rewrite Nat2N.inj_succ, N.pow_succ_r'.
  destruct n as [|p]; simpl N.size_nat; [simpl; lia|].
  pose proof (pos_size_bound p).
  assert (2 ^ N.of_nat (Pos.size_nat p) ≤ 10 ^ N.of_nat (Pos.size_nat p))%N
    by (apply N.pow_le_mono_l; lia).
  lia.
Qed.

Lemma to_digits_go_S fuel n acc :
  to_digits_go (S fuel) n acc =
  if (n <? 10)%N then N.to_nat (n mod 10) :: acc
  else to_digits_go fuel (n / 10) (N.to_nat (n mod 10) :: acc).
Proof. done. Qed.

Lemma to_digits_go_spec fuel : ∀ n acc,
  (n < 10 ^ N.of_nat (S fuel))%N →
  ∃ ds, to_digits_go (S fuel) n acc = ds ++ acc
        ∧ of_digits ds = n ∧ Forall (fun d => (d < 10)%nat) ds ∧ ds ≠ [].
Proof.
  induction fuel as [|fuel IH]; intros n acc Hn.
  - exists [N.to_nat n]. change (10 ^ N.of_nat 1)%N with 10%N in Hn.
    simpl. apply N.ltb_lt in Hn as Hlt. rewrite Hlt, N.mod_small by done.
    repeat split; try done.
    + unfold of_digits. simpl. lia.
    + constructor; [lia|done].
  - rewrite to_digits_go_S. destruct (n <? 10)%N eqn:Hlt.
    + apply N.ltb_lt in Hlt. exists [N.to_nat n]. rewrite N.mod_small by done.
      repeat split; try done.
      * unfold of_digits. simpl. lia.
      * constructor; [lia|done].
    + apply N.ltb_ge in Hlt.
      destruct (IH (n / 10)%N (N.to_nat (n mod 10) :: acc)) as (ds & E & Hv & Hd & _).
      { apply N.Div0.div_lt_upper_bound.
        rewrite (Nat2N.inj_succ (S fuel)), N.pow_succ_r' in Hn. lia. }
      exists (ds ++ [N.to_nat (n mod 10)]). rewrite E, <- (assoc_L (++)).
      repeat split; try done.
      * rewrite of_digits_snoc, Hv, N2Nat.id.
        pose proof (N.div_mod n 10). lia.
      * apply Forall_app. split; [done|].
        constructor; [|done]. pose proof (N.mod_lt n 10). lia.
      * by destruct ds.
Qed.

Lemma to_digits_spec n :
  of_digits (to_digits n) = n
  ∧ Forall (fun d => (d < 10)%nat) (to_digits n) ∧ to_digits n ≠ [].
Proof.
  destruct (to_digits_go_spec (N.size_nat n) n [] (size_bound n)) as (ds & E & H).
  unfold to_digits. rewrite E, (right_id_L [] (++)). done.
Qed.

(** ** Lexing: running the automaton over a prefix *)

Lemma lex_run_app st s1 s2 st1 ts1 :
  lex_run st s1 = Some (st1, ts1) →
  lex_run st (s1 +:+ s2) =
  match lex_run st1 s2 with
  | Some (st2, ts2) => Some (st2, ts1 ++ ts2)
  | None => None
  end.
Proof.
  revert st ts1. induction s1 as [|c s1 IH]; intros st ts1 H; simpl in H.
  - simplify_eq. rewrite app_nil_l. by destruct (lex_run st1 s2) as [[??]|].
  - rewrite app_cons. simpl.
    destruct (lex_step st c) as [[st' ts]|]; [|done].
    destruct (lex_run st' s1) as [[st'' ts']|] eqn:E; [|done]. simplify_eq.
    rewrite (IH _ _ E). destruct (lex_run st1 s2) as [[??]|]; [|done].
    by rewrite (assoc_L (++)).
Qed.

Lemma lex_from_run st s1 s2 st1 ts1 :
  lex_run st s1 = Some (st1, ts1) →
  lex_from st (s1 +:+ s2) =
  match lex_from st1 s2 with
  | Some ts2 => Some (ts1 ++ ts2)
  | None => None
  end.
Proof.
  revert st ts1. induction s1 as [|c s1 IH]; intros st ts1 H; simpl in H.
  - simplify_eq. rewrite app_nil_l. by destruct (lex_from st1 s2).
  - rewrite app_cons. simpl.
    destruct (lex_step st c) as [[st' ts]|]; [|done].
    destruct (lex_run st' s1) as [[st'' ts']|] eqn:E; [|done]. simplify_eq.
    rewrite (IH _ _ E). destruct (lex_from st1 s2); [|done].
    by rewrite (assoc_L (++)).
Qed.

Lemma runs_app st s1 st1 s2 st2 :
  runs st s1 st1 → runs st1 s2 st2 → runs st (s1 +:+ s2) st2.
Proof. unfold runs. intros H1 H2. by rewrite (lex_run_app _ _ _ _ _ H1), H2. Qed.

(** ** Lexing a printed number *)

Lemma runs_sign_digit neg d :
  (d < 10)%nat → d ≠ O →
  runs LDefault (sign neg +:+ digits_str [d]) (LNum PInt (NumAcc neg [d] [] false [])).
Proof.
  intros H H0. destruct d as [|d]; [done|].
  do 9 (destruct d as [|d]; [by destruct neg|]). lia.
Qed.

Lemma runs_sign_zero neg :
  runs LDefault (sign neg +:+ "0") (LNum PZero (NumAcc neg [O] [] false [])).
Proof. by destruct neg. Qed.

Lemma runs_int ds : small ds → ∀ neg i f en ed,
  runs (LNum PInt (NumAcc neg i f en ed)) (digits_str ds)
       (LNum PInt (NumAcc neg (i ++ ds) f en ed)).
Proof.
  unfold runs. induction 1 as [|d ds Hd _ IH]; intros neg i f en ed.
  - simpl. by rewrite (right_id_L [] (++)).
  - simpl. rewrite (digit_roundtrip d Hd), IH. by rewrite <- (assoc_L (++)).
Qed.

Lemma runs_frac ds : small ds → ∀ neg i f en ed,
  runs (LNum PFrac (NumAcc neg i f en ed)) (digits_str ds)
       (LNum PFrac (NumAcc neg i (f ++ ds) en ed)).
Proof.
  unfold runs. induction 1 as [|d ds Hd _ IH]; intros neg i f en ed.
  - simpl. by rewrite (right_id_L [] (++)).
  - simpl. rewrite (digit_roundtrip d Hd), IH. by rewrite <- (assoc_L (++)).
Qed.

Lemma runs_exp ds : small ds → ∀ neg i f en ed,
  runs (LNum PExp (NumAcc neg i f en ed)) (digits_str ds)
       (LNum PExp (NumAcc neg i f en (ed ++ ds))).
Proof.
  unfold runs. induction 1 as [|d ds Hd _ IH]; intros neg i f en ed.
  - simpl. by rewrite (right_id_L [] (++)).
  - simpl. rewrite (digit_roundtrip d Hd), IH. by rewrite <- (assoc_L (++)).
Qed.

Lemma runs_dot_frac ph neg i en ed x xs :
  integral ph → small (x :: xs) →
  runs (LNum ph (NumAcc neg i [] en ed)) ("." +:+ digits_str (x :: xs))
       (LNum PFrac (NumAcc neg i (x :: xs) en ed)).
Proof.
  intros Hph Hs. inversion_clear Hs as [|?? Hx Hxs].
  change ("." +:+ digits_str (x :: xs))
    with (("." +:+ digits_str [x]) +:+ digits_str xs).
  eapply runs_app; [|apply (runs_frac xs Hxs neg i [x] en ed)].
  unfold runs. destruct Hph as [-> | ->]; simpl; by rewrite (digit_roundtrip x Hx).
Qed.

Lemma runs_exponent ph neg i f z :
  ph = PInt ∨ ph = PFrac →
  runs (LNum ph (NumAcc neg i f false [])) ("e" +:+ print_exponent z)
       (LNum PExp (NumAcc neg i f (z <? 0)%Z (to_digits (Z.abs_N z)))).
Proof.
  intros Hph. destruct (to_digits_spec (Z.abs_N z)) as (_ & Hs & Hne).
  unfold print_exponent.
  destruct (to_digits (Z.abs_N z)) as [|x xs]; [done|].
  inversion_clear Hs as [|?? Hx Hxs].
  change ("e" +:+ String (if (z <? 0)%Z then "-"%char else "+"%char) (digits_str (x :: xs)))
    with (String "e" (String (if (z <? 0)%Z then "-"%char else "+"%char) (digits_str [x]))
          +:+ digits_str xs).
  eapply runs_app; [|apply (runs_exp xs Hxs neg i f (z <? 0)%Z [x])].
  unfold runs.
  destruct Hph as [-> | ->], (z <? 0)%Z; simpl; by rewrite (digit_roundtrip x Hx).
Qed.

(** ** The value of a printed number *)

Local Arguments strip_zeros : simpl never.

Lemma strip_zeros_repeat m l : strip_zeros (repeat O m ++ l) = strip_zeros l.
Proof. induction m as [|m IH]; [done|]. apply IH. Qed.

Lemma strip_zeros_nonzero d l : d ≠ O → strip_zeros (d :: l) = d :: l.
Proof. by destruct d. Qed.

Lemma rev_repeat_zero m : rev (repeat O m) = repeat O m.
Proof.
  induction m as [|m IH]; [done|].
  simpl. rewrite IH. symmetry. apply (repeat_cons m O).
Qed.

Lemma trim_zeros l m : trim (l ++ repeat O m) = trim l.
Proof. unfold trim. by rewrite rev_app_distr, rev_repeat_zero, strip_zeros_repeat. Qed.

Lemma trim_id l : l ≠ [] → List.last l O ≠ O → trim l = l.
Proof.
  intros Hne Hlast. destruct (exists_last Hne) as (l' & x & ->).
  rewrite last_last in Hlast. unfold trim.
  rewrite rev_app_distr. change (rev [x] ++ rev l') with (x :: rev l').
  rewrite strip_zeros_nonzero by done.
  change (x :: rev l') with (rev [x] ++ rev l').
  by rewrite <- rev_app_distr, rev_involutive.
Qed.

Lemma nonzero_digit_spec d : nonzero_digit d = true → d ≠ O ∧ (d < 10)%nat.
Proof.
  unfold nonzero_digit. intros [H1 H2]%andb_prop.
  apply negb_true_iff, Nat.eqb_neq in H1. apply Nat.ltb_lt in H2. done.
Qed.

Lemma canonical_significant neg d0 rest e :
  canonical (Decimal neg (d0 :: rest) e) = true → significant (d0 :: rest).
Proof.
  unfold canonical. cbn [d_digits].
  intros [[H1%nonzero_digit_spec H2%nonzero_digit_spec]%andb_prop H3]%andb_prop.
  split.
  - apply Forall_forall. intros x Hx%list_elem_of_In.
    rewrite forallb_forall in H3. by apply Nat.ltb_lt, H3.
  - exists d0, rest. by destruct H1.
  - by destruct H2.
Qed.

Lemma make_decimal_eq neg i f en ed ds zs :
  significant ds →
  strip_zeros (i ++ f) = ds ++ repeat O zs →
  make_decimal (NumAcc neg i f en ed)
  = Decimal neg ds
      ((if en then -1 else 1) * Z.of_N (of_digits ed)
       - Z.of_nat (length f) + Z.of_nat zs)%Z.
Proof.
  intros [Hs (d & rest & -> & Hd) Hl] E. unfold make_decimal. cbn [n_int n_frac n_neg n_eneg n_edigits].
  rewrite E. fold (trim ((d :: rest) ++ repeat O zs)).
  rewrite trim_zeros, trim_id by done.
  f_equal. rewrite length_app, repeat_length. lia.
Qed.

Lemma small_zeros m : small (repeat O m).
Proof. apply Forall_forall. intros x ->%list_elem_of_In%repeat_spec. lia. Qed.

(** Reading a printed number leaves the automaton inside a complete literal
    whose value is that number. *)
Lemma lex_run_decimal d :
  canonical d = true →
  ∃ ph a, runs LDefault (print_decimal d) (LNum ph a)
          ∧ num_terminal ph = true ∧ make_decimal a = d.
Proof.
  destruct d as [neg ds e]. destruct ds as [|d0 rest]; intros Hc.
  { unfold canonical in Hc. cbn in Hc.
    apply andb_prop in Hc as [Hn%negb_true_iff He%Z.eqb_eq]. subst.
    by exists PZero, (NumAcc false [O] [] false []). }
  pose proof (canonical_significant _ _ _ _ Hc) as Hsig.
  destruct Hsig as [Hs (d0' & rest' & [= <- <-] & Hd0) Hl].
  assert (Hsig : significant (d0 :: rest)) by (split; eauto).
  inversion Hs as [|?? Hd0s Hrs]; subst.
  unfold print_decimal. cbn [d_digits d_neg d_exp].
  fold (sign neg).
  set (k := Z.of_nat (length (d0 :: rest))).
  assert (Hk : k = (1 + Z.of_nat (length rest))%Z) by (unfold k; simpl length; lia).
  destruct ((k <=? k + e)%Z && (k + e <=? 21)%Z) eqn:F1.
  { (* digits followed by zeros *)
    apply andb_prop in F1 as [F1%Z.leb_le _].
    exists PInt, (NumAcc neg ([d0] ++ rest ++ repeat O (Z.to_nat (k + e - k))) [] false []).
    split; [|split; [done|]].
    - change ((d0 :: rest) ++ repeat O (Z.to_nat (k + e - k)))
        with ([d0] ++ rest ++ repeat O (Z.to_nat (k + e - k))).
      rewrite digits_str_app, <- app_assoc.
      eapply runs_app; [by apply runs_sign_digit|].
      apply runs_int, Forall_app. split; [done|apply small_zeros].
    - rewrite (make_decimal_eq _ _ _ _ _ (d0 :: rest) (Z.to_nat (k + e - k))); try done.
      + f_equal. unfold of_digits. simpl. lia.
      + rewrite (right_id_L [] (++)). simpl. by rewrite strip_zeros_nonzero. }
  destruct ((0 <? k + e)%Z && (k + e <=? 21)%Z) eqn:F2.
  { (* a decimal point inside the digits *)
    apply andb_prop in F2 as [F2%Z.ltb_lt F2'%Z.leb_le].
    apply andb_false_iff in F1 as [F1%Z.leb_gt|F1%Z.leb_gt]; [|lia].
    destruct (Z.to_nat (k + e)) as [|n] eqn:En; [lia|].
    assert (Hn : (n < length rest)%nat) by lia.
    destruct (drop n rest) as [|x xs] eqn:Edrop.
    { apply (f_equal length) in Edrop. rewrite length_drop in Edrop. simpl in Edrop. lia. }
    assert (Hxs : small (x :: xs)).
    { rewrite <- Edrop. by apply Forall_drop. }
    exists PFrac, (NumAcc neg ([d0] ++ take n rest) (x :: xs) false []).
    split; [|split; [done|]].
    - cbn [take drop]. rewrite Edrop.
      change (d0 :: take n rest) with ([d0] ++ take n rest).
      rewrite digits_str_app, !app_assoc, <- (app_assoc (sign neg)).
      eapply runs_app; [by apply runs_sign_digit|].
      eapply runs_app; [apply runs_int; by apply Forall_take|].
      apply runs_dot_frac; [by right|done].
    - rewrite (make_decimal_eq _ _ _ _ _ (d0 :: rest) 0); try done.
      + f_equal. unfold of_digits. simpl.
        apply (f_equal length) in Edrop. rewrite length_drop in Edrop.
        simpl in Edrop. lia.
      + rewrite <- (assoc_L (++)), <- Edrop, take_drop. cbn [repeat app].
        by rewrite (right_id_L [] (++)), strip_zeros_nonzero. }
  destruct ((-6 <? k + e)%Z && (k + e <=? 0)%Z) eqn:F3.
  { (* zero, point, zeros, digits *)
    apply andb_prop in F3 as [_ F3%Z.leb_le].
    set (m := Z.to_nat (- (k + e))).
    exists PFrac, (NumAcc neg [O] (repeat O m ++ d0 :: rest) false []).
    split; [|split; [done|]].
    - change ("0." +:+ digits_str (repeat O m ++ d0 :: rest))
        with ("0" +:+ "." +:+ digits_str (repeat O m ++ d0 :: rest)).
      rewrite <- app_assoc.
      eapply runs_app; [apply runs_sign_zero|].
      assert (Hall : small (repeat O m ++ d0 :: rest))
        by (apply Forall_app; split; [apply small_zeros|done]).
      destruct (repeat O m ++ d0 :: rest) as [|x xs] eqn:E.
      { by destruct m. }
      apply runs_dot_frac; [by left|done].
    - rewrite (make_decimal_eq _ _ _ _ _ (d0 :: rest) 0); try done.
      + f_equal. unfold of_digits. simpl. rewrite length_app, repeat_length.
        simpl. lia.
      + cbn [repeat]. rewrite (right_id_L [] (++)).
        change ([O] ++ repeat O m ++ d0 :: rest)
          with (repeat O (S m) ++ d0 :: rest).
        by rewrite strip_zeros_repeat, strip_zeros_nonzero. }
  (* exponent notation *)
  assert (Hz : ((if (k + e - 1 <? 0)%Z then -1 else 1)
                * Z.of_N (of_digits (to_digits (Z.abs_N (k + e - 1))))
                = k + e - 1)%Z).
  { destruct (to_digits_spec (Z.abs_N (k + e - 1))) as (-> & _).
    destruct (k + e - 1 <? 0)%Z eqn:E; [apply Z.ltb_lt in E|apply Z.ltb_ge in E]; lia. }
  destruct rest as [|x xs].
  - exists PExp, (NumAcc neg [d0] [] (k + e - 1 <? 0)%Z (to_digits (Z.abs_N (k + e - 1)))).
    split; [|split; [done|]].
    + rewrite <- app_assoc.
      eapply runs_app; [by apply runs_sign_digit|].
      apply runs_exponent. by left.
    + rewrite (make_decimal_eq _ _ _ _ _ [d0] 0); try done.
      * f_equal. rewrite Hz. simpl length in *. lia.
      * cbn [repeat app]. by rewrite ?(right_id_L [] (++)), strip_zeros_nonzero.
  - exists PExp, (NumAcc neg [d0] (x :: xs) (k + e - 1 <? 0)%Z
                    (to_digits (Z.abs_N (k + e - 1)))).
    split; [|split; [done|]].
    + rewrite <- (app_assoc (sign neg)).
      eapply runs_app; [by apply runs_sign_digit|].
      rewrite <- (app_assoc ".").
      eapply runs_app; [apply runs_dot_frac; [by right|done]|].
      apply runs_exponent. by right.
    + rewrite (make_decimal_eq _ _ _ _ _ (d0 :: x :: xs) 0); try done.
      * f_equal. rewrite Hz. simpl length in *. lia.
      * cbn [repeat app]. by rewrite ?(right_id_L [] (++)), strip_zeros_nonzero.
Qed.

(** ** Lexing a quoted text *)

Lemma lex_run_escape_char c acc hi :
  lex_run (LStr acc hi) (escape_char c)
  = Some (LStr (snoc (flush hi acc) c) None, []).
Proof.
  destruct hi as [h|].
  - destruct c as [[] [] [] [] [] [] [] []]; try reflexivity;
      unfold snoc, flush; rewrite app_assoc; reflexivity.
  - destruct c as [[] [] [] [] [] [] [] []]; reflexivity.
Qed.

Lemma hex_val_char d : (d < 16)%N → hex_val (hex_char d) = Some d.
Proof.
  intros H. destruct d as [|p]; [done|].
  do 4 (destruct p as [p|p|]; try done); lia.
Qed.

Lemma hex4_value u :
  (u < 65536)%N →
  ((((0 * 16 + u / 4096) * 16 + (u / 256) mod 16) * 16 + (u / 16) mod 16) * 16
   + u mod 16 = u)%N.
Proof.
  intros H.
  pose proof (N.div_mod u 16 ltac:(lia)) as E1.
  pose proof (N.div_mod (u / 16) 16 ltac:(lia)) as E2.
  pose proof (N.div_mod (u / 256) 16 ltac:(lia)) as E3.
  rewrite (N.Div0.div_div u 16 16) in E2.
  rewrite (N.Div0.div_div u 256 16) in E3.
  change (16 * 16)%N with 256%N in *. change (256 * 16)%N with 4096%N in *.
  lia.
Qed.

(** An escaped unit is read back as that unit. *)
Lemma lex_run_unit acc hi u :
  (u < 65536)%N →
  lex_run (LStr acc hi) ("\u" +:+ hex4 u) = Some (unit_done acc hi u, []).
Proof.
  intros Hu. unfold hex4.
  assert (H1 : (u / 4096 < 16)%N) by (apply N.Div0.div_lt_upper_bound; lia).
  assert (H2 : ((u / 256) mod 16 < 16)%N) by (by apply N.mod_lt).
  assert (H3 : ((u / 16) mod 16 < 16)%N) by (by apply N.mod_lt).
  assert (H4 : (u mod 16 < 16)%N) by (by apply N.mod_lt).
  change ("\u" +:+ ?s) with (String "\" (String "u" s)).
  cbn [lex_run].
  rewrite (eq_refl : lex_step (LStr acc hi) "\" = Some (LEsc acc hi, [])).
  rewrite (eq_refl : lex_step (LEsc acc hi) "u" = Some (LUni acc hi [], [])).
  cbn [lex_step]. rewrite (hex_val_char _ H1). cbn [app length Nat.eqb].
  cbn [lex_step]. rewrite (hex_val_char _ H2). cbn [app length Nat.eqb].
  cbn [lex_step]. rewrite (hex_val_char _ H3). cbn [app length Nat.eqb].
  cbn [lex_step]. rewrite (hex_val_char _ H4). cbn [app length Nat.eqb fold_left].
  by rewrite (hex4_value u Hu).
Qed.

Lemma surrogate_spec c1 c2 c3 u :
  surrogate c1 c2 c3 = Some u →
  utf8 u = String c1 (String c2 (String c3 ""))
  ∧ (u < 65536)%N
  ∧ is_high u = negb (is_low u)
  ∧ (128 <= N_of_ascii c1)%N ∧ (128 <= N_of_ascii c2)%N
  ∧ (128 <= N_of_ascii c3)%N.
Proof.
  unfold surrogate. case_match eqn:E; [|done]. intros [= <-].
  repeat (apply andb_prop in E as [E ?]).
  apply N.eqb_eq in E.
  repeat match goal with
         | H : (_ <=? _)%N = true |- _ => apply N.leb_le in H
         end.
  set (n2 := N_of_ascii c2) in *. set (n3 := N_of_ascii c3) in *.
  set (u := (55296 + (n2 - 160) * 64 + (n3 - 128))%N).
  assert (Hq : (u / 4096 = 13)%N).
  { symmetry. apply (N.div_unique u 4096 13 (u - 13 * 4096)); unfold u; lia. }
  assert (Hm : (u mod 64 = n3 - 128)%N).
  { symmetry. apply (N.mod_unique u 64 (832 + n2 - 128) (n3 - 128)); unfold u; lia. }
  assert (Hd : (u / 64 = 832 + n2 - 128)%N).
  { symmetry. apply (N.div_unique u 64 (832 + n2 - 128) (n3 - 128)); unfold u; lia. }
  assert (Hdm : ((u / 64) mod 64 = n2 - 128)%N).
  { rewrite Hd. symmetry.
    apply (N.mod_unique (832 + n2 - 128) 64 13 (n2 - 128)); lia. }
  split; [|split; [unfold u; lia|split; [|lia]]].
  - unfold utf8.
    assert ((u <? 128)%N = false) as -> by (apply N.ltb_ge; unfold u; lia).
    assert ((u <? 2048)%N = false) as -> by (apply N.ltb_ge; unfold u; lia).
    assert ((u <? 65536)%N = true) as -> by (apply N.ltb_lt; unfold u; lia).
    rewrite Hq, Hdm, Hm.
    replace (224 + 13)%N with (N_of_ascii c1) by lia.
    replace (128 + (n2 - 128))%N with n2 by lia.
    replace (128 + (n3 - 128))%N with n3 by lia.
    unfold n2, n3. by rewrite !ascii_N_embedding.
  - unfold is_high, is_low.
    destruct (N.leb_spec 56320 u), (N.leb_spec 55296 u), (N.leb_spec u 56319),
      (N.leb_spec u 57343); try done; unfold u in *; lia.
Qed.

Lemma lex_run_raw c acc hi :
  (128 <= N_of_ascii c)%N →
  lex_step (LStr acc hi) c = Some (LStr (snoc (flush hi acc) c) None, []).
Proof.
  intros H. cbn [lex_step].
  assert ((c =? dquote)%char = false) as ->.
  { apply Ascii.eqb_neq. intros ->. by vm_compute in H. }
  assert ((c =? "\")%char = false) as ->.
  { apply Ascii.eqb_neq. intros ->. by vm_compute in H. }
  assert ((N_of_ascii c <? 32)%N = false) as -> by (apply N.ltb_ge; lia).
  done.
Qed.

(** A printed text is read back, whatever is pending when it starts. *)
Lemma lex_run_escape_from n :
  ∀ s, (String.length s <= n)%nat → ∀ acc hi,
  ∃ acc' hi',
    lex_run (LStr acc hi)
      (escape_from (match hi with Some _ => true | None => false end) s)
    = Some (LStr acc' hi', [])
    ∧ flush hi' acc' = flush hi acc +:+ s.
Proof.
  induction n as [|n IH]; intros s Hlen acc hi.
  { destruct s; [|simpl in Hlen; lia]. exists acc, hi. split; [done|].
    by rewrite app_nil_r. }
  destruct s as [|c s'].
  { exists acc, hi. split; [done|]. by rewrite app_nil_r. }
  cbn [String.length] in Hlen.
  assert (Hplain : ∃ acc' hi',
             lex_run (LStr acc hi) (escape_char c +:+ escape_from false s')
             = Some (LStr acc' hi', [])
             ∧ flush hi' acc' = flush hi acc +:+ String c s').
  { destruct (IH s' ltac:(lia) (snoc (flush hi acc) c) None)
      as (acc' & hi' & Hrun & Hfl).
    exists acc', hi'. split.
    - by rewrite (lex_run_app _ _ _ _ _ (lex_run_escape_char c acc hi)), Hrun.
    - rewrite Hfl. cbn [flush]. unfold snoc. by rewrite app_assoc. }
  cbn [escape_from].
  destruct s' as [|c2 [|c3 rest]]; try exact Hplain.
  destruct (surrogate c c2 c3) as [u|] eqn:Hs; [|exact Hplain].
  destruct (surrogate_spec _ _ _ _ Hs) as (Hu & Hlt & Hhl & Hc1 & Hc2 & Hc3).
  cbn [String.length] in Hlen.
  destruct ((match hi with Some _ => true | None => false end) && is_low u)
    eqn:Hj.
  - destruct (IH rest ltac:(lia)
                (snoc (snoc (snoc (flush hi acc) c) c2) c3) None)
      as (acc' & hi' & Hrun & Hfl).
    exists acc', hi'. split.
    + cbn [lex_run]. rewrite (lex_run_raw c _ _ Hc1).
      rewrite (lex_run_raw c2 _ None Hc2). cbn [flush].
      rewrite (lex_run_raw c3 _ None Hc3). cbn [flush].
      by rewrite Hrun.
    + rewrite Hfl. cbn [flush]. unfold snoc. by rewrite !app_assoc.
  - assert (Hdone : ∃ acc1 hi1,
               unit_done acc hi u = LStr acc1 hi1
               ∧ flush hi1 acc1 = flush hi acc +:+ utf8 u
               ∧ match hi1 with Some _ => true | None => false end = is_high u).
    { unfold unit_done. destruct hi as [h|]; cbn [andb] in Hj.
      - rewrite Hj in *. cbn [negb] in Hhl. rewrite Hhl.
        exists (acc +:+ utf8 h), (Some u). by cbn [flush].
      - destruct (is_high u) eqn:Hh.
        + by exists acc, (Some u).
        + exists (acc +:+ utf8 u), None. by cbn [flush]. }
    destruct Hdone as (acc1 & hi1 & Hd & Hf1 & Hp1).
    destruct (IH rest ltac:(lia) acc1 hi1) as (acc' & hi' & Hrun & Hfl).
    exists acc', hi'. split.
    + rewrite <- app_assoc.
      rewrite (lex_run_app _ _ _ _ _ (lex_run_unit acc hi u Hlt)), Hd.
      rewrite <- Hp1, Hrun. done.
    + rewrite Hfl, Hf1, Hu. by rewrite app_assoc.
Qed.

Lemma lex_run_quote s : lex_run LDefault (quote s) = Some (LDefault, [TString s]).
Proof.
  unfold quote.
  change (String dquote (escape s +:+ String dquote ""))
    with (String dquote "" +:+ escape s +:+ String dquote "").
  rewrite (lex_run_app LDefault (String dquote "") _ (LStr "" None) []) by done.
  destruct (lex_run_escape_from (String.length s) s (le_n _) "" None)
    as (acc' & hi' & Hrun & Hfl).
  unfold escape. rewrite (lex_run_app _ _ _ _ _ Hrun).
  cbn [lex_run lex_step]. by rewrite Hfl.
Qed.

(** ** Lexing a printed token stream *)

Lemma lex_run_token t :
  is_number t = false → lex_run LDefault (print_token t) = Some (LDefault, [t]).
Proof. destruct t; try done. intros _. apply lex_run_quote. Qed.

Lemma num_step_closes ph a t :
  num_terminal ph = true → closes t = true →
  ∃ c, print_token t = String c ""
       ∧ lex_step (LNum ph a) c = Some (LDefault, [TNumber (make_decimal a); t]).
Proof.
  intros Hph Ht. destruct a as [neg i f en ed].
  destruct t; try done; eexists; (split; [reflexivity|]); by destruct ph.
Qed.

Lemma lex_print_tokens ts :
  delimited ts = true → lex_from LDefault (print_tokens ts) = Some ts.
Proof.
  induction ts as [|t ts IH]; [done|].
  destruct (is_number t) eqn:Ht.
  - destruct t as [| | | | | | |d| | |]; try done. cbn [delimited].
    intros [[Hc Hf]%andb_prop Hd]%andb_prop.
    destruct (lex_run_decimal d Hc) as (ph & a & Hrun & Hph & Hval).
    cbn [print_tokens print_token].
    rewrite (lex_from_run _ _ _ _ _ Hrun).
    destruct ts as [|t' ts'].
    + simpl. by rewrite Hph, Hval.
    + cbn [follows] in Hf.
      destruct (num_step_closes ph a t' Hph Hf) as (c & Hp & Hstep).
      cbn [print_tokens]. rewrite Hp, app_cons, app_nil_l. cbn [lex_from].
      rewrite Hstep.
      assert (Hd' : delimited ts' = true) by (by destruct t').
      assert (IH' : lex_from LDefault (print_tokens ts') = Some ts').
      { assert (Hnum : is_number t' = false) by (by destruct t').
        specialize (IH Hd). cbn [print_tokens] in IH.
        rewrite (lex_from_run _ _ _ _ _ (lex_run_token t' Hnum)) in IH.
        destruct (lex_from LDefault (print_tokens ts')); by simplify_eq/=. }
      by rewrite IH', Hval.
  - intros Hd. assert (Hd' : delimited ts = true) by (by destruct t).
    cbn [print_tokens].
    rewrite (lex_from_run _ _ _ _ _ (lex_run_token t Ht)), (IH Hd'). done.
Qed.

(** ** Induction on values *)

Lemma json_induction (P : json → Prop) :
  P JNull → (∀ b, P (JBool b)) → (∀ d, P (JNum d)) → (∀ s, P (JStr s)) →
  (∀ vs, Forall P vs → P (JArr vs)) →
  (∀ fields, Forall (fun kv => P kv.2) fields → P (JObj fields)) →
  (∀ neg, P (JInf neg)) →
  ∀ v, P v.
Proof.
  intros H0 H1 H2 H3 H4 H5 H6. fix IH 1. intros v.
  destruct v as [|b|d|s|vs|fields|neg].
  - exact H0.
  - apply H1.
  - apply H2.
  - apply H3.
  - apply H4. induction vs as [|v vs IHvs]; constructor; [apply IH|exact IHvs].
  - apply H5.
    induction fields as [|[k v] fields IHf]; constructor; [apply IH|exact IHf].
  - apply H6.
Qed.

Lemma tokens_arr vs :
  tokens (JArr vs) = TLBracket :: sep_by TComma (map tokens vs) ++ [TRBracket].
Proof. done. Qed.

Lemma tokens_obj fields :
  tokens (JObj fields)
  = TLBrace :: sep_by TComma (map member_tokens fields) ++ [TRBrace].
Proof. done. Qed.

Lemma sep_by_one sep l : sep_by sep [l] = l.
Proof. done. Qed.

Lemma sep_by_more sep l l' ls :
  sep_by sep (l :: l' :: ls) = l ++ sep :: sep_by sep (l' :: ls).
Proof. done. Qed.

(** After an opening bracket, a value starts the first element. *)
Lemma parse_array_open v k rest :
  parse_from (SArrOpen k) (tokens v ++ rest)
  = parse_from (SValue (FArr [] :: k)) (tokens v ++ rest).
Proof. by destruct v as [|[]| | | | |]. Qed.

Local Opaque tokens.

(** ** The printed stream is delimited *)

Lemma delimited_elements vs :
  Forall delimits vs → forallb json_wf vs = true →
  ∀ tail, follows tail = true → delimited tail = true →
          delimited (sep_by TComma (map tokens vs) ++ tail) = true.
Proof.
  induction 1 as [|v vs Hv _ IH]; intros Hwf tail Hf Hd; [done|].
  cbn [forallb] in Hwf. apply andb_prop in Hwf as [Hwv Hwvs].
  destruct vs as [|v' vs'].
  - cbn [map]. rewrite sep_by_one. by apply Hv.
  - cbn [map] in *. rewrite sep_by_more, <- (assoc_L (++)). apply Hv; try done.
    cbn [app delimited]. by apply IH.
Qed.

Lemma delimited_members fields :
  Forall (fun kv => delimits kv.2) fields →
  forallb (fun kv => json_wf kv.2) fields = true →
  ∀ tail, follows tail = true → delimited tail = true →
          delimited (sep_by TComma (map member_tokens fields) ++ tail) = true.
Proof.
  induction 1 as [|[k v] fields Hv _ IH]; intros Hwf tail Hf Hd; [done|].
  cbn [forallb] in Hwf. apply andb_prop in Hwf as [Hwv Hwvs].
  destruct fields as [|kv' fields'].
  - cbn [map]. rewrite sep_by_one. unfold member_tokens. cbn [app delimited].
    by apply Hv.
  - cbn [map] in *. rewrite sep_by_more, <- (assoc_L (++)).
    unfold member_tokens at 1. cbn [app delimited fst snd].
    apply Hv; try done. cbn [app delimited]. by apply IH.
Qed.

Lemma delimited_tokens v : delimits v.
Proof.
  induction v as [|b|d|s|vs IH|fields IH|neg] using json_induction;
    intros Hwf rest Hf Hd.
  - by rewrite (eq_refl : tokens JNull = [TNull]).
  - by destruct b.
  - rewrite (eq_refl : tokens (JNum d) = [TNumber d]). cbn [app delimited].
    cbn [json_wf] in Hwf. apply andb_prop in Hwf as [Hwf _].
    by rewrite Hwf, Hf, Hd.
  - by rewrite (eq_refl : tokens (JStr s) = [TString s]).
  - rewrite tokens_arr. cbn [app delimited]. rewrite <- (assoc_L (++)).
    by apply delimited_elements.
  - rewrite tokens_obj. cbn [app delimited]. rewrite <- (assoc_L (++)).
    cbn [json_wf] in Hwf. apply andb_prop in Hwf as [_ Hwf].
    by apply delimited_members.
  - done.
Qed.

(** ** Parsing the printed stream *)

Lemma parse_elements vs :
  Forall parses vs → forallb json_wf vs = true →
  ∀ v acc k rest, parses v → json_wf v = true →
    parse_from (SValue (FArr acc :: k))
      (sep_by TComma (map tokens (v :: vs)) ++ TRBracket :: rest)
    = parse_from (finish (JArr (acc ++ v :: vs)) k) rest.
Proof.
  induction 1 as [|v' vs Hv' _ IH]; intros Hwf v acc k rest Hv Hwv.
  - cbn [map]. rewrite sep_by_one, (Hv Hwv). done.
  - cbn [forallb] in Hwf. apply andb_prop in Hwf as [Hwv' Hwvs].
    cbn [map] in *. rewrite sep_by_more, <- (assoc_L (++)), (Hv Hwv).
    cbn [finish app parse_from parse_step].
    rewrite (IH Hwvs v' (acc ++ [v]) k rest Hv' Hwv').
    by rewrite <- (assoc_L (++)).
Qed.

Lemma ordered_app_l l1 l2 : ordered (l1 ++ l2) = true → ordered l1 = true.
Proof.
  induction l1 as [|k l1 IH]; [done|]. cbn [app ordered].
  rewrite forallb_app. intros [[H1 _]%andb_prop H2]%andb_prop.
  rewrite H1. cbn [andb]. by apply IH.
Qed.

Lemma obj_set_fresh key v acc :
  key ∉ map fst acc → ordered (map fst acc ++ [key]) = true →
  obj_set key v acc = acc ++ [(key, v)].
Proof.
  induction acc as [|[k' v'] acc IH]; intros Hk Ho; [done|].
  cbn [map fst] in Hk. apply not_elem_of_cons in Hk as [Hne Hk].
  cbn [map fst app ordered] in Ho. rewrite forallb_app in Ho.
  apply andb_prop in Ho as [[_ Hb]%andb_prop Ho].
  cbn [forallb] in Hb. rewrite andb_true_r in Hb.
  apply negb_true_iff in Hb.
  cbn [obj_set app]. apply String.eqb_neq in Hne as ->. rewrite Hb.
  by rewrite IH.
Qed.

Lemma obj_set_keys k v l x :
  x ∈ map fst (obj_set k v l) ↔ x = k ∨ x ∈ map fst l.
Proof.
  induction l as [|[k' v'] l IH]; cbn [obj_set map fst].
  - rewrite list_elem_of_singleton, elem_of_nil. tauto.
  - destruct (String.eqb_spec k k') as [->|Hne].
    + cbn [map fst]. rewrite !elem_of_cons. tauto.
    + destruct (goes_before k k'); cbn [map fst].
      * rewrite !elem_of_cons. tauto.
      * rewrite !elem_of_cons, IH. tauto.
Qed.

Lemma goes_before_asym a b : goes_before a b = true → goes_before b a = false.
Proof.
  unfold goes_before. destruct (array_index a), (array_index b); try done.
  intros H%N.ltb_lt. apply N.ltb_ge. lia.
Qed.

Lemma goes_before_trans a b c :
  goes_before a b = true → goes_before b c = true → goes_before a c = true.
Proof.
  unfold goes_before.
  destruct (array_index a), (array_index b), (array_index c); try done.
  intros H1%N.ltb_lt H2%N.ltb_lt. apply N.ltb_lt. lia.
Qed.

(** Setting a key keeps a listing in the engine's order, each key once. *)
Lemma obj_set_listed k v l :
  NoDup (map fst l) → ordered (map fst l) = true →
  NoDup (map fst (obj_set k v l)) ∧ ordered (map fst (obj_set k v l)) = true.
Proof.
  induction l as [|[k' v'] l IH]; cbn [map fst obj_set].
  - intros _ _. split; [apply NoDup_singleton|done].
  - intros [Hk' Hnd]%NoDup_cons Hord. cbn [ordered] in Hord.
    apply andb_prop in Hord as [Hall Ho].
    assert (Hrest : ∀ x, x ∈ map fst l → goes_before x k' = false).
    { intros x Hx%list_elem_of_In. rewrite forallb_forall in Hall.
      apply negb_true_iff. by apply Hall. }
    destruct (String.eqb_spec k k') as [->|Hne].
    + cbn [map fst ordered]. split; [by constructor|]. by rewrite Hall, Ho.
    + destruct (goes_before k k') eqn:Hg.
      * cbn [map fst ordered forallb]. split.
        -- constructor; [|by constructor]. rewrite elem_of_cons.
           intros [?|Hin]; [done|]. by rewrite (Hrest k Hin) in Hg.
        -- rewrite (goes_before_asym _ _ Hg), Hall, Ho. cbn [negb andb].
           rewrite andb_true_r. apply forallb_forall.
           intros x Hx%list_elem_of_In. apply negb_true_iff.
           destruct (goes_before x k) eqn:E; [|done].
           by rewrite <- (Hrest x Hx), (goes_before_trans _ _ _ E Hg).
      * destruct (IH Hnd Ho) as [IH1 IH2]. cbn [map fst ordered]. split.
        -- constructor; [|done]. rewrite obj_set_keys. by intros [?|?].
        -- rewrite IH2, andb_true_r. apply forallb_forall.
           intros x Hx%list_elem_of_In. apply obj_set_keys in Hx as [->|Hx].
           ++ by rewrite Hg.
           ++ by rewrite (Hrest x Hx).
Qed.

Lemma set_all_listed fields :
  ∀ acc, NoDup (map fst acc) → ordered (map fst acc) = true →
         NoDup (map fst (fold_left (fun a kv => obj_set kv.1 kv.2 a) fields acc))
         ∧ ordered (map fst (fold_left (fun a kv => obj_set kv.1 kv.2 a)
                                       fields acc)) = true.
Proof.
  induction fields as [|[key v] fields IH]; intros acc Hnd Hord; [done|].
  cbn [fold_left fst snd].
  destruct (obj_set_listed key v acc Hnd Hord) as [H1 H2]. by apply IH.
Qed.

Lemma keys_prefix (acc : list (string * json)) key v fields :
  map fst (acc ++ (key, v) :: fields)
  = (map fst acc ++ [key]) ++ map fst fields.
Proof. by rewrite map_app, <- (assoc_L (++)). Qed.

(** The members of an object are set one after the other, each taking
    the place the engine gives its key. *)
Lemma parse_members_set fields :
  Forall (fun kv => parses kv.2) fields →
  forallb (fun kv => json_wf kv.2) fields = true →
  ∀ key v acc k rest, parses v → json_wf v = true →
    parse_from (SKey acc k)
      (sep_by TComma (map member_tokens ((key, v) :: fields)) ++ TRBrace :: rest)
    = parse_from
        (finish (JObj (fold_left (fun a kv => obj_set kv.1 kv.2 a)
                                 ((key, v) :: fields) acc)) k) rest.
Proof.
  induction 1 as [|[key' v'] fields Hv' _ IH];
    intros Hwf key v acc k rest Hv Hwv.
  - cbn [map]. rewrite sep_by_one. unfold member_tokens.
    cbn [app parse_from parse_step fst snd]. rewrite (Hv Hwv).
    by cbn [finish parse_from parse_step].
  - cbn [forallb] in Hwf. apply andb_prop in Hwf as [Hwv' Hwvs].
    cbn [map] in *. rewrite sep_by_more, <- (assoc_L (++)).
    unfold member_tokens at 1.
    cbn [app parse_from parse_step fst snd]. rewrite (Hv Hwv).
    cbn [finish app parse_from parse_step].
    by rewrite (IH Hwvs key' v' (obj_set key v acc) k rest Hv' Hwv').
Qed.

(** Keys that come in the engine's order, each once, stay where they are. *)
Lemma set_in_order fields :
  ∀ acc, NoDup (map fst (acc ++ fields)) →
         ordered (map fst (acc ++ fields)) = true →
         fold_left (fun a kv => obj_set kv.1 kv.2 a) fields acc = acc ++ fields.
Proof.
  induction fields as [|[key v] fields IH]; intros acc Hnd Hord.
  - by rewrite (right_id_L [] (++)).
  - cbn [fold_left fst snd]. rewrite obj_set_fresh.
    + rewrite IH; rewrite <- (assoc_L (++)); done.
    + rewrite map_app in Hnd. apply NoDup_app in Hnd as (_ & Hnd & _).
      intros Hin. apply (Hnd key Hin). simpl. left.
    + rewrite keys_prefix in Hord. by apply ordered_app_l in Hord.
Qed.

Lemma parse_members fields :
  Forall (fun kv => parses kv.2) fields →
  forallb (fun kv => json_wf kv.2) fields = true →
  ∀ key v acc k rest, parses v → json_wf v = true →
    NoDup (map fst (acc ++ (key, v) :: fields)) →
    ordered (map fst (acc ++ (key, v) :: fields)) = true →
    parse_from (SKey acc k)
      (sep_by TComma (map member_tokens ((key, v) :: fields)) ++ TRBrace :: rest)
    = parse_from (finish (JObj (acc ++ (key, v) :: fields)) k) rest.
Proof.
  intros Hvs Hwvs key v acc k rest Hv Hwv Hnd Hord.
  rewrite (parse_members_set fields Hvs Hwvs key v acc k rest Hv Hwv).
  by rewrite set_in_order.
Qed.

Lemma number_value_double d : json_wf (JNum d) = true → number_value d = JNum d.
Proof.
  cbn [json_wf]. intros [_ H%bool_decide_eq_true]%andb_prop.
  unfold number_value. by rewrite H.
Qed.

Lemma parse_tokens v : parses v.
Proof.
  induction v as [|b|d|s|vs IH|fields IH|neg] using json_induction;
    intros Hwf k rest.
  - by rewrite (eq_refl : tokens JNull = [TNull]).
  - by destruct b.
  - rewrite (eq_refl : tokens (JNum d) = [TNumber d]).
    cbn [app parse_from parse_step value_step].
    by rewrite (number_value_double d Hwf).
  - by rewrite (eq_refl : tokens (JStr s) = [TString s]).
  - rewrite tokens_arr. cbn [app parse_from parse_step value_step].
    rewrite <- (assoc_L (++)). cbn [json_wf] in Hwf.
    destruct vs as [|v vs]; [done|].
    cbn [forallb] in Hwf. apply andb_prop in Hwf as [Hwv Hwvs].
    inversion_clear IH as [|?? Hv Hvs].
    cbn [map]. destruct vs as [|v' vs'].
    + rewrite sep_by_one, parse_array_open.
      apply (parse_elements [] Hvs Hwvs v [] k rest Hv Hwv).
    + etrans; [|exact (parse_elements (v' :: vs') Hvs Hwvs v [] k rest Hv Hwv)].
      cbn [map]. rewrite !sep_by_more, <- !(assoc_L (++)).
      by rewrite parse_array_open.
  - rewrite tokens_obj. cbn [app parse_from parse_step value_step].
    rewrite <- (assoc_L (++)). cbn [json_wf] in Hwf.
    apply andb_prop in Hwf as [[Hnd%bool_decide_eq_true Hord]%andb_prop Hwf].
    destruct fields as [|[key v] fields]; [done|].
    cbn [forallb] in Hwf. apply andb_prop in Hwf as [Hwv Hwvs].
    inversion_clear IH as [|?? Hv Hvs].
    etrans;
      [|exact (parse_members fields Hvs Hwvs key v [] k rest Hv Hwv Hnd Hord)].
    cbn [map]. destruct fields as [|kv' fields']; by cbn.
  - done.
Qed.

(** [JSON.parse] undoes [JSON.stringify]. *)
Lemma parse_stringify v : json_wf v = true → JSON_parse (JSON_stringify v) = Some v.
Proof.
  intros Hwf. unfold JSON_parse, JSON_stringify, lex.
  rewrite lex_print_tokens.
  - rewrite <- (right_id_L [] (++) (tokens v)). by rewrite (parse_tokens v Hwf).
  - rewrite <- (right_id_L [] (++) (tokens v)). by apply delimited_tokens.
Qed.

(** An object printed from any listing of its properties parses to the
    object the engine builds from that listing. *)
Lemma parse_stringify_object fields :
  forallb (fun kv => json_wf kv.2) fields = true →
  JSON_parse (JSON_stringify (JObj fields))
  = Some (JObj (fold_left (fun a kv => obj_set kv.1 kv.2 a) fields [])).
Proof.
  intros Hwf. unfold JSON_parse, JSON_stringify, lex.
  rewrite lex_print_tokens.
  - rewrite tokens_obj. cbn [app parse_from parse_step value_step].
    destruct fields as [|[key v] fields]; [done|].
    cbn [forallb] in Hwf. apply andb_prop in Hwf as [Hwv Hwvs].
    etrans;
      [|exact (parse_members_set fields
                 (Forall_true _ _ (fun kv => parse_tokens kv.2)) Hwvs
                 key v [] [] [] (parse_tokens v) Hwv)].
    cbn [map]. destruct fields as [|kv' fields']; by cbn.
  - rewrite tokens_obj. cbn [app delimited].
    by apply (delimited_members fields
                (Forall_true _ _ (fun kv => delimited_tokens kv.2)) Hwf).
Qed.

End JsonFacts.

(** * Properties of the settings provider *)

Module SettingsFacts.
Import Json Settings.

Lemma obj_get_app k l1 l2 :
  obj_get k (l1 ++ l2) =
  match obj_get k l1 with
  | Some v => Some v
  | None => obj_get k l2
  end.
Proof.
  induction l1 as [|[k' v'] l1 IH]; simpl; [done|].
  destruct (String.eqb k k'); [done|apply IH].
Qed.

Lemma lookup_spread (props : list (string * json)) :
  ∀ (base : gmap string json) k,
    foldl (fun m kv => <[kv.1 := kv.2]> m) base props !! k =
    match obj_get k (rev props) with
    | Some v => Some v
    | None => base !! k
    end.
Proof.
  induction props as [|[k' v'] props IH]; intros base k; simpl; [done|].
  rewrite IH, obj_get_app. simpl.
  destruct (obj_get k (rev props)); [done|].
  destruct (String.eqb_spec k k') as [->|Hne].
  - by rewrite lookup_insert_eq.
  - by rewrite lookup_insert_ne.
Qed.

(** The code units of a text: a letter, an accented letter (two bytes), a
    sign of the basic plane (three bytes), a character beyond it (four
    bytes, two units). *)
Example units_forms :
  units (String "a" (utf8 233 +:+ utf8 8364 +:+ utf8 128512))
  = ["a"; utf8 233; utf8 8364; utf8 55357; utf8 56832].
Proof. vm_compute. reflexivity. Qed.

Lemma initialSettings_parsed text saved :
  JSON_parse text = Some saved →
  initialSettings (Some text) = spread_over defaultSettings saved.
Proof.
  intros Hp. unfold initialSettings. destruct text; [discriminate Hp|]. by rewrite Hp.
Qed.

Lemma obj_get_list_to_map k (l : list (string * json)) :
  obj_get k l = (list_to_map l : gmap string json) !! k.
Proof.
  induction l as [|[k' v'] l IH]; simpl; [done|].
  destruct (String.eqb_spec k k') as [->|Hne].
  - by rewrite lookup_insert_eq.
  - by rewrite lookup_insert_ne.
Qed.

Lemma map_fst_fmap (l : list (string * json)) : map fst l = l.*1.
Proof. induction l as [|x l IH]; [done|]. simpl. by rewrite IH. Qed.

Lemma list_to_map_rev (l : list (string * json)) :
  NoDup (map fst l) → (list_to_map (rev l) : gmap string json) = list_to_map l.
Proof.
  rewrite map_fst_fmap. intros Hnd. symmetry.
  apply list_to_map_proper; [done|]. apply Permutation_rev.
Qed.

(** The elements of a list under their indices: each index once. *)
Lemma indexed_get {A} (f : A → json) (l : list A) (i : nat) (x : A) :
  l !! i = Some x →
  obj_get (pretty i) (rev (imap (fun j y => (pretty j, f y)) l)) = Some (f x).
Proof.
  intros Hi.
  assert (Hnd : NoDup (imap (fun j (y : A) => (pretty j, f y)) l).*1).
  { apply NoDup_alt. intros a b k. rewrite !list_lookup_fmap, !list_lookup_imap.
    destruct (l !! a), (l !! b); simpl; try done.
    intros [= <-] [= E]. by apply (inj pretty) in E. }
  rewrite obj_get_list_to_map, list_to_map_rev by (by rewrite map_fst_fmap).
  apply elem_of_list_to_map_1; [done|].
  apply (list_elem_of_lookup_2 _ i). by rewrite list_lookup_imap, Hi.
Qed.

(** C9. Initial settings: the defaults when nothing is stored or the stored
    text is empty or not JSON; otherwise the defaults overridden key by key
    by what was stored, every default key still being present.  A stored
    object overrides with its properties, a stored array with its elements
    and a stored text with its code units, under their indices, and a
    stored null, boolean or number with nothing. *)
Theorem initialSettings_defaults_overridden (text : string) (saved : json) :
  JSON_parse text = Some saved →
  initialSettings None = defaultSettings
  ∧ initialSettings (Some "") = defaultSettings
  ∧ (∀ other, JSON_parse other = None → initialSettings (Some other) = defaultSettings)
  ∧ (∀ fields, saved = JObj fields →
       ∀ k, initialSettings (Some text) !! k =
            match obj_get k (rev fields) with
            | Some v => Some v
            | None => defaultSettings !! k
            end)
  ∧ (∀ vs, saved = JArr vs →
       ∀ i v, vs !! i = Some v → initialSettings (Some text) !! pretty i = Some v)
  ∧ (∀ s, saved = JStr s →
       ∀ i u, units s !! i = Some u →
              initialSettings (Some text) !! pretty i = Some (JStr u))
  ∧ (saved = JNull ∨ (∃ b, saved = JBool b) ∨ (∃ d, saved = JNum d)
     ∨ (∃ neg, saved = JInf neg) →
     initialSettings (Some text) = defaultSettings)
  ∧ dom defaultSettings ⊆ dom (initialSettings (Some text)).
Proof.
  intros Hp. rewrite (initialSettings_parsed text saved Hp).
  split; [done|]. split; [done|]. split.
  { intros other Ho. unfold initialSettings. destruct other; [done|]. by rewrite Ho. }
  split.
  { intros fields -> k. unfold spread_over. apply lookup_spread. }
  split.
  { intros vs -> i v Hi. unfold spread_over. rewrite lookup_spread.
    cbn [own_props]. by rewrite (indexed_get (fun x => x) vs i v Hi). }
  split.
  { intros t -> i u Hi. unfold spread_over. rewrite lookup_spread.
    cbn [own_props]. by rewrite (indexed_get JStr (units t) i u Hi). }
  split.
  { by intros [->|[[b ->]|[[d ->]|[neg ->]]]]. }
  unfold spread_over. intros k [v Hk]%elem_of_dom. apply elem_of_dom.
  rewrite lookup_spread, Hk. destruct (obj_get k _); eauto.
Qed.

(** C9 at work: a stored locale and a stored setting of the user's own. *)
Lemma initialSettings_defaults_overridden_witness :
  initialSettings (Some stored_french) !! "locale" = Some (JStr "fr-FR")
  ∧ initialSettings (Some stored_french) !! "fontSize"
    = Some (JNum (Decimal false [1; 2]%nat 0))
  ∧ initialSettings (Some stored_french) !! "currency" = Some (JStr "USD").
Proof.
  pose proof (initialSettings_defaults_overridden stored_french
                (JObj [("locale", JStr "fr-FR");
                       ("fontSize", JNum (Decimal false [1; 2]%nat 0))])
                ltac:(vm_compute; reflexivity)) as (_ & _ & _ & H & _).
  split; [|split]; rewrite (H _ eq_refl); reflexivity.
Defined.

Lemma obj_set_get key value fields :
  obj_get key (obj_set key value fields) = Some value
  ∧ ∀ k, k ≠ key → obj_get k (obj_set key value fields) = obj_get k fields.
Proof.
  induction fields as [|[k' v'] fields [IH1 IH2]]; cbn [obj_set obj_get].
  - rewrite String.eqb_refl. split; [done|].
    intros k Hk. by apply String.eqb_neq in Hk as ->.
  - destruct (String.eqb_spec key k') as [->|Hne]; cbn [obj_get].
    + rewrite String.eqb_refl. split; [done|].
      intros k Hk. by apply String.eqb_neq in Hk as ->.
    + destruct (goes_before key k'); cbn [obj_get].
      * rewrite String.eqb_refl. split; [done|].
        intros k Hk. by apply String.eqb_neq in Hk as ->.
      * apply String.eqb_neq in Hne as ->. split; [done|].
        intros k Hk. destruct (String.eqb k k'); [done|by apply IH2].
Qed.

Lemma obj_get_set_all k fields :
  ∀ acc,
    obj_get k (fold_left (fun a kv => obj_set kv.1 kv.2 a) fields acc)
    = match obj_get k (rev fields) with
      | Some v => Some v
      | None => obj_get k acc
      end.
Proof.
  induction fields as [|[key v] fields IH]; intros acc; [done|].
  cbn [fold_left fst snd rev]. rewrite IH, obj_get_app.
  destruct (obj_get k (rev fields)); [done|]. cbn [obj_get].
  destruct (String.eqb_spec k key) as [->|Hne].
  - apply obj_set_get.
  - by apply obj_set_get.
Qed.




End SettingsFacts.

(** * Properties of [handlePredict] *)

Module ClientFacts.
Import Json Client.

Example parseFloat_forms :
  map parseFloat ["90"; "  12.50e1x"; "-.5"; "5."; "1e"; "abc"; "."; ""; "-Infinity"]
  = [Finite (Decimal false [9]%nat 1); Finite (Decimal false [1; 2; 5]%nat 0);
     Finite (Decimal true [5]%nat (-1)); Finite (Decimal false [5]%nat 0);
     Finite (Decimal false [1]%nat 0); NaN; NaN; NaN; Infinity true].
Proof. reflexivity. Qed.

Example one_prediction :
  run [Predict banana; Reply 0 (Settled (Some reply_B) None)] boot
  = Some (Machine
            (State false (Some reply_B)
               [ToastSuccess "Yield prediction generated successfully!"]
               [request_body banana])
            []).
Proof. reflexivity. Qed.

Lemma is_empty_true s : is_empty s = true ↔ s = "".
Proof. by destruct s. Qed.

Lemma is_empty_false s : is_empty s = false ↔ s ≠ "".
Proof. by destruct s. Qed.

Lemma missingFields_nil f :
  missingFields f = [] ↔
  humidity f ≠ "" ∧ moisture f ≠ "" ∧ temperature f ≠ "" ∧ rainfall f ≠ "" ∧ area f ≠ "".
Proof.
  destruct f as [c s h m t r a]. unfold missingFields, requiredFields.
  destruct h, m, t, r, a; cbn; split; intros; destruct_and?; done.
Qed.

Lemma validate_cases f :
  ((cropType f = "" ∨ soilType f = "")
   ∧ validate f = Some "Please select crop type and soil type")
  ∨ (cropType f ≠ "" ∧ soilType f ≠ ""
     ∧ ¬ (humidity f ≠ "" ∧ moisture f ≠ "" ∧ temperature f ≠ ""
          ∧ rainfall f ≠ "" ∧ area f ≠ "")
     ∧ validate f = Some "Please fill in all environmental factors")
  ∨ (cropType f ≠ "" ∧ soilType f ≠ ""
     ∧ (humidity f ≠ "" ∧ moisture f ≠ "" ∧ temperature f ≠ ""
        ∧ rainfall f ≠ "" ∧ area f ≠ "")
     ∧ validate f = None).
Proof.
  unfold validate.
  destruct (is_empty (cropType f)) eqn:Hc; simpl.
  { apply is_empty_true in Hc. auto. }
  destruct (is_empty (soilType f)) eqn:Hs; simpl.
  { apply is_empty_true in Hs. auto. }
  apply is_empty_false in Hc, Hs. right.
  destruct (missingFields f) as [|m ms] eqn:Hm; simpl.
  - apply missingFields_nil in Hm. auto.
  - left. repeat split; try done. intros H%missingFields_nil. congruence.
Qed.

(** C3, as the code has it.  The validator accepts exactly the forms whose
    seven fields are all non-empty, looking at the two categorical fields
    first; a rejected form raises one error toast and issues no call, an
    accepted one issues exactly one. *)
Theorem validate_accepts_iff_all_present (f : formData) (st : state) :
  (validate f = None ↔
     cropType f ≠ "" ∧ soilType f ≠ "" ∧ humidity f ≠ "" ∧ moisture f ≠ ""
     ∧ temperature f ≠ "" ∧ rainfall f ≠ "" ∧ area f ≠ "")
  ∧ (cropType f = "" ∨ soilType f = "" →
       validate f = Some "Please select crop type and soil type")
  ∧ (∀ message, validate f = Some message →
       dispatch f st = add_toast (ToastError (JStr message)) st
       ∧ invocations (dispatch f st) = invocations st)
  ∧ (validate f = None →
       invocations (dispatch f st) = invocations st ++ [request_body f]).
Proof.
  unfold dispatch.
  destruct (validate_cases f) as [[H ->]|[(Hc & Hs & H & ->)|(Hc & Hs & H & ->)]].
  - repeat split; intros; simplify_eq; try done.
    destruct_and?. by destruct H.
  - repeat split; intros; simplify_eq; try done; tauto.
  - repeat split; intros; simplify_eq; try done; tauto.
Qed.

(** C10, as the code has it.  A reply without transport error whose body
    has a truthy [error] property is a failure: the prediction, cleared at
    dispatch, stays cleared, loading ends, and the one toast raised is an
    error toast showing that property. *)
Theorem error_reply_is_failure (f : formData) (st : state) (data e : json) :
  validate f = None →
  get_prop data "error" = Some e →
  truthy e = true →
  let st' := settle (Settled (Some data) None) (dispatch f st) in
  prediction st' = None
  ∧ loading st' = false
  ∧ toasts st' = toasts st ++ [ToastError e].
Proof.
  intros Hv He Ht. unfold dispatch. rewrite Hv. unfold settle.
  destruct data; try discriminate He.
  simpl in He. simpl. rewrite He, Ht. done.
Qed.

(** [handlePredict] by itself, called twice with both calls out: replies
    are applied in the order they arrive and none is discarded; when A's
    call resolves after B's with a successful reply, the prediction shown at
    the end is A's. *)
Lemma late_reply_overwrites (fA fB : formData) (dA : json) (oB : outcome) :
  validate fA = None →
  validate fB = None →
  dA ≠ JNull →
  (∀ e, get_prop dA "error" = Some e → truthy e = false) →
  ∃ m, run [Predict fA; Predict fB; Reply 1 oB; Reply 0 (Settled (Some dA) None)] boot
       = Some m
       ∧ prediction (view m) = Some dA
       ∧ loading (view m) = false
       ∧ in_flight m = [].
Proof.
  intros HA HB Hnull Herr. unfold run, step, boot. rewrite HA, HB.
  unfold dispatch. rewrite HA, HB. simpl.
  eexists. split; [reflexivity|]. simpl.
  unfold settle at 1.
  destruct dA; try done; simpl; try done.
  destruct (obj_get "error" fields) as [e|] eqn:He; [|done].
  by rewrite (Herr e He).
Qed.

(** C3 as stated fails.  A form whose humidity is the text abc is accepted
    and dispatched, though that field is no finite number. *)
Lemma validate_accepts_unparseable :
  ¬ (validate letters = None ↔
       cropType letters ≠ "" ∧ soilType letters ≠ ""
       ∧ finite_number (humidity letters) ∧ finite_number (moisture letters)
       ∧ finite_number (temperature letters) ∧ finite_number (rainfall letters)
       ∧ finite_number (area letters))
  ∧ invocations (dispatch letters initial) = [request_body letters]
  ∧ b_humidity (request_body letters) = NaN.
Proof.
  split; [|done].
  intros [H _]. destruct (H eq_refl) as (_ & _ & [_ [d Hd]] & _).
  vm_compute in Hd. discriminate Hd.
Qed.

(** C10 as stated fails.  A body that has an [error] property holding null
    is shown as a successful prediction. *)
Lemma falsy_error_is_success :
  let st' := settle (Settled (Some null_error_body) None) (dispatch banana initial) in
  get_prop null_error_body "error" = Some JNull
  ∧ prediction st' = Some null_error_body
  ∧ toasts st' = [ToastSuccess "Yield prediction generated successfully!"].
Proof. done. Qed.

(** C10 at work: the error reply of the edge function, had it come with
    status 200. *)
Lemma error_reply_is_failure_witness :
  let data := JObj [("error", JStr "Failed to parse prediction data")] in
  let st' := settle (Settled (Some data) None) (dispatch banana initial) in
  prediction st' = None
  ∧ loading st' = false
  ∧ toasts st' = [ToastError (JStr "Failed to parse prediction data")].
Proof.
  apply (error_reply_is_failure banana initial
           (JObj [("error", JStr "Failed to parse prediction data")])
           (JStr "Failed to parse prediction data")); reflexivity.
Defined.

(** C2 as stated fails.  A is dispatched first and answered last; the
    prediction shown at the end is the one of A's reply, not of B's. *)
Lemma stale_reply_wins :
  ∃ m, run [Predict banana; Predict banana;
            Reply 1 (Settled (Some reply_B) None);
            Reply 0 (Settled (Some reply_A) None)] boot = Some m
       ∧ prediction (view m) = Some reply_A
       ∧ prediction (view m) ≠ Some reply_B.
Proof. eexists. split; [reflexivity|]. split; [reflexivity|discriminate]. Qed.


End ClientFacts.

(** * Properties of the edge function *)

Module EdgeFacts.
Import Json Edge.

Example jsonMatch_is_greedy :
  map jsonMatch ["a{b}c}d"; "}{"; "no braces"; "{"]
  = [Some "{b}c}"; None; None; None].
Proof. reflexivity. Qed.

(** The scenario of the specification: the model's reply, fenced, comes out
    as the structured object, with status 200, after one gateway call. *)
Example scenario_end_to_end :
  let text := fenced "Here is the prediction:" (JSON_stringify (to_json scenario_result)) "" in
  let w := replying (JSON_stringify (envelope text)) in
  (run w scenario_request).2
    = inr (Response 200 (Some (JSON_stringify (to_json scenario_result))) json_headers)
  ∧ fetches (run w scenario_request).1 = [gateway_request "secret" scenario_prompt].
Proof. split; vm_compute; reflexivity. Qed.

Example preflight :
  run no_credential (Request "OPTIONS" "") = ([], inr (Response 200 None corsHeaders)).
Proof. reflexivity. Qed.

(** Doubles: what a literal is read into, by the name it prints under. *)
Example to_double_forms :
  map to_double
    [Decimal false [1] (-1); Decimal false [9;0;0;7;1;9;9;2;5;4;7;4;0;9;9;3] 0;
     Decimal false [1] 23; Decimal false [1] 400; Decimal true [1] 400;
     Decimal false [5] (-324); Decimal false [2] (-324);
     Decimal false [1;2;3;4;5;6;7;8;9;0;1;2;3;4;5;6;7;8;9] (-19);
     Decimal false [1;7;9;7;6;9;3;1;3;4;8;6;2;3;1;5;8] 292]%nat
  = [Some (Decimal false [1] (-1));
     Some (Decimal false [9;0;0;7;1;9;9;2;5;4;7;4;0;9;9;2] 0);
     Some (Decimal false [1] 23); None; None;
     Some (Decimal false [5] (-324)); Some dzero;
     Some (Decimal false [1;2;3;4;5;6;7;8;9;0;1;2;3;4;5;6;8] (-17));
     Some (Decimal false [1;7;9;7;6;9;3;1;3;4;8;6;2;3;1;5;7] 292)]%nat.
Proof. vm_compute. reflexivity. Qed.

(** A number beyond the doubles is read as an infinity and written back as
    [null]; a long fraction comes back rounded. *)
Example numbers_come_back_as_doubles :
  JSON_stringify <$>
    JSON_parse ("{" +:+ q +:+ "x" +:+ q +:+ ":1e400," +:+ q +:+ "y" +:+ q
                +:+ ":0.1234567890123456789}")
  = Some ("{" +:+ q +:+ "x" +:+ q +:+ ":null," +:+ q +:+ "y" +:+ q
          +:+ ":0.12345678901234568}").
Proof. vm_compute. reflexivity. Qed.

Local Opaque systemPrompt prompt_text.

(** How an invocation goes, stage by stage. *)
Lemma run_options w req :
  req_method req = "OPTIONS" → run w req = ([], inr (Response 200 None corsHeaders)).
Proof. intros H. unfold run, serve. by rewrite H. Qed.

Lemma is_null_false v : v ≠ JNull → is_null v = false.
Proof. by destruct v. Qed.

Lemma run_no_key w req body :
  req_method req ≠ "OPTIONS" →
  JSON_parse (req_body req) = Some body → body ≠ JNull →
  is_absent (LOVABLE_API_KEY w) = true →
  run w req = failed [request_log body] "LOVABLE_API_KEY is not configured".
Proof.
  intros Hm Hb Hnull%is_null_false Hkey. unfold run, serve.
  apply String.eqb_neq in Hm as ->.
  unfold try_catch, handler. rewrite Hb, Hnull.
  by destruct (LOVABLE_API_KEY w) as [[|c key]|].
Qed.

(** A field without a text stops the invocation after the credential
    check and before the call. *)
Lemma run_no_prompt w req body key :
  req_method req ≠ "OPTIONS" →
  JSON_parse (req_body req) = Some body → body ≠ JNull →
  LOVABLE_API_KEY w = Some key → key ≠ "" →
  body_prompt body = None →
  run w req = failed [request_log body] (runtime_message w PromptTypeError).
Proof.
  intros Hm Hb Hnull%is_null_false Hkey Hne Hp. unfold run, serve.
  apply String.eqb_neq in Hm as ->.
  unfold try_catch, handler. rewrite Hb, Hnull, Hkey, Hp.
  by destruct key as [|c key].
Qed.

Lemma run_with_key w req body key user status text :
  req_method req ≠ "OPTIONS" →
  JSON_parse (req_body req) = Some body → body ≠ JNull →
  LOVABLE_API_KEY w = Some key → key ≠ "" →
  body_prompt body = Some user →
  gateway w (gateway_request key user) = FetchReply status text →
  run w req =
    match on_gateway_reply w status text
            [request_log body; Fetch (gateway_request key user)] with
    | (tr, inl e) => failed tr (exn_message e)
    | r => r
    end.
Proof.
  intros Hm Hb Hnull%is_null_false Hkey Hne Hp Hg. unfold run, serve.
  apply String.eqb_neq in Hm as ->.
  unfold try_catch, handler. rewrite Hb, Hnull, Hkey, Hp.
  destruct key as [|c key]; [done|].
  unfold fetch. rewrite Hg. unfold mbind, M_bind, bind, emit, ret. simpl.
  by destruct (on_gateway_reply _ _ _ _) as [tr [[m]|r]].
Qed.

Lemma run_bad_status w req body key user status text :
  req_method req ≠ "OPTIONS" →
  JSON_parse (req_body req) = Some body → body ≠ JNull →
  LOVABLE_API_KEY w = Some key → key ≠ "" →
  body_prompt body = Some user →
  gateway w (gateway_request key user) = FetchReply status text →
  response_ok status = false →
  run w req =
    if (status =? 429)%N then
      ([request_log body; Fetch (gateway_request key user)],
       inr (Response 429 (error_body "Rate limits exceeded. Please try again later.")
              json_headers))
    else if (status =? 402)%N then
      ([request_log body; Fetch (gateway_request key user)],
       inr (Response 402
              (error_body "Payment required. Please add credits to your workspace.")
              json_headers))
    else
      failed [request_log body; Fetch (gateway_request key user);
              ConsoleError "AI gateway error:" [ANum status; AVal (Some (JStr text))]]
        ("AI gateway error: " +:+ pretty status).
Proof.
  intros Hm Hb Hnull Hkey Hne Hp Hg Hok.
  rewrite (run_with_key w req body key user status text) by done.
  unfold on_gateway_reply. rewrite Hok. simpl.
  by destruct (status =? 429)%N, (status =? 402)%N.
Qed.

Lemma run_before_key w req :
  req_method req ≠ "OPTIONS" →
  match JSON_parse (req_body req) with
  | None => run w req = failed [] (runtime_message w BodySyntaxError)
  | Some body =>
      body = JNull → run w req = failed [] (runtime_message w DestructureTypeError)
  end.
Proof.
  intros Hm. unfold run, serve. apply String.eqb_neq in Hm as ->.
  unfold try_catch, handler. destruct (JSON_parse (req_body req)); [|done].
  by intros ->.
Qed.

Lemma run_fetch_failed w req body key user :
  req_method req ≠ "OPTIONS" →
  JSON_parse (req_body req) = Some body → body ≠ JNull →
  LOVABLE_API_KEY w = Some key → key ≠ "" →
  body_prompt body = Some user →
  gateway w (gateway_request key user) = FetchFailed →
  run w req = failed [request_log body; Fetch (gateway_request key user)]
                (runtime_message w FetchTypeError).
Proof.
  intros Hm Hb Hnull%is_null_false Hkey Hne Hp Hg. unfold run, serve.
  apply String.eqb_neq in Hm as ->.
  unfold try_catch, handler. rewrite Hb, Hnull, Hkey, Hp.
  destruct key as [|c key]; [done|].
  unfold fetch. rewrite Hg. done.
Qed.

Lemma fetches_app tr1 tr2 : fetches (tr1 ++ tr2) = fetches tr1 ++ fetches tr2.
Proof. apply omap_app. Qed.

(** Nothing after the gateway call calls out again. *)
Lemma on_gateway_reply_fetches w status text tr :
  fetches (on_gateway_reply w status text tr).1 = fetches tr.
Proof.
  unfold on_gateway_reply, member, first, normalize.
  unfold mbind, M_bind, bind, emit, ret, throw.
  repeat (case_match; simplify_eq/=; rewrite ?fetches_app, ?app_nil_r; try done).
Qed.

(** An invocation calls the gateway at most once, and then with the request
    built from the stored key and the parsed body. *)
Lemma run_fetches w req :
  fetches (run w req).1 = []
  ∨ ∃ key body user,
      LOVABLE_API_KEY w = Some key ∧ key ≠ ""
      ∧ JSON_parse (req_body req) = Some body
      ∧ body_prompt body = Some user
      ∧ fetches (run w req).1 = [gateway_request key user].
Proof.
  destruct (decide (req_method req = "OPTIONS")) as [Hm|Hm].
  { left. by rewrite run_options. }
  pose proof (run_before_key w req Hm) as Hpre.
  destruct (JSON_parse (req_body req)) as [body|] eqn:Hb; [|left; by rewrite Hpre].
  destruct (is_null body) eqn:Hn.
  { left. rewrite Hpre; [done|by destruct body]. }
  assert (Hnull : body ≠ JNull) by (by intros ->).
  destruct (is_absent (LOVABLE_API_KEY w)) eqn:Hkey.
  { left. by rewrite (run_no_key w req body). }
  destruct (LOVABLE_API_KEY w) as [key|] eqn:Hk; [|done].
  assert (key ≠ "") by (by intros ->).
  destruct (body_prompt body) as [user|] eqn:Hp.
  2: { left. by rewrite (run_no_prompt w req body key). }
  right. exists key, body, user. repeat split; try done.
  destruct (gateway w (gateway_request key user)) as [|status text] eqn:Hg.
  - by rewrite (run_fetch_failed w req body key user).
  - rewrite (run_with_key w req body key user status text) by done.
    pose proof (on_gateway_reply_fetches w status text
                  [request_log body; Fetch (gateway_request key user)]) as Hf.
    destruct (on_gateway_reply _ _ _ _) as [tr [[m]|r]]; simpl in *.
    + by rewrite fetches_app, Hf.
    + done.
Qed.

(** C6. Without a credential the gateway is never called; an invocation
    that got as far as the credential check (a request other than the
    preflight, with a body that destructures) answers 500 with the
    configuration error. *)
Theorem missing_credential_stops_before_fetch (w : env) (req : request) :
  is_absent (LOVABLE_API_KEY w) = true →
  fetches (run w req).1 = []
  ∧ ∀ body,
      req_method req ≠ "OPTIONS" →
      JSON_parse (req_body req) = Some body → body ≠ JNull →
      (run w req).2
        = inr (Response 500 (error_body "LOVABLE_API_KEY is not configured") json_headers).
Proof.
  intros Hkey. split.
  - destruct (run_fetches w req) as [H|(key & body & user & Hk & Hne & _)]; [done|].
    rewrite Hk in Hkey. by destruct key.
  - intros body Hm Hb Hnull. by rewrite (run_no_key w req body).
Qed.

(** C6 at work, on the scenario request. *)
Lemma missing_credential_stops_before_fetch_witness :
  fetches (run no_credential scenario_request).1 = []
  ∧ (run no_credential scenario_request).2
      = inr (Response 500 (error_body "LOVABLE_API_KEY is not configured") json_headers).
Proof.
  destruct (missing_credential_stops_before_fetch no_credential scenario_request eq_refl)
    as [Hf Hr].
  split; [exact Hf|].
  eapply Hr; [discriminate|vm_compute; reflexivity|discriminate].
Defined.

Lemma error_text_inj m1 m2 :
  JSON_stringify (JObj [("error", JStr m1)]) = JSON_stringify (JObj [("error", JStr m2)]) →
  m1 = m2.
Proof.
  intros H.
  assert (H1 : JSON_parse (JSON_stringify (JObj [("error", JStr m1)]))
               = Some (JObj [("error", JStr m1)])) by (by apply JsonFacts.parse_stringify).
  rewrite H, JsonFacts.parse_stringify in H1 by done. by simplify_eq.
Qed.

(** C5. A non-2xx reply of the gateway: 429 and 402 are passed on with
    their own status and an [error] message of their own; any other status
    becomes a 500 whose [error] message carries the status, and the status
    can be read back from the body. *)
Theorem gateway_failure_classified (w : env) (req : request) (body : json)
  (key user : string) (status : N) (text : string) :
  req_method req ≠ "OPTIONS" →
  JSON_parse (req_body req) = Some body → body ≠ JNull →
  LOVABLE_API_KEY w = Some key → key ≠ "" →
  body_prompt body = Some user →
  gateway w (gateway_request key user) = FetchReply status text →
  response_ok status = false →
  (status = 429%N →
     (run w req).2
       = inr (Response 429
                (Some (JSON_stringify
                         (JObj [("error",
                                 JStr "Rate limits exceeded. Please try again later.")])))
                json_headers))
  ∧ (status = 402%N →
       (run w req).2
         = inr (Response 402
                  (Some (JSON_stringify
                           (JObj [("error",
                                   JStr "Payment required. Please add credits to your workspace.")])))
                  json_headers))
  ∧ (status ≠ 429%N → status ≠ 402%N →
       (run w req).2
         = inr (Response 500
                  (Some (JSON_stringify
                           (JObj [("error", JStr ("AI gateway error: " +:+ pretty status))])))
                  json_headers))
  ∧ (∀ status' : N,
       JSON_stringify (JObj [("error", JStr ("AI gateway error: " +:+ pretty status'))])
       = JSON_stringify (JObj [("error", JStr ("AI gateway error: " +:+ pretty status))]) →
       status' = status).
Proof.
  intros Hm Hb Hnull Hkey Hne Hp Hg Hok.
  rewrite (run_bad_status w req body key user status text) by done.
  repeat split.
  - by intros ->.
  - by intros ->.
  - intros H1%N.eqb_neq H2%N.eqb_neq. by rewrite H1, H2.
  - intros status' H%error_text_inj. by apply (inj (String.app _)), (inj pretty) in H.
Qed.

(** C5 at work, for the statuses 429, 402 and 503, with the texts sent. *)
Lemma gateway_failure_classified_witness :
  (run (answering 429) scenario_request).2
    = inr (Response 429
             (Some (error_text "Rate limits exceeded. Please try again later."))
             json_headers)
  ∧ (run (answering 402) scenario_request).2
      = inr (Response 402
               (Some (error_text "Payment required. Please add credits to your workspace."))
               json_headers)
  ∧ (run (answering 503) scenario_request).2
      = inr (Response 500 (Some (error_text "AI gateway error: 503")) json_headers).
Proof.
  assert (Hb : ∃ body, JSON_parse (req_body scenario_request) = Some body ∧ body ≠ JNull
                       ∧ body_prompt body = Some scenario_prompt).
  { eexists. split; [vm_compute; reflexivity|]. split; [discriminate|].
    vm_compute. reflexivity. }
  destruct Hb as (body & Hb & Hnull & Hp).
  split; [|split].
  - eapply (gateway_failure_classified (answering 429) scenario_request body "secret"
              scenario_prompt 429); try done.
  - eapply (gateway_failure_classified (answering 402) scenario_request body "secret"
              scenario_prompt 402); try done.
  - eapply (gateway_failure_classified (answering 503) scenario_request body "secret"
              scenario_prompt 503); try done.
Defined.

(** C7. The two prompts sent to the gateway are a function of the request
    body alone: two invocations on the same body, in whatever environments,
    send the same messages, and the system prompt is the same text for every
    input. *)
Theorem prompts_depend_on_input_only (w1 w2 : env) (req1 req2 : request)
  (o1 o2 : outbound) :
  o1 ∈ fetches (run w1 req1).1 →
  o2 ∈ fetches (run w2 req2).1 →
  (∃ user1 user2,
      o_messages o1 = [("system", systemPrompt); ("user", user1)]
      ∧ o_messages o2 = [("system", systemPrompt); ("user", user2)])
  ∧ (req_body req1 = req_body req2 → o_messages o1 = o_messages o2).
Proof.
  intros H1 H2.
  destruct (run_fetches w1 req1) as [E1|(k1 & b1 & u1 & _ & _ & Hb1 & Hp1 & E1)];
    rewrite E1 in H1; [by apply elem_of_nil in H1|].
  destruct (run_fetches w2 req2) as [E2|(k2 & b2 & u2 & _ & _ & Hb2 & Hp2 & E2)];
    rewrite E2 in H2; [by apply elem_of_nil in H2|].
  apply list_elem_of_singleton in H1 as ->. apply list_elem_of_singleton in H2 as ->.
  split; [by eexists _, _|].
  intros Heq. rewrite Heq in Hb1. by simplify_eq.
Qed.

(** ** Brace extraction *)

Lemma absent_app c s t : absent c (s +:+ t) = absent c s && absent c t.
Proof.
  induction s as [|c' s IH]; [done|].
  rewrite JsonFacts.app_cons. simpl. by rewrite IH, andb_assoc.
Qed.

Lemma jsonMatch_skip pre s :
  absent "{" pre = true → jsonMatch (pre +:+ s) = jsonMatch s.
Proof.
  induction pre as [|c pre IH]; [done|]. cbn [absent].
  intros [Hc%negb_true_iff H]%andb_prop.
  rewrite JsonFacts.app_cons. cbn [jsonMatch]. rewrite Hc. by apply IH.
Qed.

Lemma greedy_none s : absent "}" s = true → greedy_to_rbrace s = None.
Proof.
  induction s as [|c s IH]; [done|]. simpl.
  intros [Hc%negb_true_iff H]%andb_prop. by rewrite (IH H), Hc.
Qed.

Lemma greedy_last s post :
  absent "}" post = true →
  greedy_to_rbrace (s +:+ String "}" post) = Some (s +:+ "}").
Proof.
  intros H. induction s as [|c s IH].
  - rewrite !JsonFacts.app_nil_l. simpl. by rewrite (greedy_none post H).
  - rewrite !JsonFacts.app_cons. simpl. by rewrite IH.
Qed.

(** The match runs from the first opening brace to the last closing one. *)
Lemma jsonMatch_braces pre body post :
  absent "{" pre = true → absent "}" post = true →
  jsonMatch (pre +:+ String "{" (body +:+ String "}" post))
  = Some (String "{" (body +:+ "}")).
Proof.
  intros Hpre Hpost. rewrite (jsonMatch_skip pre _ Hpre). simpl.
  by rewrite (greedy_last body post Hpost).
Qed.

Lemma print_tokens_app ts1 ts2 :
  print_tokens (ts1 ++ ts2) = print_tokens ts1 +:+ print_tokens ts2.
Proof.
  induction ts1 as [|t ts1 IH]; [done|].
  simpl. by rewrite IH, JsonFacts.app_assoc.
Qed.

Lemma stringify_object fields :
  ∃ body, JSON_stringify (JObj fields) = String "{" (body +:+ "}").
Proof.
  unfold JSON_stringify. rewrite JsonFacts.tokens_obj.
  eexists. cbn [print_tokens print_token]. rewrite print_tokens_app.
  reflexivity.
Qed.

Lemma jsonMatch_fenced pre fields post :
  absent "{" pre = true → absent "}" post = true →
  jsonMatch (fenced pre (JSON_stringify (JObj fields)) post)
  = Some (JSON_stringify (JObj fields)).
Proof.
  intros Hpre Hpost. destruct (stringify_object fields) as [body ->].
  unfold fenced.
  replace (pre +:+ "```json" +:+ nl +:+ String "{" (body +:+ "}") +:+ nl +:+ "```" +:+ post)
    with ((pre +:+ "```json" +:+ nl)
          +:+ String "{" (body +:+ String "}" (nl +:+ "```" +:+ post))).
  - apply jsonMatch_braces.
    + by rewrite absent_app, Hpre.
    + by rewrite !absent_app, Hpost.
  - rewrite !JsonFacts.app_assoc. do 3 f_equal.
    by rewrite (JsonFacts.app_cons "{"), (JsonFacts.app_assoc body).
Qed.

Lemma to_json_wf r : result_wf r = true → json_wf (to_json r) = true.
Proof.
  unfold result_wf. intros [[H1 H2]%andb_prop H3]%andb_prop.
  unfold to_json. cbn -[canonical]. rewrite H1, H2, H3. simpl.
  assert (forallb json_wf (map risk_to_json (diseaseRisks r)) = true) as ->.
  { induction (diseaseRisks r) as [|d ds IH]; [done|]. simpl. by rewrite IH. }
  assert (forallb json_wf (map JStr (keyFactors r)) = true) as ->.
  { by induction (keyFactors r). }
  assert (forallb json_wf (map JStr (recommendations r)) = true) as ->.
  { by induction (recommendations r). }
  done.
Qed.

(** C4, as the code has it.  A well-formed result, serialized and wrapped in
    a fenced block, comes back from the Normalizer as the same value,
    provided no opening brace stands before the block and no closing brace
    after it. *)
Theorem fenced_result_round_trip (r : PredictionResult) (pre post : string)
  (tr : list event) :
  result_wf r = true →
  absent "{" pre = true →
  absent "}" post = true →
  normalize (Some (JStr (fenced pre (JSON_stringify (to_json r)) post))) tr
  = (tr, inr (to_json r)).
Proof.
  intros Hwf Hpre Hpost. unfold normalize, extract.
  unfold to_json at 1. rewrite (jsonMatch_fenced pre _ post Hpre Hpost).
  fold (to_json r). by rewrite (JsonFacts.parse_stringify _ (to_json_wf r Hwf)).
Qed.

(** C4 at work, on the scenario result. *)
Lemma fenced_result_round_trip_witness :
  normalize
    (Some (JStr (fenced "Here is the prediction you asked for:"
                   (JSON_stringify (to_json scenario_result))
                   "Tell me if you need more detail."))) []
  = ([], inr (to_json scenario_result)).
Proof.
  apply (fenced_result_round_trip scenario_result
           "Here is the prediction you asked for:"
           "Tell me if you need more detail." []); reflexivity.
Defined.

(** C4 as stated fails.  With a closing brace in the trailing text the match
    runs past the fenced block, and what it takes is not JSON. *)
Lemma brace_in_trailing_text_breaks_round_trip :
  result_wf scenario_result = true
  ∧ ∃ tr, normalize
            (Some (JStr (fenced "Here is the prediction you asked for:"
                           (JSON_stringify (to_json scenario_result))
                           "Yields are in {t/ha}."))) []
          = (tr, inl (Error "Failed to parse prediction data")).
Proof. split; [reflexivity|]. eexists. vm_compute. reflexivity. Qed.

(** ** What the Normalizer lets through *)

Lemma normalize_text content tr :
  normalize (Some (JStr content)) tr =
  match JSON_parse (default content (jsonMatch content)) with
  | Some prediction => (tr, inr prediction)
  | None =>
      (tr ++ [ConsoleError "Failed to parse AI response:" [AVal (Some (JStr content))]],
       inl (Error "Failed to parse prediction data"))
  end.
Proof.
  unfold normalize, extract.
  destruct (jsonMatch content) as [m|]; simpl;
    by destruct (JSON_parse _).
Qed.

Lemma member_some w v name x tr :
  get_prop v name = Some x → member w (Some v) name tr = (tr, inr (Some x)).
Proof. intros H. destruct v; try discriminate H; unfold member, ret; by rewrite H. Qed.

Lemma on_gateway_reply_content w status text tr data choice others message content :
  response_ok status = true →
  JSON_parse text = Some data →
  get_prop data "choices" = Some (JArr (choice :: others)) →
  get_prop choice "message" = Some message →
  get_prop message "content" = Some (JStr content) →
  on_gateway_reply w status text tr =
  match normalize (Some (JStr content))
          (tr ++ [ConsoleLog "AI response:" [AVal (Some (JStr content))]]) with
  | (tr', inr prediction) =>
      (tr', inr (Response 200 (Some (JSON_stringify prediction)) json_headers))
  | (tr', inl e) => (tr', inl e)
  end.
Proof.
  intros Hok Hp Hchoices Hmessage Hcontent.
  unfold on_gateway_reply. rewrite Hok, Hp. cbn [negb].
  unfold mbind, M_bind, bind.
  rewrite (member_some _ _ _ _ _ Hchoices). cbv beta iota.
  unfold first, ret at 1. cbv beta iota. cbn [head].
  rewrite (member_some _ _ _ _ _ Hmessage). cbv beta iota.
  rewrite (member_some _ _ _ _ _ Hcontent). cbv beta iota.
  unfold emit. cbv beta iota.
  by destruct (normalize _ _) as [tr' [e|p]].
Qed.

(** C1, as the code has it.  Whatever the JSON parse of the extracted text
    yields is written out again by [JSON.stringify] and answered with
    status 200: no field is looked at and none is filled in.  Only when
    that parse fails is the reply a failure, with status 500 and a fixed
    message, the raw text going to the error log. *)
Theorem parsed_reply_returned_as_is (w : env) (req : request) (body : json)
  (key user : string) (status : N) (text : string)
  (data choice : json) (others : list json) (message : json) (content : string) :
  req_method req ≠ "OPTIONS" →
  JSON_parse (req_body req) = Some body → body ≠ JNull →
  LOVABLE_API_KEY w = Some key → key ≠ "" →
  body_prompt body = Some user →
  gateway w (gateway_request key user) = FetchReply status text →
  response_ok status = true →
  JSON_parse text = Some data →
  get_prop data "choices" = Some (JArr (choice :: others)) →
  get_prop choice "message" = Some message →
  get_prop message "content" = Some (JStr content) →
  (∀ prediction,
     JSON_parse (default content (jsonMatch content)) = Some prediction →
     (run w req).2
       = inr (Response 200 (Some (JSON_stringify prediction)) json_headers))
  ∧ (JSON_parse (default content (jsonMatch content)) = None →
     (run w req).2
       = inr (Response 500
                (Some (JSON_stringify
                         (JObj [("error", JStr "Failed to parse prediction data")])))
                json_headers)
     ∧ ConsoleError "Failed to parse AI response:" [AVal (Some (JStr content))]
       ∈ (run w req).1).
Proof.
  intros Hm Hb Hnull Hkey Hne Hu Hg Hok Hp Hchoices Hmessage Hcontent.
  rewrite (run_with_key w req body key user status text) by done.
  rewrite (on_gateway_reply_content w status text _ data choice others message content)
    by done.
  rewrite normalize_text. split.
  - by intros prediction ->.
  - intros ->. split; [done|]. unfold failed. cbn [fst].
    rewrite !elem_of_app, !list_elem_of_singleton. auto.
Qed.

(** C1 at work: a text with one required field out of seven, and the text
    that is answered; a text without an object, and the failure that is
    answered. *)
Lemma parsed_reply_returned_as_is_witness :
  (run (replying (JSON_stringify (envelope partial_text))) scenario_request).2
  = inr (Response 200 (Some ("{" +:+ q +:+ "yieldPerHectare" +:+ q +:+ ":28.5}"))
           json_headers)
  ∧ (run (replying (JSON_stringify (envelope "no estimate"))) scenario_request).2
    = inr (Response 500 (Some (error_text "Failed to parse prediction data"))
             json_headers).
Proof.
  split.
  - refine (proj1 (parsed_reply_returned_as_is
                     (replying (JSON_stringify (envelope partial_text)))
                     scenario_request scenario_body "secret" scenario_prompt 200
                     (JSON_stringify (envelope partial_text))
                     (envelope partial_text)
                     (JObj [("message", JObj [("content", JStr partial_text)])]) []
                     (JObj [("content", JStr partial_text)]) partial_text
                     _ _ _ _ _ _ _ _ _ _ _ _) partial_answer _);
      try discriminate; try reflexivity; vm_compute; reflexivity.
  - refine (proj1 (proj2 (parsed_reply_returned_as_is
                     (replying (JSON_stringify (envelope "no estimate")))
                     scenario_request scenario_body "secret" scenario_prompt 200
                     (JSON_stringify (envelope "no estimate"))
                     (envelope "no estimate")
                     (JObj [("message", JObj [("content", JStr "no estimate")])]) []
                     (JObj [("content", JStr "no estimate")]) "no estimate"
                     _ _ _ _ _ _ _ _ _ _ _ _) _));
      try discriminate; try reflexivity; vm_compute; reflexivity.
Defined.

(** C1 as stated fails.  The model's text parses to an object that has
    [yieldPerHectare] alone; it is answered with status 200, as it is. *)
Lemma missing_fields_pass_through :
  (run (replying (JSON_stringify (envelope partial_text))) scenario_request).2
  = inr (Response 200 (Some (JSON_stringify partial_answer)) json_headers)
  ∧ JSON_parse (default partial_text (jsonMatch partial_text)) = Some partial_answer
  ∧ filter (fun field => get_prop partial_answer field = None) required_fields
    = ["totalProduction"; "confidenceLevel"; "qualityGrade"; "keyFactors";
       "recommendations"; "analysis"].
Proof.
  split; [vm_compute; reflexivity|]. split; [vm_compute; reflexivity|].
  reflexivity.
Qed.

(** C7 at work: two environments, two credentials, one body. *)
Lemma prompts_depend_on_input_only_witness :
  o_messages (gateway_request "secret" scenario_prompt)
  = o_messages (gateway_request "other" scenario_prompt).
Proof.
  refine (proj2 (prompts_depend_on_input_only (answering 503) other_credential
                   scenario_request scenario_request
                   (gateway_request "secret" scenario_prompt)
                   (gateway_request "other" scenario_prompt) _ _) eq_refl);
    vm_compute; left.
Defined.

End EdgeFacts.

(** * More on the edge function: every path of [serve] *)

Module EdgeMore.
Import Json Edge.

Lemma prompt_text_start cropType soilType humidity moisture temperature rainfall area :
  ∃ rest, prompt_text cropType soilType humidity moisture temperature rainfall area
          = "Predict the yield for " +:+ cropType +:+ rest.
Proof. unfold prompt_text. by eexists. Qed.

Local Opaque systemPrompt prompt_text.

Lemma to_string_scalar v : scalar v = true → ∃ t, to_string v = Some t.
Proof. destruct v as [[|[]| | | | |[]]|]; try done; by eexists. Qed.

Lemma to_string_own_toString fields :
  obj_get "toString" fields ≠ None → to_string (Some (JObj fields)) = None.
Proof. cbn [to_string json_to_string]. by destruct (obj_get "toString" fields). Qed.

(** What [on_gateway_reply] can answer without throwing. *)
Lemma on_gateway_reply_answer w status text tr tr' r :
  on_gateway_reply w status text tr = (tr', inr r) →
  r_headers r = json_headers
  ∧ (r_status r = 429%N ∧ status = 429%N ∧ response_ok status = false
     ∨ r_status r = 402%N ∧ status = 402%N ∧ response_ok status = false
     ∨ r_status r = 200%N ∧ response_ok status = true
       ∧ ∃ content v,
           r_body r = Some (JSON_stringify v)
           ∧ tr' = tr ++ [ConsoleLog "AI response:" [AVal (Some (JStr content))]]
           ∧ JSON_parse (default content (jsonMatch content)) = Some v).
Proof.
  unfold on_gateway_reply.
  destruct (response_ok status) eqn:Hok; cbn [negb].
  - destruct (JSON_parse text) as [data|]; [|discriminate].
    unfold mbind, M_bind, bind, member, first, emit, ret, throw.
    intros H.
    repeat (case_match; simplify_eq/=);
      match goal with
      | H : normalize ?c ?t = _ |- _ =>
          try (destruct c as [[| | |content| | |]|];
               try (unfold normalize, extract in H; simpl in H; discriminate H))
      end.
    all: rewrite EdgeFacts.normalize_text in *.
    all: destruct (JSON_parse (default _ _)) as [p|] eqn:Hp; simplify_eq.
    all: split; [done|]; right; right; eauto 10.
  - destruct (status =? 429)%N eqn:H1; [apply N.eqb_eq in H1; intros [= <- <-]; auto|].
    destruct (status =? 402)%N eqn:H2; [apply N.eqb_eq in H2; intros [= <- <-]; auto 6|].
    discriminate.
Qed.

Lemma run_path w req : path w req.
Proof.
  destruct (decide (req_method req = "OPTIONS")) as [Hm|Hm].
  { apply Preflight; [done|]. by apply EdgeFacts.run_options. }
  pose proof (EdgeFacts.run_before_key w req Hm) as Hpre.
  destruct (JSON_parse (req_body req)) as [body|] eqn:Hb;
    [|by eapply (StoppedEarly w req [])].
  destruct (is_null body) eqn:Hn.
  { eapply (StoppedEarly w req []); [done..|]. apply Hpre. by destruct body. }
  assert (Hnull : body ≠ JNull) by (by intros ->).
  destruct (is_absent (LOVABLE_API_KEY w)) eqn:Hkey.
  { eapply (StoppedEarly w req [request_log body]); [done..|].
    by apply EdgeFacts.run_no_key. }
  destruct (LOVABLE_API_KEY w) as [key|] eqn:Hk; [|done].
  assert (key ≠ "") by (by intros ->).
  destruct (body_prompt body) as [user|] eqn:Hp.
  2: { eapply (StoppedEarly w req [request_log body]); [done..|].
       by apply (EdgeFacts.run_no_prompt w req body key). }
  destruct (gateway w (gateway_request key user)) as [|status text] eqn:Hg.
  - eapply Unreachable; try done. by apply EdgeFacts.run_fetch_failed.
  - eapply Replied; try done. by apply EdgeFacts.run_with_key.
Qed.

(** X1. [serve] always answers: whatever the environment and the request,
    an invocation ends in a response (no exception escapes the outer catch);
    its status is 200, 429, 402 or 500 and it carries the CORS headers. *)
Theorem serve_always_answers (w : env) (req : request) :
  ∃ r, (run w req).2 = inr r
       ∧ r_status r ∈ [200; 429; 402; 500]%N
       ∧ corsHeaders ⊆ r_headers r.
Proof.
  assert (Hcors : corsHeaders ⊆ json_headers).
  { intros x Hx. unfold json_headers. apply elem_of_app. by left. }
  assert (Hin : ∀ n : N, n = 200%N ∨ n = 429%N ∨ n = 402%N ∨ n = 500%N →
                         n ∈ [200; 429; 402; 500]%N).
  { intros n H. rewrite !elem_of_cons. tauto. }
  destruct (run_path w req) as [_ ->|tr m _ _ ->|key body user _ _ _ _ _ _ _ ->
                                |key body user status text _ _ _ _ _ _ _ ->].
  - eexists. split; [done|]. split; [apply Hin; auto|done].
  - eexists. split; [done|]. split; [apply Hin; auto|done].
  - eexists. split; [done|]. split; [apply Hin; auto|done].
  - destruct (on_gateway_reply _ _ _ _) as [tr [e|r]] eqn:E.
    + eexists. split; [done|]. split; [apply Hin; auto|done].
    + apply on_gateway_reply_answer in E as [Hh Hs].
      exists r. split; [done|]. rewrite Hh. split; [|done].
      apply Hin. destruct Hs as [(? & _)|[(? & _)|(? & _)]]; auto.
Qed.

(** X2. One call at most, and always the same kind of call: whatever an
    invocation sends goes by POST to the one gateway address, as JSON, with
    the stored credential as bearer token, the fixed model and temperature
    0.7; nothing is sent twice, so there is no retry. *)
Theorem gateway_call_is_single_and_fixed (w : env) (req : request) :
  length (fetches (run w req).1) ≤ 1
  ∧ ∀ o, o ∈ fetches (run w req).1 →
      o_url o = "https://ai.gateway.lovable.dev/v1/chat/completions"
      ∧ o_method o = "POST"
      ∧ o_content_type o = "application/json"
      ∧ o_model o = "google/gemini-2.5-flash"
      ∧ o_temperature o = Decimal false [7]%nat (-1)
      ∧ ∃ key, LOVABLE_API_KEY w = Some key ∧ key ≠ ""
               ∧ o_authorization o = "Bearer " +:+ key.
Proof.
  destruct (EdgeFacts.run_fetches w req) as [->|(key & body & user & Hk & Hne & _ & _ & ->)].
  - split; [simpl; lia|]. by intros o ?%elem_of_nil.
  - split; [simpl; lia|]. intros o ->%list_elem_of_singleton.
    repeat split; try done. by exists key.
Qed.

Ltac in_fields :=
  unfold prompt_fields;
  repeat first [apply list_elem_of_here | apply list_elem_of_further].

Lemma body_prompt_scalars body :
  (∀ name, name ∈ prompt_fields → scalar (get_prop body name) = true) →
  ∃ user, body_prompt body = Some user.
Proof.
  intros H. unfold body_prompt, userPrompt.
  assert (Hs : ∀ name, name ∈ prompt_fields → ∃ t, to_string (get_prop body name) = Some t).
  { intros name Hn. by apply to_string_scalar, H. }
  destruct (Hs "cropType") as [? ->]; [in_fields|].
  destruct (Hs "soilType") as [? ->]; [in_fields|].
  destruct (Hs "humidity") as [? ->]; [in_fields|].
  destruct (Hs "moisture") as [? ->]; [in_fields|].
  destruct (Hs "temperature") as [? ->]; [in_fields|].
  destruct (Hs "rainfall") as [? ->]; [in_fields|].
  destruct (Hs "area") as [? ->]; [in_fields|].
  by eexists.
Qed.

Lemma body_prompt_own_toString body name fields :
  name ∈ prompt_fields → get_prop body name = Some (JObj fields) →
  obj_get "toString" fields ≠ None → body_prompt body = None.
Proof.
  intros Hn Hg Ht%to_string_own_toString. unfold body_prompt, userPrompt, prompt_fields in *.
  repeat (apply elem_of_cons in Hn as [->|Hn];
          [rewrite Hg, Ht;
           repeat match goal with
                  | |- context [to_string (get_prop ?b ?n)] =>
                      destruct (to_string (get_prop b n)); simpl; try reflexivity
                  end; reflexivity|]).
  by apply elem_of_nil in Hn.
Qed.

Lemma body_prompt_undefined_crop body user :
  get_prop body "cropType" = None → body_prompt body = Some user →
  ∃ rest, user = "Predict the yield for undefined" +:+ rest.
Proof.
  intros Hc. unfold body_prompt, userPrompt. rewrite Hc. cbn [to_string]. simpl.
  repeat match goal with
         | |- context [to_string (get_prop ?b ?n)] =>
             destruct (to_string (get_prop b n)); simpl; try discriminate
         end.
  intros [= <-].
  match goal with
  | |- context [prompt_text ?c ?s ?h ?m ?t ?r ?a] =>
      destruct (prompt_text_start c s h m t r a) as [rest ->]
  end.
  by exists rest.
Qed.

(** X3. The function checks nothing about the fields it is sent; it only
    converts them to text for the prompt.  For a body that is JSON other
    than null, once the credential is there: when the seven conversions go
    through, exactly one gateway call is made, with the prompt they give;
    they do go through when each field is missing, null, a boolean, a
    number or a text, a missing [cropType] standing in the prompt as the
    word undefined; when a field is an object with a property of its own
    named [toString] they do not, no call is made and the answer is a 500
    with the engine's message. *)
Theorem any_body_reaches_the_gateway (w : env) (req : request) (body : json)
  (key : string) :
  req_method req ≠ "OPTIONS" →
  JSON_parse (req_body req) = Some body → body ≠ JNull →
  LOVABLE_API_KEY w = Some key → key ≠ "" →
  (∀ user, body_prompt body = Some user →
     fetches (run w req).1 = [gateway_request key user])
  ∧ (body_prompt body = None →
     fetches (run w req).1 = []
     ∧ (run w req).2
       = inr (Response 500
                (Some (JSON_stringify
                         (JObj [("error", JStr (runtime_message w PromptTypeError))])))
                json_headers))
  ∧ ((∀ name, name ∈ prompt_fields → scalar (get_prop body name) = true) →
     ∃ user, body_prompt body = Some user)
  ∧ (∀ name fields,
       name ∈ prompt_fields → get_prop body name = Some (JObj fields) →
       obj_get "toString" fields ≠ None → body_prompt body = None)
  ∧ (get_prop body "cropType" = None →
     ∀ user, body_prompt body = Some user →
       ∃ rest, user = "Predict the yield for undefined" +:+ rest).
Proof.
  intros Hm Hb Hnull Hk Hne. split; [|split; [|split; [|split]]].
  - intros user Hp.
    destruct (gateway w (gateway_request key user)) as [|status text] eqn:Hg.
    + by rewrite (EdgeFacts.run_fetch_failed w req body key user).
    + rewrite (EdgeFacts.run_with_key w req body key user status text) by done.
      pose proof (EdgeFacts.on_gateway_reply_fetches w status text
                    [request_log body; Fetch (gateway_request key user)]) as Hf.
      destruct (on_gateway_reply _ _ _ _) as [tr [[m]|r]]; simpl in *; [|done].
      by rewrite EdgeFacts.fetches_app, Hf.
  - intros Hp. by rewrite (EdgeFacts.run_no_prompt w req body key).
  - apply body_prompt_scalars.
  - apply body_prompt_own_toString.
  - intros Hc user. by apply body_prompt_undefined_crop.
Qed.

(** X3 at work: the empty object as body. *)
Lemma any_body_reaches_the_gateway_witness :
  fetches (run (replying "") (Request "POST" "{}")).1
  = [gateway_request "secret"
       (prompt_text "undefined" "undefined" "undefined" "undefined" "undefined"
          "undefined" "undefined")].
Proof.
  apply (proj1 (any_body_reaches_the_gateway (replying "") (Request "POST" "{}")
                  (JObj []) "secret" ltac:(discriminate) eq_refl ltac:(discriminate)
                  eq_refl ltac:(discriminate))).
  reflexivity.
Defined.

(** A field with a [toString] of its own: no call, a 500. *)
Example own_toString_stops_the_call :
  let req := Request "POST"
               ("{" +:+ q +:+ "cropType" +:+ q +:+ ":{" +:+ q +:+ "toString" +:+ q
                +:+ ":1}}") in
  run (replying "") req
  = failed [request_log (JObj [("cropType", JObj [("toString", JNum (Decimal false [1]%nat 0))])])]
      "Cannot convert object to primitive value".
Proof. vm_compute. reflexivity. Qed.

(** X4. A 200 with a body is never made up: it is only answered when the
    gateway replied with a 2xx status, and its body is what [JSON.stringify]
    writes for the value [JSON.parse] gave on the text extracted from the
    model's reply (the reply that was logged). *)
Theorem ok_body_is_parsed_model_text (w : env) (req : request) (sent : string)
  (headers : list (string * string)) :
  (run w req).2 = inr (Response 200 (Some sent) headers) →
  ∃ key body user status text content v,
    LOVABLE_API_KEY w = Some key
    ∧ JSON_parse (req_body req) = Some body
    ∧ body_prompt body = Some user
    ∧ gateway w (gateway_request key user) = FetchReply status text
    ∧ response_ok status = true
    ∧ ConsoleLog "AI response:" [AVal (Some (JStr content))] ∈ (run w req).1
    ∧ JSON_parse (default content (jsonMatch content)) = Some v
    ∧ sent = JSON_stringify v.
Proof.
  destruct (run_path w req) as [_ ->|tr m _ _ ->|key body user _ _ _ _ _ _ _ ->
                                |key body user status text _ Hk _ Hb _ Hu Hg ->];
    try discriminate.
  destruct (on_gateway_reply _ _ _ _) as [tr [e|r]] eqn:E; [discriminate|].
  intros [= ->]. apply on_gateway_reply_answer in E as [_ H].
  destruct H as [(? & _)|[(? & _)|(_ & Hok & content & v & Hv & -> & Hp)]];
    try discriminate.
  simpl in Hv. simplify_eq. exists key, body, user, status, text, content, v.
  repeat split; try done. cbn [fst].
  rewrite !elem_of_app, !list_elem_of_singleton. auto.
Qed.

(** X4 at work: a reply with a number beyond the doubles, which comes back
    as [null]. *)
Lemma ok_body_is_parsed_model_text_witness :
  let model := "{" +:+ q +:+ "yieldPerHectare" +:+ q +:+ ":1e400}" in
  let w := replying (JSON_stringify (envelope model)) in
  ∃ key body user status text content v,
    LOVABLE_API_KEY w = Some key
    ∧ JSON_parse (req_body scenario_request) = Some body
    ∧ body_prompt body = Some user
    ∧ gateway w (gateway_request key user) = FetchReply status text
    ∧ response_ok status = true
    ∧ ConsoleLog "AI response:" [AVal (Some (JStr content))] ∈ (run w scenario_request).1
    ∧ JSON_parse (default content (jsonMatch content)) = Some v
    ∧ "{" +:+ q +:+ "yieldPerHectare" +:+ q +:+ ":null}" = JSON_stringify v.
Proof.
  apply (ok_body_is_parsed_model_text
           (replying (JSON_stringify
                        (envelope ("{" +:+ q +:+ "yieldPerHectare" +:+ q +:+ ":1e400}"))))
           scenario_request
           ("{" +:+ q +:+ "yieldPerHectare" +:+ q +:+ ":null}") json_headers).
  vm_compute. reflexivity.
Defined.

(** ** The pattern, completely *)

Lemma absent_rbrace_cons post : absent "}" (String "}" post) = false.
Proof. done. Qed.

Lemma greedy_none_absent s : greedy_to_rbrace s = None → absent "}" s = true.
Proof.
  induction s as [|c s IH]; [done|]. simpl.
  destruct (greedy_to_rbrace s); [done|].
  destruct (Ascii.eqb_spec c "}"); [done|]. intros _. by rewrite IH.
Qed.

Lemma greedy_some s : ∀ m,
  greedy_to_rbrace s = Some m →
  ∃ body post, s = body +:+ String "}" post ∧ absent "}" post = true
               ∧ m = body +:+ "}".
Proof.
  induction s as [|c s IH]; intros m; [done|]. simpl.
  destruct (greedy_to_rbrace s) as [m'|] eqn:E.
  - intros [= <-]. destruct (IH m' eq_refl) as (body & post & -> & Hp & ->).
    by exists (String c body), post.
  - destruct (Ascii.eqb_spec c "}") as [->|]; [|done]. intros [= <-].
    exists "", s. split; [done|]. split; [by apply greedy_none_absent|done].
Qed.

(** X5. What the pattern takes is the span from the first opening brace to
    the last closing brace of the whole text, and there is a match exactly
    when the text can be cut that way. *)
Theorem jsonMatch_first_to_last (s m : string) :
  jsonMatch s = Some m ↔
  ∃ pre body post,
    s = pre +:+ String "{" (body +:+ String "}" post)
    ∧ absent "{" pre = true ∧ absent "}" post = true
    ∧ m = String "{" (body +:+ "}").
Proof.
  split.
  - revert m. induction s as [|c s IH]; intros m; [done|]. cbn [jsonMatch].
    destruct (Ascii.eqb_spec c "{") as [->|Hc].
    + destruct (greedy_to_rbrace s) as [m'|] eqn:E.
      * intros [= <-]. destruct (greedy_some s m' E) as (body & post & -> & Hp & ->).
        by exists "", body, post.
      * intros H. destruct (IH m H) as (pre & body & post & -> & _ & _ & _).
        apply greedy_none_absent in E.
        rewrite EdgeFacts.absent_app in E. cbn [absent] in E.
        rewrite EdgeFacts.absent_app, absent_rbrace_cons in E.
        by rewrite !andb_false_r in E.
    + intros H. destruct (IH m H) as (pre & body & post & -> & Hpre & Hpost & ->).
      exists (String c pre), body, post. repeat split; try done.
      cbn [absent]. rewrite Hpre. by apply Ascii.eqb_neq in Hc as ->.
  - intros (pre & body & post & -> & Hpre & Hpost & ->).
    by apply EdgeFacts.jsonMatch_braces.
Qed.

(** ** Extraction comes before direct parsing *)

Lemma array_text vs :
  JSON_stringify (JArr vs)
  = "[" +:+ print_tokens (sep_by TComma (map tokens vs)) +:+ "]".
Proof.
  unfold JSON_stringify. rewrite JsonFacts.tokens_arr.
  cbn [print_tokens print_token]. by rewrite EdgeFacts.print_tokens_app.
Qed.

Lemma one_object_in_brackets b :
  "[" +:+ (String "{" (b +:+ "}") +:+ "]") = "[" +:+ String "{" (b +:+ String "}" "]").
Proof. by rewrite (JsonFacts.app_cons "{"), (JsonFacts.app_assoc b). Qed.

Lemma two_objects_matched b1 b2 :
  String "{" ((b1 +:+ String "}" (String "," (String "{" b2))) +:+ "}")
  = String "{" (b1 +:+ "}") +:+ "," +:+ String "{" (b2 +:+ "}").
Proof.
  rewrite (JsonFacts.app_cons "{"), !(JsonFacts.app_assoc b1). reflexivity.
Qed.

(** The texts of one or more objects, with commas between them, run from
    an opening brace to a closing one. *)
Lemma objects_text fs : ∀ f,
  ∃ b, print_tokens (sep_by TComma (map tokens (JObj f :: map JObj fs)))
       = String "{" (b +:+ "}").
Proof.
  induction fs as [|g gs IH]; intros f.
  - cbn [map]. rewrite JsonFacts.sep_by_one. apply EdgeFacts.stringify_object.
  - cbn [map]. rewrite JsonFacts.sep_by_more, EdgeFacts.print_tokens_app.
    cbn [print_tokens print_token].
    destruct (EdgeFacts.stringify_object f) as [b Hb]. unfold JSON_stringify in Hb.
    rewrite Hb. destruct (IH g) as [b' Hb']. cbn [map] in Hb'. rewrite Hb'.
    exists (b +:+ String "}" (String "," (String "{" b'))).
    symmetry. apply two_objects_matched.
Qed.

Lemma value_then_comma v rest :
  json_wf v = true → delimited rest = true →
  JSON_parse (print_tokens (tokens v ++ TComma :: rest)) = None.
Proof.
  intros Hv Hr. unfold JSON_parse, lex. rewrite JsonFacts.lex_print_tokens.
  - by rewrite (JsonFacts.parse_tokens v Hv).
  - by apply JsonFacts.delimited_tokens.
Qed.

Lemma delimited_values vs :
  forallb json_wf vs = true → delimited (sep_by TComma (map tokens vs)) = true.
Proof.
  intros H. rewrite <- (right_id_L [] (++) (sep_by _ _)).
  apply JsonFacts.delimited_elements; try done.
  apply Forall_forall. intros v _. apply JsonFacts.delimited_tokens.
Qed.

(** X6. Because the pattern is tried before the whole text is parsed, a
    reply that is a JSON array of one or more objects never comes back as
    that array: with one object inside, the object alone is returned; with
    more, the text between the outer braces is not JSON and the reply is
    rejected, although the whole reply is.  The empty array, which has no
    brace, is returned as it is. *)
Theorem array_reply_is_not_returned_as_array
  (fields : list (string * json)) (others : list (list (string * json)))
  (tr : list event) :
  json_wf (JArr (JObj fields :: map JObj others)) = true →
  JSON_parse (JSON_stringify (JArr (JObj fields :: map JObj others)))
    = Some (JArr (JObj fields :: map JObj others))
  ∧ (others = [] →
     normalize (Some (JStr (JSON_stringify (JArr [JObj fields])))) tr
     = (tr, inr (JObj fields)))
  ∧ (others ≠ [] →
     normalize (Some (JStr (JSON_stringify (JArr (JObj fields :: map JObj others))))) tr
     = (tr ++ [ConsoleError "Failed to parse AI response:"
                 [AVal (Some (JStr (JSON_stringify
                                      (JArr (JObj fields :: map JObj others)))))]],
        inl (Error "Failed to parse prediction data")))
  ∧ normalize (Some (JStr (JSON_stringify (JArr [])))) tr = (tr, inr (JArr [])).
Proof.
  intros Hwf.
  assert (Hm : jsonMatch (JSON_stringify (JArr (JObj fields :: map JObj others)))
               = Some (print_tokens
                         (sep_by TComma (map tokens (JObj fields :: map JObj others))))).
  { rewrite array_text. destruct (objects_text others fields) as [b ->].
    rewrite one_object_in_brackets. by apply (EdgeFacts.jsonMatch_braces "["). }
  pose proof Hwf as Hall. cbn [json_wf forallb] in Hall.
  apply andb_prop in Hall as [Hf Ho].
  split; [by apply JsonFacts.parse_stringify|]. split; [|split].
  - intros ->. rewrite EdgeFacts.normalize_text. cbn [map] in Hm. rewrite Hm.
    cbn [map default from_option id]. rewrite JsonFacts.sep_by_one.
    fold (JSON_stringify (JObj fields)). by rewrite JsonFacts.parse_stringify.
  - intros Hne. rewrite EdgeFacts.normalize_text, Hm. cbn [default from_option id].
    destruct others as [|g gs]; [done|]. cbn [map]. rewrite JsonFacts.sep_by_more.
    rewrite value_then_comma; [done..|]. by apply (delimited_values (JObj g :: map JObj gs)).
  - rewrite EdgeFacts.normalize_text. reflexivity.
Qed.

(** X6 at work: three one-field objects. *)
Lemma array_reply_is_not_returned_as_array_witness :
  let one := [("qualityGrade", JStr "Bonne")] in
  let more := [[("qualityGrade", JStr "Moyenne")]; [("qualityGrade", JStr "Faible")]] in
  let reply := JSON_stringify (JArr (JObj one :: map JObj more)) in
  normalize (Some (JStr reply)) []
  = ([ConsoleError "Failed to parse AI response:" [AVal (Some (JStr reply))]],
     inl (Error "Failed to parse prediction data")).
Proof.
  apply (proj1 (proj2 (proj2 (array_reply_is_not_returned_as_array
                                [("qualityGrade", JStr "Bonne")]
                                [[("qualityGrade", JStr "Moyenne")];
                                 [("qualityGrade", JStr "Faible")]] [] eq_refl)))).
  discriminate.
Defined.

End EdgeMore.

(** * Properties of the form, the button and the panel *)

Module ViewFacts.
Import Json Client View.

(** Case analysis on the comparison of [x] with the next name. *)
Ltac by_name x :=
  match goal with
  | |- context [String.eqb x ?k] => destruct (String.eqb_spec x k) as [->|?]
  end.

(** ** The form *)

Lemma validate_cases_all f :
  validate f = None →
  cropType f ≠ "" ∧ soilType f ≠ "" ∧ humidity f ≠ "" ∧ moisture f ≠ ""
  ∧ temperature f ≠ "" ∧ rainfall f ≠ "" ∧ area f ≠ "".
Proof.
  intros Hv.
  destruct (ClientFacts.validate_cases f)
    as [[_ H]|[(_ & _ & _ & H)|(Hc & Hs & H & _)]]; [congruence..|].
  tauto.
Qed.

Lemma handleInputChange_field name value prev :
  name ∈ form_fields → field (handleInputChange name value prev) name = value.
Proof.
  unfold form_fields, requiredFields. intros H.
  repeat (apply elem_of_cons in H as [->|H]; [reflexivity|]).
  by apply elem_of_nil in H.
Qed.

Lemma handleInputChange_other name value prev other :
  other ≠ name → field (handleInputChange name value prev) other = field prev other.
Proof.
  intros Hne. unfold handleInputChange.
  repeat (by_name name; [unfold field; repeat (by_name other; [done|]); done|]).
  done.
Qed.

Lemma field_empty_refused f name :
  name ∈ form_fields → field f name = "" → validate f ≠ None.
Proof.
  unfold form_fields, requiredFields. intros H He Hv.
  destruct (validate_cases_all f Hv) as (? & ? & ? & ? & ? & ? & ?).
  repeat (apply elem_of_cons in H as [->|H]; [by cbv in He|]).
  by apply elem_of_nil in H.
Qed.

(** X7. [handleInputChange] sets the field it names and leaves the six
    others as they were; a name outside the form changes nothing; and a
    form in which any field was cleared is refused without a call. *)
Theorem handleInputChange_sets_one_field (name value : string) (prev : formData) :
  (name ∈ form_fields → field (handleInputChange name value prev) name = value)
  ∧ (∀ other, other ≠ name →
       field (handleInputChange name value prev) other = field prev other)
  ∧ (name ∉ form_fields → handleInputChange name value prev = prev)
  ∧ (name ∈ form_fields →
       ∀ st, invocations (dispatch (handleInputChange name "" prev) st) = invocations st).
Proof.
  split; [apply handleInputChange_field|].
  split; [intros other; apply handleInputChange_other|].
  split.
  - unfold form_fields, requiredFields, handleInputChange. intros H.
    repeat (by_name name; [exfalso; apply H; repeat constructor|]).
    done.
  - intros H st. unfold dispatch.
    destruct (validate (handleInputChange name "" prev)) eqn:Hv; [done|].
    exfalso. revert Hv. apply (field_empty_refused _ name H).
    by apply handleInputChange_field.
Qed.

(** ** The two halves of [handlePredict] *)

Lemma settle_toasts o st : ∃ t, toasts (settle o st) = toasts st ++ [t].
Proof.
  unfold settle. destruct o as [|[data|] [message|]]; simpl;
    repeat case_match; simpl; eauto.
Qed.

Lemma settle_invocations o st : invocations (settle o st) = invocations st.
Proof.
  unfold settle. destruct o as [|[data|] [message|]]; simpl;
    repeat case_match; reflexivity.
Qed.

Lemma settle_loading o st : loading (settle o st) = false.
Proof. reflexivity. Qed.

Lemma settle_prediction o st d :
  prediction (settle o st) = Some d →
  prediction st = Some d
  ∨ (o = Settled (Some d) None ∧ d ≠ JNull
     ∧ ∀ e, get_prop d "error" = Some e → truthy e = false).
Proof.
  unfold settle. destruct o as [|[data|] [message|]]; simpl;
    repeat case_match; simpl; auto; intros [= <-]; right;
    (split; [done|]); (split; [done|]); intros; simplify_eq/=; done.
Qed.

Lemma settle_success data st :
  data ≠ JNull →
  (∀ e, get_prop data "error" = Some e → truthy e = false) →
  settle (Settled (Some data) None) st
  = State false (Some data) (toasts st ++ [success]) (invocations st).
Proof.
  intros Hn He. unfold settle.
  destruct data; try done; simpl;
    try (destruct (obj_get "error" fields) as [e|] eqn:E;
         [rewrite (He e E)|]); reflexivity.
Qed.

Lemma dispatch_rejected f st message :
  validate f = Some message → dispatch f st = add_toast (ToastError (JStr message)) st.
Proof. unfold dispatch. by intros ->. Qed.

Lemma dispatch_accepted f st :
  validate f = None →
  dispatch f st = State true None (toasts st) (invocations st ++ [request_body f]).
Proof. unfold dispatch. by intros ->. Qed.

(** ** The button *)

Lemma on_event_guard s e s' :
  on_event s e = Some s' →
  (loading (view (core s)) = false ∧ in_flight (core s) = []
   ∨ loading (view (core s)) = true
     ∧ in_flight (core s) = [pred (length (invocations (view (core s))))]
     ∧ invocations (view (core s)) ≠ []) →
  loading (view (core s')) = false ∧ in_flight (core s') = []
  ∨ loading (view (core s')) = true
    ∧ in_flight (core s') = [pred (length (invocations (view (core s'))))]
    ∧ invocations (view (core s')) ≠ [].
Proof.
  destruct s as [f [st fl]]. destruct e as [name value| |call o]; simpl.
  - by intros [= <-].
  - destruct (loading st) eqn:Hl; [intros [= <-]; simpl; by rewrite Hl|].
    intros [= <-]. intros [[_ ->]|[? _]]; [|done]. simpl.
    destruct (validate f) eqn:Hv.
    + rewrite (dispatch_rejected _ _ _ Hv). simpl. auto.
    + rewrite (dispatch_accepted _ _ Hv). simpl. right.
      rewrite length_app. simpl. rewrite Nat.add_1_r. simpl.
      split; [done|]. split; [done|]. by destruct (invocations st).
  - case_bool_decide as Hin; [|done]. intros [= <-]. simpl.
    intros [[_ ->]|(_ & -> & _)]; [by apply elem_of_nil in Hin|].
    apply list_elem_of_singleton in Hin as ->. left. split; [done|].
    rewrite filter_cons_False; [done|]. by intros H.
Qed.

(** X8. Through the button, which is disabled while [loading], at most one
    call is in flight at any time, and it is the latest one sent: a reply
    can only be the reply to the request the screen is waiting for. *)
Theorem button_allows_one_call_at_a_time (history : list event) (s : screen) :
  play history start = Some s →
  loading (view (core s)) = false ∧ in_flight (core s) = []
  ∨ loading (view (core s)) = true
    ∧ in_flight (core s) = [pred (length (invocations (view (core s))))]
    ∧ invocations (view (core s)) ≠ [].
Proof.
  assert (Hgen : ∀ h s0,
    play h s0 = Some s →
    (loading (view (core s0)) = false ∧ in_flight (core s0) = []
     ∨ loading (view (core s0)) = true
       ∧ in_flight (core s0) = [pred (length (invocations (view (core s0))))]
       ∧ invocations (view (core s0)) ≠ []) →
    loading (view (core s)) = false ∧ in_flight (core s) = []
    ∨ loading (view (core s)) = true
      ∧ in_flight (core s) = [pred (length (invocations (view (core s))))]
      ∧ invocations (view (core s)) ≠ []).
  { induction h as [|e h IH]; intros s0; simpl; [by intros [= ->]|].
    destruct (on_event s0 e) as [s1|] eqn:E; [|done].
    intros Hp H0. apply (IH s1 Hp). by apply (on_event_guard s0 e). }
  intros H. apply (Hgen history start H). by left.
Qed.

(** X8 at work: a second click while the first call is out is ignored. *)
Lemma button_allows_one_call_at_a_time_witness :
  let s := Screen banana
             (Machine (State true None [] [request_body banana]) [0%nat]) in
  loading (view (core s)) = false ∧ in_flight (core s) = []
  ∨ loading (view (core s)) = true
    ∧ in_flight (core s) = [pred (length (invocations (view (core s))))]
    ∧ invocations (view (core s)) ≠ [].
Proof.
  apply (button_allows_one_call_at_a_time
           [Input "cropType" "Banane"; Input "soilType" "Argileux";
            Input "humidity" "90"; Input "moisture" "85"; Input "temperature" "30";
            Input "rainfall" "250"; Input "area" "4"; Click; Click]).
  reflexivity.
Defined.

(** ** Toasts and calls *)

Lemma filter_absent (call : nat) (l : list nat) `{!∀ c : nat, Decision (c ≠ call)} :
  call ∉ l → filter (λ c, c ≠ call) l = l.
Proof.
  induction l as [|x l IH]; [done|]. intros Hout.
  apply not_elem_of_cons in Hout as [Hx Hl].
  rewrite filter_cons_True by done. by rewrite IH.
Qed.

Lemma filter_one_out (call : nat) (l : list nat) `{!∀ c : nat, Decision (c ≠ call)} :
  NoDup l → call ∈ l → S (length (filter (λ c, c ≠ call) l)) = length l.
Proof.
  induction 1 as [|x l Hx Hl IH]; intros Hin; [by apply elem_of_nil in Hin|].
  destruct (decide (x = call)) as [->|Hne].
  - rewrite filter_cons_False by (by intros Hc). by rewrite filter_absent.
  - rewrite filter_cons_True by done. simpl. f_equal. apply IH.
    apply elem_of_cons in Hin as [->|]; done.
Qed.

Lemma step_accounts m a m' :
  NoDup (in_flight m) →
  (∀ c, c ∈ in_flight m → c < length (invocations (view m))) →
  step m a = Some m' →
  NoDup (in_flight m')
  ∧ (∀ c, c ∈ in_flight m' → c < length (invocations (view m')))
  ∧ length (toasts (view m')) + length (in_flight m')
    = length (toasts (view m)) + length (in_flight m) + (if is_click a then 1 else 0)
  ∧ length (invocations (view m'))
    = length (invocations (view m)) + (if accepted a then 1 else 0).
Proof.
  destruct m as [st fl]. simpl. intros Hnd Hlt. destruct a as [f|call o]; simpl.
  - intros [= <-]. simpl. destruct (validate f) eqn:Hv.
    + rewrite (dispatch_rejected _ _ _ Hv). simpl.
      rewrite length_app. simpl. repeat split; try done; lia.
    + rewrite (dispatch_accepted _ _ Hv). simpl.
      rewrite !length_app. simpl. repeat split; try lia.
      * apply NoDup_app. split; [done|]. split; [|apply NoDup_singleton].
        intros c Hc ->%list_elem_of_singleton. apply Hlt in Hc. lia.
      * intros c [Hc| ->%list_elem_of_singleton]%elem_of_app; [apply Hlt in Hc|]; lia.
  - case_bool_decide as Hin; [|done]. intros [= <-]. cbn [view in_flight].
    rewrite settle_invocations. destruct (settle_toasts o st) as [t ->].
    rewrite length_app. simpl. rewrite <- (filter_one_out call fl Hnd Hin).
    repeat split; try lia.
    + by apply NoDup_filter.
    + intros c [_ Hc]%list_elem_of_filter. by apply Hlt.
Qed.

Lemma run_accounts h : ∀ m m',
  NoDup (in_flight m) →
  (∀ c, c ∈ in_flight m → c < length (invocations (view m))) →
  run h m = Some m' →
  length (toasts (view m')) + length (in_flight m')
  = length (toasts (view m)) + length (in_flight m) + length (List.filter is_click h)
  ∧ length (invocations (view m'))
    = length (invocations (view m)) + length (List.filter accepted h).
Proof.
  induction h as [|a h IH]; intros m m' Hnd Hlt; simpl.
  - intros [= ->]. lia.
  - destruct (step m a) as [m1|] eqn:E; [|done]. intros Hr.
    destruct (step_accounts m a m1 Hnd Hlt E) as (Hnd1 & Hlt1 & Ht & Hi).
    destruct (IH m1 m' Hnd1 Hlt1 Hr) as [Ht' Hi'].
    rewrite Ht', Ht, Hi', Hi. destruct (is_click a), (accepted a); simpl; lia.
Qed.

(** X9. No click is silent and none is answered twice.  After any history
    of clicks and replies, the toasts shown and the calls still out add up
    to the number of clicks: a refused click raises its toast at once, an
    accepted one sends exactly one request and raises exactly one toast
    when its reply comes. *)
Theorem every_click_ends_in_one_toast (history : list action) (m : machine) :
  run history boot = Some m →
  length (toasts (view m)) + length (in_flight m) = length (List.filter is_click history)
  ∧ length (invocations (view m)) = length (List.filter accepted history).
Proof.
  intros H. apply (run_accounts history boot m) in H; simpl in H.
  - destruct H as [H1 H2]. split; [lia|done].
  - apply NoDup_nil_2.
  - intros c Hc. by apply elem_of_nil in Hc.
Qed.

(** X9 at work: a refused click, an accepted one, its reply. *)
Lemma every_click_ends_in_one_toast_witness :
  let m := Machine
             (State false (Some reply_B)
                [ToastError (JStr "Please select crop type and soil type"); success]
                [request_body banana]) [] in
  length (toasts (view m)) + length (in_flight m) = 2
  ∧ length (invocations (view m)) = 1.
Proof.
  apply (every_click_ends_in_one_toast
           [Predict (FormData "" "" "" "" "" "" ""); Predict banana;
            Reply 0 (Settled (Some reply_B) None)]).
  reflexivity.
Defined.

(** ** Where a prediction on display comes from *)

Lemma run_prediction h : ∀ m m' d,
  run h m = Some m' →
  prediction (view m') = Some d →
  (prediction (view m) = Some d ∧ Forall (λ a, accepted a = false) h)
  ∨ ∃ before call after,
      h = before ++ Reply call (Settled (Some d) None) :: after
      ∧ Forall (λ a, accepted a = false) after
      ∧ d ≠ JNull
      ∧ ∀ e, get_prop d "error" = Some e → truthy e = false.
Proof.
  induction h as [|a h IH]; intros m m' d; simpl.
  - intros [= ->] Hd. left. by split.
  - destruct (step m a) as [m1|] eqn:E; [|done]. intros Hr Hd.
    destruct (IH m1 m' d Hr Hd) as [[Hd1 Hall]|(before & call & after & -> & Hrest)].
    + destruct m as [st fl]. destruct a as [f|call o]; simpl in E.
      * injection E as <-. simpl in Hd1. destruct (validate f) eqn:Hv.
        -- rewrite (dispatch_rejected _ _ _ Hv) in Hd1. left. split; [done|].
           constructor; [|done]. simpl. by rewrite Hv.
        -- by rewrite (dispatch_accepted _ _ Hv) in Hd1.
      * case_bool_decide; [|done]. injection E as <-. simpl in Hd1.
        apply settle_prediction in Hd1 as [Hd0|(-> & Hn & He)].
        -- left. split; [done|]. by constructor.
        -- right. by exists [], call, h.
    + right. by exists (a :: before), call, after.
Qed.

(** X10. A prediction on display is always the data of a reply that came
    without an error, and no request has been sent since that reply. *)
Theorem shown_prediction_is_an_answer (history : list action) (m : machine) (d : json) :
  run history boot = Some m →
  prediction (view m) = Some d →
  ∃ before call after,
    history = before ++ Reply call (Settled (Some d) None) :: after
    ∧ Forall (λ a, accepted a = false) after
    ∧ d ≠ JNull
    ∧ ∀ e, get_prop d "error" = Some e → truthy e = false.
Proof.
  intros Hr Hd. by destruct (run_prediction history boot m d Hr Hd) as [[? _]|?].
Qed.

(** X10 at work. *)
Lemma shown_prediction_is_an_answer_witness :
  ∃ before call after,
    [Predict banana; Reply 0 (Settled (Some reply_B) None)]
    = before ++ Reply call (Settled (Some reply_B) None) :: after
    ∧ Forall (λ a, accepted a = false) after
    ∧ reply_B ≠ JNull
    ∧ ∀ e, get_prop reply_B "error" = Some e → truthy e = false.
Proof.
  apply (shown_prediction_is_an_answer
           [Predict banana; Reply 0 (Settled (Some reply_B) None)]
           (Machine (State false (Some reply_B) [success] [request_body banana]) []));
    reflexivity.
Defined.

(** ** The panel *)

Lemma render_missing data name :
  truthy data = true → name ∈ panel_fields → get_prop data name = None →
  render (Some data) = Thrown.
Proof.
  intros Ht Hin Hn. unfold render. rewrite Ht. unfold panel_fields in Hin.
  repeat (apply elem_of_cons in Hin as [->|Hin];
          [rewrite Hn; simpl; try reflexivity;
           repeat match goal with
                  | |- context [get_prop ?d ?k] =>
                      destruct (get_prop d k) as [[]|]; simpl; try reflexivity
                  end|]).
  by apply elem_of_nil in Hin.
Qed.

(** X11. The reply is not checked against the shape the panel needs: any
    reply other than [null] without a truthy [error] is stored and
    announced as a success, and when it lacks one of the five fields the
    panel dereferences, drawing the panel throws. *)
Theorem success_is_announced_whatever_the_shape (data : json) (st : state) (name : string) :
  truthy data = true →
  (∀ e, get_prop data "error" = Some e → truthy e = false) →
  name ∈ panel_fields →
  get_prop data name = None →
  prediction (settle (Settled (Some data) None) st) = Some data
  ∧ toasts (settle (Settled (Some data) None) st) = toasts st ++ [success]
  ∧ render (prediction (settle (Settled (Some data) None) st)) = Thrown.
Proof.
  intros Ht He Hin Hn.
  rewrite settle_success; [|by destruct data|done]. simpl.
  split; [done|]. split; [done|]. by apply (render_missing data name).
Qed.

(** X11 at work: a reply with the yield only. *)
Lemma success_is_announced_whatever_the_shape_witness :
  prediction (settle (Settled (Some reply_B) None) initial) = Some reply_B
  ∧ toasts (settle (Settled (Some reply_B) None) initial) = toasts initial ++ [success]
  ∧ render (prediction (settle (Settled (Some reply_B) None) initial)) = Thrown.
Proof.
  apply (success_is_announced_whatever_the_shape reply_B initial "totalProduction").
  - reflexivity.
  - intros e. vm_compute. discriminate.
  - unfold panel_fields. apply list_elem_of_further, list_elem_of_here.
  - reflexivity.
Defined.

(** [toFixed(1)] on doubles that lie between two tenths. *)
Example toFixed1_forms :
  map toFixed1
    [Decimal false [2; 8; 5] (-1); Decimal false [1; 1; 4] 0;
     Decimal false [2; 3; 5] (-2); Decimal false [2; 5; 5] (-2);
     Decimal false [2; 5] (-2); Decimal false [5] (-2);
     Decimal false [1; 4; 5] (-2); Decimal false [1; 2; 3; 4; 5; 6] (-3);
     Decimal true [4] (-2); Decimal true [1; 5] (-1); dzero;
     Decimal false [1] 21; Decimal false [9; 9; 9; 9; 9] (-2)]%nat
  = ["28.5"; "114.0"; "2.4"; "2.5"; "0.3"; "0.1"; "1.4"; "123.5"; "-0.0"; "-1.5"; "0.0";
     "1e+21"; "1000.0"].
Proof. vm_compute. reflexivity. Qed.

Lemma render_truthy data :
  truthy data = true →
  render (Some data)
  = default Thrown
      (y ← toFixed (get_prop data "yieldPerHectare");
       t ← toFixed (get_prop data "totalProduction");
       g ← as_text (get_prop data "qualityGrade");
       ks ← as_array (get_prop data "keyFactors");
       rs ← as_array (get_prop data "recommendations");
       Some (Drawn (Panel y t (getQualityColor g) g
                      (get_prop data "confidenceLevel") (get_prop data "analysis")
                      ks rs))).
Proof. unfold render. by intros ->. Qed.

(** X12. For a truthy prediction, building the panel either throws or
    succeeds, and it succeeds exactly when [toFixed] can be called on the
    two quantities (they are numbers), the grade is a text and the two
    lists are arrays.  The panel then carries the two quantities as
    [toFixed(1)] writes them, the grade with the class [getQualityColor]
    gives it, the confidence level and the analysis as they are (they may
    be missing) and the elements of the two lists. *)
Theorem panel_drawn_iff_five_fields_have_their_kind (data : json) (p : panel) :
  truthy data = true →
  (render (Some data) = Thrown ∨ ∃ p', render (Some data) = Drawn p')
  ∧ (render (Some data) = Drawn p ↔
     toFixed (get_prop data "yieldPerHectare") = Some (shown_yield p)
     ∧ toFixed (get_prop data "totalProduction") = Some (shown_total p)
     ∧ get_prop data "qualityGrade" = Some (JStr (shown_grade p))
     ∧ get_prop data "keyFactors" = Some (JArr (shown_factors p))
     ∧ get_prop data "recommendations" = Some (JArr (shown_recommendations p))
     ∧ grade_class p = getQualityColor (shown_grade p)
     ∧ shown_confidence p = get_prop data "confidenceLevel"
     ∧ shown_analysis p = get_prop data "analysis")
  ∧ (∀ y, get_prop data "yieldPerHectare" = Some (JNum y) →
          toFixed (get_prop data "yieldPerHectare") = Some (toFixed1 y))
  ∧ (∀ v, toFixed v ≠ None ↔ (∃ d, v = Some (JNum d)) ∨ (∃ neg, v = Some (JInf neg))).
Proof.
  intros Ht. rewrite (render_truthy data Ht). split; [|split; [|split]].
  - destruct (toFixed (get_prop data "yieldPerHectare")); simpl; auto.
    destruct (toFixed (get_prop data "totalProduction")); simpl; auto.
    destruct (get_prop data "qualityGrade") as [[]|]; simpl; auto.
    destruct (get_prop data "keyFactors") as [[]|]; simpl; auto.
    destruct (get_prop data "recommendations") as [[]|]; simpl; eauto.
  - split.
    + destruct (toFixed (get_prop data "yieldPerHectare")); try done.
      destruct (toFixed (get_prop data "totalProduction")); try done.
      destruct (get_prop data "qualityGrade") as [[]|]; try done.
      destruct (get_prop data "keyFactors") as [[]|]; try done.
      destruct (get_prop data "recommendations") as [[]|]; try done.
      simpl. by intros [= <-].
    + intros (-> & -> & -> & -> & -> & Hc & Hconf & Han). simpl.
      destruct p. simpl in *. by subst.
  - by intros y ->.
  - intros v. split.
    + destruct v as [[]|]; try done; eauto.
    + by intros [[d ->]|[neg ->]].
Qed.

(** X12 at work: 28.57 and 114.28 are shown as 28.6 and 114.3. *)
Lemma panel_drawn_iff_five_fields_have_their_kind_witness :
  render (Some five_fields)
  = Drawn (Panel "28.6" "114.3" "text-blue-600" "Bonne" None None
             [JStr "high humidity"] []).
Proof.
  apply (proj1 (proj2 (panel_drawn_iff_five_fields_have_their_kind five_fields
                         (Panel "28.6" "114.3" "text-blue-600" "Bonne" None None
                            [JStr "high humidity"] []) eq_refl))).
  vm_compute. repeat split.
Defined.

(** ** Replies and dispatches *)

Lemma play_app h1 : ∀ h2 s0,
  play (h1 ++ h2) s0 = match play h1 s0 with Some s1 => play h2 s1 | None => None end.
Proof.
  induction h1 as [|e h1 IH]; intros h2 s0; simpl; [done|].
  destruct (on_event s0 e); [apply IH|done].
Qed.

Lemma play_guard h : ∀ s0 s,
  play h s0 = Some s →
  (loading (view (core s0)) = false ∧ in_flight (core s0) = []
   ∨ loading (view (core s0)) = true
     ∧ in_flight (core s0) = [pred (length (invocations (view (core s0))))]
     ∧ invocations (view (core s0)) ≠ []) →
  loading (view (core s)) = false ∧ in_flight (core s) = []
  ∨ loading (view (core s)) = true
    ∧ in_flight (core s) = [pred (length (invocations (view (core s))))]
    ∧ invocations (view (core s)) ≠ [].
Proof.
  induction h as [|e h IH]; intros s0 s; simpl; [by intros [= ->]|].
  destruct (on_event s0 e) as [s1|] eqn:E; [|done].
  intros Hp H0. apply (IH s1 s Hp). by apply (on_event_guard s0 e).
Qed.

(** C2, as the code has it.  Through the form, every reply answers the
    latest dispatch: when it arrives, its call is the only one out and the
    last one sent, since the button is disabled while a call is out, and
    the reply is applied to the state, after which no call is out; so of
    two dispatches A then B, A has been answered before B is sent and the
    state at the end is B's outcome.  No identifier has a part in this:
    [handlePredict] tags no dispatch and discards no reply, and were both
    calls out at once, the reply that comes last would be the one shown. *)
Theorem replies_answer_the_latest_dispatch (history : list event) (s : screen) :
  play history start = Some s →
  (∀ before call o after,
     history = before ++ Answer call o :: after →
     ∃ s1, play before start = Some s1
           ∧ loading (view (core s1)) = true
           ∧ in_flight (core s1) = [call]
           ∧ length (invocations (view (core s1))) = S call
           ∧ ∃ s2, play (before ++ [Answer call o]) start = Some s2
                   ∧ view (core s2) = settle o (view (core s1))
                   ∧ in_flight (core s2) = [])
  ∧ (∀ fA fB dA oB,
       validate fA = None → validate fB = None → dA ≠ JNull →
       (∀ e, get_prop dA "error" = Some e → truthy e = false) →
       ∃ m, run [Predict fA; Predict fB; Reply 1 oB; Reply 0 (Settled (Some dA) None)] boot
            = Some m
            ∧ prediction (view m) = Some dA).
Proof.
  intros Hp. split.
  - intros before call o after ->. rewrite play_app in Hp.
    destruct (play before start) as [s1|] eqn:E1; [|done].
    exists s1. split; [done|]. cbn [play] in Hp.
    destruct (on_event s1 (Answer call o)) as [s2|] eqn:E2; [|done].
    pose proof E2 as E3. cbn [on_event step] in E2.
    destruct (bool_decide (call ∈ in_flight (core s1))) eqn:Hin; [|done].
    apply bool_decide_eq_true in Hin.
    destruct (play_guard before start s1 E1) as [[_ Hfl]|(Hl & Hfl & Hne)]; [by left|..].
    + rewrite Hfl in Hin. by apply elem_of_nil in Hin.
    + rewrite Hfl in Hin. apply list_elem_of_singleton in Hin as ->.
      split; [done|]. split; [done|]. split.
      { destruct (invocations (view (core s1))); [done|]. reflexivity. }
      exists s2. rewrite play_app, E1. cbn [play]. rewrite E3.
      split; [done|]. rewrite Hfl in E2. injection E2 as <-.
      cbn [core view in_flight]. split; [done|].
      by rewrite filter_cons_False by (intros H; by apply H).
  - intros fA fB dA oB HA HB Hn He.
    destruct (ClientFacts.late_reply_overwrites fA fB dA oB HA HB Hn He)
      as (m & Hr & Hd & _).
    by exists m.
Qed.

(** C2 at work: two predictions asked for one after the other. *)
Lemma replies_answer_the_latest_dispatch_witness :
  let first := [Input "cropType" "Banane"; Input "soilType" "Argileux";
                Input "humidity" "90"; Input "moisture" "85"; Input "temperature" "30";
                Input "rainfall" "250"; Input "area" "4"; Click;
                Answer 0 (Settled (Some reply_A) None); Click] in
  ∃ s1, play first start = Some s1
        ∧ loading (view (core s1)) = true
        ∧ in_flight (core s1) = [1%nat]
        ∧ length (invocations (view (core s1))) = 2%nat
        ∧ ∃ s2, play (first ++ [Answer 1 (Settled (Some reply_B) None)]) start
                = Some s2
                ∧ view (core s2) = settle (Settled (Some reply_B) None) (view (core s1))
                ∧ in_flight (core s2) = [].
Proof.
  refine (proj1 (replies_answer_the_latest_dispatch
                   ([Input "cropType" "Banane"; Input "soilType" "Argileux";
                     Input "humidity" "90"; Input "moisture" "85";
                     Input "temperature" "30"; Input "rainfall" "250"; Input "area" "4";
                     Click; Answer 0 (Settled (Some reply_A) None); Click]
                    ++ Answer 1 (Settled (Some reply_B) None) :: [])
                   (Screen banana
                      (Machine
                         (State false (Some reply_B) [success; success]
                            [request_body banana; request_body banana]) []))
                   _) _ 1%nat (Settled (Some reply_B) None) [] eq_refl).
  vm_compute. reflexivity.
Defined.

End ViewFacts.

(** * Properties of the settings page and of the provider behind it *)

Module SettingsPageFacts.
Import Json Settings SettingsPage.

(** ** The provider *)

Lemma obj_get_set_same key value fields :
  obj_get key (obj_set key value fields) = Some value.
Proof. apply SettingsFacts.obj_set_get. Qed.

Lemma apply_update_dom s u : dom s ⊆ dom (apply_update s u).
Proof.
  destruct u as [key value|section key value]; simpl;
    unfold updateSetting, updateNestedSetting.
  - apply dom_insert_subseteq.
  - destruct (s !! section) as [v|].
    + destruct (truthy v); [apply dom_insert_subseteq|done].
    + case_bool_decide; [apply dom_insert_subseteq|done].
Qed.

Lemma initialSettings_dom saved : dom defaultSettings ⊆ dom (initialSettings saved).
Proof.
  unfold initialSettings. destruct saved as [[|c text]|]; try done.
  destruct (JSON_parse _); [|done]. unfold spread_over.
  intros k [v Hk]%elem_of_dom. apply elem_of_dom.
  rewrite SettingsFacts.lookup_spread, Hk. destruct (obj_get k _); eauto.
Qed.

(** X13. Neither updater ever removes a setting: whatever was stored and
    whatever updates followed, every name the state had is still there, the
    ten default names among them. *)
Theorem no_setting_is_ever_lost :
  (∀ s updates, dom s ⊆ dom (foldl apply_update s updates))
  ∧ (∀ saved updates,
       dom defaultSettings ⊆ dom (foldl apply_update (initialSettings saved) updates)).
Proof.
  assert (H : ∀ updates s, dom s ⊆ dom (foldl apply_update s updates)).
  { induction updates as [|u updates IH]; intros s; simpl; [done|].
    etrans; [apply (apply_update_dom s u)|apply IH]. }
  split; [intros s updates; apply H|].
  intros saved updates. etrans; [apply initialSettings_dom|apply H].
Qed.

(** X14. The test for an existing section is truthiness, not being an
    object.  A falsy entry (false, 0, the empty text, null) is left alone;
    any truthy entry, object or not, is replaced by an object that holds
    the key: a flag that is on becomes the object of that one key. *)
Theorem section_test_is_truthiness
  (prevSettings : gmap string json) (section key : string) (value v : json) :
  prevSettings !! section = Some v →
  (truthy v = false → updateNestedSetting section key value prevSettings = prevSettings)
  ∧ (truthy v = true →
       ∃ fields,
         updateNestedSetting section key value prevSettings
         = <[section := JObj fields]> prevSettings
         ∧ obj_get key fields = Some value)
  ∧ (v = JBool true →
       updateNestedSetting section key value prevSettings
       = <[section := JObj [(key, value)]]> prevSettings).
Proof.
  intros Hs. unfold updateNestedSetting. rewrite Hs. split; [by intros ->|]. split.
  - intros ->. eexists. split; [reflexivity|]. apply obj_get_set_same.
  - by intros ->.
Qed.

(** X14 at work, on the defaults: [autoSave] is on, [offlineMode] is off. *)
Lemma section_test_is_truthiness_witness :
  updateNestedSetting "autoSave" "every" (JStr "hour") defaultSettings
  = <["autoSave" := JObj [("every", JStr "hour")]]> defaultSettings.
Proof.
  refine (proj2 (proj2 (section_test_is_truthiness defaultSettings
                          "autoSave" "every" (JStr "hour") (JBool true) _)) eq_refl).
  vm_compute. reflexivity.
Defined.

(** ** Saving and loading *)

(** The object that is read back lists the properties in the engine's
    order, whatever the order of [properties]. *)
Lemma spread_enumerated properties s :
  enumerates properties s → dom defaultSettings ⊆ dom s →
  spread_over defaultSettings
    (JObj (fold_left (fun a kv => obj_set kv.1 kv.2 a) properties [])) = s.
Proof.
  intros [Hnd <-] Hdom. apply map_eq. intros k. unfold spread_over.
  cbn [own_props].
  destruct (JsonFacts.set_all_listed properties [] (NoDup_nil_2) eq_refl)
    as [Hnd' _].
  rewrite SettingsFacts.lookup_spread, SettingsFacts.obj_get_list_to_map,
    SettingsFacts.list_to_map_rev by done.
  rewrite <- SettingsFacts.obj_get_list_to_map, SettingsFacts.obj_get_set_all.
  cbn [obj_get].
  rewrite SettingsFacts.obj_get_list_to_map, SettingsFacts.list_to_map_rev by done.
  destruct (list_to_map properties !! k) eqn:E; [done|].
  apply not_elem_of_dom. intros Hk. apply Hdom in Hk.
  by apply not_elem_of_dom in E.
Qed.

Lemma enumerated_wf properties s :
  enumerates properties s → settings_wf s →
  forallb (fun kv => json_wf kv.2) properties = true.
Proof.
  intros [Hnd <-] Hwf. apply forallb_forall. intros [k v] Hin. simpl.
  apply (Hwf k v).
  apply elem_of_list_to_map_1; [by rewrite <- SettingsFacts.map_fst_fmap|].
  by apply list_elem_of_In.
Qed.

Lemma initialSettings_saved properties s :
  enumerates properties s → settings_wf s → dom defaultSettings ⊆ dom s →
  initialSettings (Some (JSON_stringify (JObj properties))) = s.
Proof.
  intros He Hwf Hdom. unfold initialSettings.
  destruct (EdgeFacts.stringify_object properties) as [body E].
  rewrite JsonFacts.parse_stringify_object
    by (by apply (enumerated_wf properties s)).
  rewrite E. by apply spread_enumerated.
Qed.

(** X15. Save, then start over: the settings come back as they were.
    This needs what the provider guarantees (the default names are there)
    and values that JSON can carry unchanged; the order in which the engine
    lists the properties does not matter. *)
Theorem saved_settings_come_back
  (properties : list (string * json)) (p : page) (dark : bool) :
  enumerates properties (settings p) →
  settings_wf (settings p) →
  dom defaultSettings ⊆ dom (settings p) →
  settings (load dark (storage (handleSave properties p))) = settings p
  ∧ hasChanges (load dark (storage (handleSave properties p))) = false.
Proof.
  intros He Hwf Hdom. unfold load, handleSave. simpl.
  rewrite lookup_insert_eq. split; [|done]. by apply initialSettings_saved.
Qed.

Lemma defaultSettings_wf : settings_wf defaultSettings.
Proof.
  unfold settings_wf, defaultSettings. simpl.
  repeat (apply map_Forall_insert_2; [reflexivity|]). apply map_Forall_empty.
Qed.

Lemma updateSetting_wf key value s :
  json_wf value = true → settings_wf s → settings_wf (updateSetting key value s).
Proof. intros Hv Hs. by apply map_Forall_insert_2. Qed.

Lemma compact_enumerated :
  enumerates compact_properties (updateSetting "compactMode" (JBool true) defaultSettings).
Proof.
  split.
  - compute_done.
  - apply map_eq. intros k. unfold updateSetting.
    rewrite <- SettingsFacts.obj_get_list_to_map. unfold compact_properties, defaultSettings. simpl.
    repeat match goal with
           | |- context [String.eqb k ?n] =>
               destruct (String.eqb_spec k n) as [->|?]; [vm_compute; reflexivity|]
           end.
    by rewrite !lookup_insert_ne, lookup_empty by done.
Qed.

(** X15 at work: compact mode switched on over the defaults. *)
Lemma saved_settings_come_back_witness :
  let p := handleSettingChange "compactMode" (JBool true) (load false ∅) in
  settings (load false (storage (handleSave compact_properties p))) = settings p
  ∧ hasChanges (load false (storage (handleSave compact_properties p))) = false.
Proof.
  apply (saved_settings_come_back compact_properties
           (handleSettingChange "compactMode" (JBool true) (load false ∅)) false).
  - exact compact_enumerated.
  - apply updateSetting_wf; [reflexivity|exact defaultSettings_wf].
  - apply dom_insert_subseteq.
Defined.

(** ** The save button *)

Lemma handleSettingChange_in_order key value p :
  json_wf value = true → in_order p → in_order (handleSettingChange key value p).
Proof.
  intros Hv (Hwf & Hdom & Hst & _). unfold in_order. simpl.
  split; [by apply updateSetting_wf|].
  split; [etrans; [exact Hdom|apply dom_insert_subseteq]|].
  split; [done|]. discriminate.
Qed.

Lemma load_in_order dark stored :
  settings_wf (initialSettings (stored !! "appSettings")) → in_order (load dark stored).
Proof.
  intros Hwf. unfold in_order. simpl.
  split; [done|]. split; [apply initialSettings_dom|]. by split.
Qed.

Lemma act_in_order c p : possible c p → in_order p → in_order (act c p).
Proof.
  destruct c as [key checked|key value|checked|properties|dark|dark]; simpl.
  - intros _. by apply handleSettingChange_in_order.
  - intros _. by apply handleSettingChange_in_order.
  - intros _ H.
    apply (handleSettingChange_in_order "darkMode" (JBool checked)) in H; [|done].
    destruct H as (Hwf & Hdom & Hst & _). unfold in_order, onDarkModeChange. simpl in *.
    rewrite lookup_insert_ne by done. repeat split; try done.
  - intros [_ He] (Hwf & Hdom & _ & _). unfold in_order, handleSave. simpl.
    rewrite lookup_insert_eq.
    rewrite (initialSettings_saved properties (settings p)) by done.
    by repeat split.
  - intros _ _. apply load_in_order. rewrite lookup_delete_eq. apply defaultSettings_wf.
  - intros _ (_ & _ & Hst & _). by apply load_in_order.
Qed.

(** X16. The save button tells the truth.  Starting from any storage
    whose settings are well formed, after any sequence of switches,
    selections, saves, resets and reloads: whenever the button is hidden,
    starting over would give exactly the settings on the page. *)
Theorem hidden_save_button_means_saved
  (dark : bool) (stored : gmap string string) (p : page) :
  settings_wf (initialSettings (stored !! "appSettings")) →
  reaches (load dark stored) p →
  hasChanges p = false →
  initialSettings (storage p !! "appSettings") = settings p.
Proof.
  intros Hwf Hr. assert (H : in_order p).
  { induction Hr as [|p c _ IH Hc]; [by apply load_in_order|by apply act_in_order]. }
  by destruct H as (_ & _ & _ & H).
Qed.

(** X16 at work: compact mode switched on and saved, over empty storage. *)
Lemma hidden_save_button_means_saved_witness :
  let p := act (SaveChanges compact_properties)
             (act (Switch "compactMode" true) (load false ∅)) in
  initialSettings (storage p !! "appSettings") = settings p.
Proof.
  apply (hidden_save_button_means_saved false ∅).
  - exact defaultSettings_wf.
  - apply reaches_step; [apply reaches_step; [apply reaches_here|exact I]|].
    split; [reflexivity|exact compact_enumerated].
  - reflexivity.
Defined.

(** ** What the switches show *)

(** X17. The weather alerts switch is drawn from [weatherAlerts || true]
    and so is on whatever the setting holds, also right after it was
    switched off; the other switches show what was just set. *)
Theorem weather_switch_is_always_on :
  (∀ s, truthy (weatherAlerts_checked s) = true)
  ∧ (∀ p checked,
       settings (handleSettingChange "weatherAlerts" (JBool checked) p) !! "weatherAlerts"
       = Some (JBool checked)
       ∧ weatherAlerts_checked
           (settings (handleSettingChange "weatherAlerts" (JBool checked) p))
         = JBool true
       ∧ compactMode_checked
           (settings (handleSettingChange "compactMode" (JBool checked) p))
         = JBool checked
       ∧ emailNotifications_checked
           (settings (handleSettingChange "emailNotifications" (JBool checked) p))
         = JBool checked
       ∧ pushNotifications_checked
           (settings (handleSettingChange "pushNotifications" (JBool checked) p))
         = JBool checked
       ∧ offlineMode_checked
           (settings (handleSettingChange "offlineMode" (JBool checked) p))
         = JBool checked
       ∧ autoSave_checked
           (settings (handleSettingChange "autoSave" (JBool checked) p))
         = checked).
Proof.
  split.
  - intros s. unfold weatherAlerts_checked, js_or.
    destruct (s !! "weatherAlerts") as [v|]; [|done]. by destruct (truthy v) eqn:E.
  - intros p checked.
    unfold weatherAlerts_checked, compactMode_checked, emailNotifications_checked,
      pushNotifications_checked, offlineMode_checked, autoSave_checked, js_or,
      handleSettingChange, updateSetting.
    simpl. rewrite !lookup_insert_eq. by destruct checked.
Qed.

(** ** Reset *)

(** X18. Reset forgets the saved settings and nothing else: the page
    starts over on the defaults, but the [theme] entry the dark mode switch
    wrote stays in storage, so after dark mode was switched on the stored
    theme is still dark while the setting is off again. *)
Theorem reset_keeps_the_stored_theme (p : page) (checked dark : bool) :
  settings (handleReset dark p) = defaultSettings
  ∧ storage (handleReset dark p) !! "appSettings" = None
  ∧ (∀ name, name ≠ "appSettings" →
       storage (handleReset dark p) !! name = storage p !! name)
  ∧ storage (handleReset dark (onDarkModeChange checked p)) !! "theme"
    = Some (if checked then "dark" else "light")
  ∧ settings (handleReset dark (onDarkModeChange checked p)) !! "darkMode"
    = Some (JBool false).
Proof.
  unfold handleReset, load, onDarkModeChange. simpl.
  rewrite !lookup_delete_eq. simpl.
  split; [done|]. split; [done|]. split.
  - intros name Hne. by rewrite lookup_delete_ne.
  - rewrite lookup_delete_ne by done. by rewrite lookup_insert_eq.
Qed.

End SettingsPageFacts.
